(** * A shallow embedding of [pro1/game2.py]

    The simulation core of the arcade shooter: [Player], [Enemy], [Bullet]
    and [Game], the Tk timer queue that drives them, and the properties the
    specification states about them.

    Conventions of the embedding.
    - Python floats (and the ints that flow into them) are modelled as real
      numbers [R]: rounding is not modelled.  Every concrete scenario below
      uses values on which the float computation is exact.  The one test
      whose answer depends on rounding, the collision threshold, is given
      a second time on IEEE 754 binary64 values, in [Double].
    - Python objects are heap cells: [enemy_obj] and [bullet_obj] map an
      object reference to the object's fields, and the collections
      [enemies] and [bullets] hold references, so that a snapshot
      ([self.enemies[:]]) aliases the live objects, as in the source.
    - Methods are computations in a state-and-exception monad [M]; the
      state reached before an exception is kept, as in Python.
    - [random.randint] reads a stream of integers carried by the state.
    - The Tk canvas is the set of live item handles plus the two text
      labels; the timer queue of [after] is the list [timers]. *)

From Stdlib Require Import Reals Lra Lia ZArith.
From Stdlib Require PrimFloat SpecFloat FloatOps.
From stdpp Require Import base list gmap strings.

(** ** Geometry: the functions of Python's [math] module that are used *)

Module Geometry.
Local Open Scope R_scope.

(** [math.hypot(a, b)] *)
Definition hypot (a b : R) : R := sqrt (a * a + b * b).

(** [math.atan2(y, x)], with [atan2(0, 0) = 0]. *)
Definition atan2 (y x : R) : R :=
  if Rlt_dec 0 x then atan (y / x)
  else if Rlt_dec x 0 then
    (if Rle_dec 0 y then atan (y / x) + PI else atan (y / x) - PI)
  else if Rlt_dec 0 y then PI / 2
  else if Rlt_dec y 0 then - PI / 2
  else 0.

(** Python's [a < b] and [a <= b] on floats, as booleans. *)
Definition Rltb (a b : R) : bool := if Rlt_dec a b then true else false.
Definition Rleb (a b : R) : bool := if Rle_dec a b then true else false.

(** The Euclidean distance between two points, used to state properties. *)
Definition dist (x1 y1 x2 y2 : R) : R :=
  sqrt ((x1 - x2) * (x1 - x2) + (y1 - y2) * (y1 - y2)).

End Geometry.
Export Geometry.

(** ** Data model *)

(** The callbacks that the program hands to [after]. *)
Inductive Callback :=
| cb_update
| cb_shoot_continuously
| cb_spawn_enemies_periodically
| cb_bullet_move (self : nat)
| cb_show_close_message.

#[global] Instance Callback_eq_dec : EqDecision Callback.
Proof. solve_decision. Defined.

Record Player := mkPlayer {
  p_x : R;
  p_y : R;
  p_speed : R;
  p_health : Z;
  p_id : nat
}.

Record Enemy := mkEnemy {
  e_x : R;
  e_y : R;
  e_speed : R;
  e_id : nat
}.

Record Bullet := mkBullet {
  b_x : R;
  b_y : R;
  b_speed : R;
  b_angle : R;
  b_dx : R;
  b_dy : R;
  b_id : nat;
  b_alive : bool
}.

(** The canvas: live item handles, the next handle, the widget size
    reported by [winfo_width]/[winfo_height], and the numbers shown by the
    score and lives labels. *)
Record Canvas := mkCanvas {
  items : list nat;
  next_item : nat;
  winfo_width : Z;
  winfo_height : Z;
  score_shown : Z;
  lives_shown : Z
}.

(** The Tk root: the queue of [after] registrations (delay, callback), and
    which of the three event bindings are installed. *)
Record Root := mkRoot {
  timers : list (Z * Callback);
  bind_keypress : bool;
  bind_keyrelease : bool;
  bind_motion : bool
}.

Record Game := mkGame {
  root : Root;
  canvas : Canvas;
  player : Player;
  enemy_obj : nat -> Enemy;
  next_enemy : nat;
  bullet_obj : nat -> Bullet;
  next_bullet : nat;
  enemies : list nat;
  bullets : list nat;
  pressed_keys : gset string;
  mouse_x : option Z;
  mouse_y : option Z;
  is_game_over : bool;
  score : Z;
  score_text : nat;
  lives_text : nat;
  random_stream : nat -> Z;
  random_pos : nat
}.

(** Field updates. *)
Definition upd_root (f : Root -> Root) (g : Game) : Game :=
  mkGame (f (root g)) (canvas g) (player g) (enemy_obj g) (next_enemy g)
    (bullet_obj g) (next_bullet g) (enemies g) (bullets g) (pressed_keys g)
    (mouse_x g) (mouse_y g) (is_game_over g) (score g) (score_text g)
    (lives_text g) (random_stream g) (random_pos g).

Definition upd_canvas (f : Canvas -> Canvas) (g : Game) : Game :=
  mkGame (root g) (f (canvas g)) (player g) (enemy_obj g) (next_enemy g)
    (bullet_obj g) (next_bullet g) (enemies g) (bullets g) (pressed_keys g)
    (mouse_x g) (mouse_y g) (is_game_over g) (score g) (score_text g)
    (lives_text g) (random_stream g) (random_pos g).

Definition upd_player (f : Player -> Player) (g : Game) : Game :=
  mkGame (root g) (canvas g) (f (player g)) (enemy_obj g) (next_enemy g)
    (bullet_obj g) (next_bullet g) (enemies g) (bullets g) (pressed_keys g)
    (mouse_x g) (mouse_y g) (is_game_over g) (score g) (score_text g)
    (lives_text g) (random_stream g) (random_pos g).

Definition upd_enemy (r : nat) (f : Enemy -> Enemy) (g : Game) : Game :=
  mkGame (root g) (canvas g) (player g)
    (fun r' => if decide (r' = r) then f (enemy_obj g r) else enemy_obj g r')
    (next_enemy g)
    (bullet_obj g) (next_bullet g) (enemies g) (bullets g) (pressed_keys g)
    (mouse_x g) (mouse_y g) (is_game_over g) (score g) (score_text g)
    (lives_text g) (random_stream g) (random_pos g).

Definition upd_bullet (r : nat) (f : Bullet -> Bullet) (g : Game) : Game :=
  mkGame (root g) (canvas g) (player g) (enemy_obj g) (next_enemy g)
    (fun r' => if decide (r' = r) then f (bullet_obj g r) else bullet_obj g r')
    (next_bullet g) (enemies g) (bullets g) (pressed_keys g)
    (mouse_x g) (mouse_y g) (is_game_over g) (score g) (score_text g)
    (lives_text g) (random_stream g) (random_pos g).

Definition set_next_enemy (n : nat) (g : Game) : Game :=
  mkGame (root g) (canvas g) (player g) (enemy_obj g) n
    (bullet_obj g) (next_bullet g) (enemies g) (bullets g) (pressed_keys g)
    (mouse_x g) (mouse_y g) (is_game_over g) (score g) (score_text g)
    (lives_text g) (random_stream g) (random_pos g).

Definition set_next_bullet (n : nat) (g : Game) : Game :=
  mkGame (root g) (canvas g) (player g) (enemy_obj g) (next_enemy g)
    (bullet_obj g) n (enemies g) (bullets g) (pressed_keys g)
    (mouse_x g) (mouse_y g) (is_game_over g) (score g) (score_text g)
    (lives_text g) (random_stream g) (random_pos g).

Definition set_enemies (l : list nat) (g : Game) : Game :=
  mkGame (root g) (canvas g) (player g) (enemy_obj g) (next_enemy g)
    (bullet_obj g) (next_bullet g) l (bullets g) (pressed_keys g)
    (mouse_x g) (mouse_y g) (is_game_over g) (score g) (score_text g)
    (lives_text g) (random_stream g) (random_pos g).

Definition set_bullets (l : list nat) (g : Game) : Game :=
  mkGame (root g) (canvas g) (player g) (enemy_obj g) (next_enemy g)
    (bullet_obj g) (next_bullet g) (enemies g) l (pressed_keys g)
    (mouse_x g) (mouse_y g) (is_game_over g) (score g) (score_text g)
    (lives_text g) (random_stream g) (random_pos g).

Definition set_pressed_keys (s : gset string) (g : Game) : Game :=
  mkGame (root g) (canvas g) (player g) (enemy_obj g) (next_enemy g)
    (bullet_obj g) (next_bullet g) (enemies g) (bullets g) s
    (mouse_x g) (mouse_y g) (is_game_over g) (score g) (score_text g)
    (lives_text g) (random_stream g) (random_pos g).

Definition set_mouse (mx my : option Z) (g : Game) : Game :=
  mkGame (root g) (canvas g) (player g) (enemy_obj g) (next_enemy g)
    (bullet_obj g) (next_bullet g) (enemies g) (bullets g) (pressed_keys g)
    mx my (is_game_over g) (score g) (score_text g)
    (lives_text g) (random_stream g) (random_pos g).

Definition set_is_game_over (b : bool) (g : Game) : Game :=
  mkGame (root g) (canvas g) (player g) (enemy_obj g) (next_enemy g)
    (bullet_obj g) (next_bullet g) (enemies g) (bullets g) (pressed_keys g)
    (mouse_x g) (mouse_y g) b (score g) (score_text g)
    (lives_text g) (random_stream g) (random_pos g).

Definition set_score (s : Z) (g : Game) : Game :=
  mkGame (root g) (canvas g) (player g) (enemy_obj g) (next_enemy g)
    (bullet_obj g) (next_bullet g) (enemies g) (bullets g) (pressed_keys g)
    (mouse_x g) (mouse_y g) (is_game_over g) s (score_text g)
    (lives_text g) (random_stream g) (random_pos g).

Definition set_texts (st lt : nat) (g : Game) : Game :=
  mkGame (root g) (canvas g) (player g) (enemy_obj g) (next_enemy g)
    (bullet_obj g) (next_bullet g) (enemies g) (bullets g) (pressed_keys g)
    (mouse_x g) (mouse_y g) (is_game_over g) (score g) st lt
    (random_stream g) (random_pos g).

Definition set_random_pos (n : nat) (g : Game) : Game :=
  mkGame (root g) (canvas g) (player g) (enemy_obj g) (next_enemy g)
    (bullet_obj g) (next_bullet g) (enemies g) (bullets g) (pressed_keys g)
    (mouse_x g) (mouse_y g) (is_game_over g) (score g) (score_text g)
    (lives_text g) (random_stream g) n.

(** ** The monad of methods: state, and exceptions that keep the state *)

Inductive exn := ValueError.

Inductive result (A : Type) :=
| Ok (a : A)
| Raise (e : exn).
Arguments Ok {A} a.
Arguments Raise {A} e.

Definition M (A : Type) : Type := Game -> result A * Game.

Definition ret {A} (a : A) : M A := fun g => (Ok a, g).

Definition bind {A B} (m : M A) (f : A -> M B) : M B :=
  fun g =>
    match m g with
    | (Ok a, g') => f a g'
    | (Raise e, g') => (Raise e, g')
    end.

Definition raise {A} (e : exn) : M A := fun g => (Raise e, g).
Definition get : M Game := fun g => (Ok g, g).
Definition modify (f : Game -> Game) : M unit := fun g => (Ok tt, f g).

Declare Scope game_scope.
Delimit Scope game_scope with game.
Notation "x <- m ;; k" := (bind m (fun x => k))
  (at level 20, m at level 99, k at level 200, only parsing) : game_scope.
Notation "m ;; k" := (bind m (fun _ => k))
  (at level 100, k at level 200, only parsing, right associativity)
  : game_scope.
Local Open Scope game_scope.

(** The state a computation leaves, whatever its outcome. *)
Definition exec {A} (m : M A) (g : Game) : Game := snd (m g).
Definition outcome {A} (m : M A) (g : Game) : result A := fst (m g).

(** ** External collaborators *)

(** [canvas.create_image], [create_oval], [create_text],
    [create_rectangle]: a new item, whose handle is returned. *)
Definition canvas_create : M nat :=
  g <- get ;;
  let id := next_item (canvas g) in
  modify (upd_canvas (fun c =>
    mkCanvas (items c ++ [id]) (S id) (winfo_width c) (winfo_height c)
      (score_shown c) (lives_shown c))) ;;
  ret id.

(** [canvas.coords(id, ...)]: moves the visual; the simulation state does
    not read it back. *)
Definition canvas_coords (id : nat) : M unit := ret tt.

(** [canvas.delete(id)]: Tk ignores a handle that is not on the canvas. *)
Definition canvas_delete (id : nat) : M unit :=
  modify (upd_canvas (fun c =>
    mkCanvas (filter (fun i => i <> id) (items c)) (next_item c)
      (winfo_width c) (winfo_height c) (score_shown c) (lives_shown c))).

(** [root.after(ms, cb)] and [canvas.after(ms, cb)] *)
Definition after (ms : Z) (cb : Callback) : M unit :=
  modify (upd_root (fun r =>
    mkRoot (timers r ++ [(ms, cb)]) (bind_keypress r) (bind_keyrelease r)
      (bind_motion r))).

(** [random.randint(a, b)] *)
Definition randint (a b : Z) : M Z :=
  g <- get ;;
  modify (set_random_pos (S (random_pos g))) ;;
  ret (a + random_stream g (random_pos g) mod (b - a + 1))%Z.

(** [list.remove(x)]: drops the first occurrence, [None] when there is
    none (Python raises [ValueError]). *)
Fixpoint list_remove (x : nat) (l : list nat) : option (list nat) :=
  match l with
  | [] => None
  | y :: l' =>
      if decide (x = y) then Some l'
      else match list_remove x l' with
           | Some r => Some (y :: r)
           | None => None
           end
  end.

(** ** [Game]: display, removal and game over *)

(** [Game.update_score] *)
Definition Game_update_score : M unit :=
  g <- get ;;
  modify (upd_canvas (fun c =>
    mkCanvas (items c) (next_item c) (winfo_width c) (winfo_height c)
      (score g) (lives_shown c))).

(** [Game.update_lives] *)
Definition Game_update_lives : M unit :=
  g <- get ;;
  modify (upd_canvas (fun c =>
    mkCanvas (items c) (next_item c) (winfo_width c) (winfo_height c)
      (score_shown c) (p_health (player g)))).

(** [Game.game_over] *)
Definition Game_game_over : M unit :=
  modify (set_is_game_over true) ;;
  _ <- canvas_create ;;
  _ <- canvas_create ;;
  modify (upd_root (fun r =>
    mkRoot (timers r) false (bind_keyrelease r) (bind_motion r))) ;;
  modify (upd_root (fun r =>
    mkRoot (timers r) (bind_keypress r) false (bind_motion r))) ;;
  modify (upd_root (fun r =>
    mkRoot (timers r) (bind_keypress r) (bind_keyrelease r) false)) ;;
  after 5000 cb_show_close_message.

(** [Game.show_close_message] *)
Definition Game_show_close_message : M unit :=
  _ <- canvas_create ;;
  ret tt.

(** [Game.remove_enemy] *)
Definition Game_remove_enemy (enemy : nat) : M unit :=
  g <- get ;;
  canvas_delete (e_id (enemy_obj g enemy)) ;;
  g <- get ;;
  match list_remove enemy (enemies g) with
  | Some l => modify (set_enemies l)
  | None => raise ValueError
  end ;;
  Game_update_score.

(** [Game.remove_bullet] *)
Definition Game_remove_bullet (bullet : nat) : M unit :=
  g <- get ;;
  if bool_decide (bullet ∈ bullets g) then
    modify (upd_bullet bullet (fun b =>
      mkBullet (b_x b) (b_y b) (b_speed b) (b_angle b) (b_dx b) (b_dy b)
        (b_id b) false)) ;;
    g <- get ;;
    canvas_delete (b_id (bullet_obj g bullet)) ;;
    g <- get ;;
    match list_remove bullet (bullets g) with
    | Some l => modify (set_bullets l)
    | None => raise ValueError
    end
  else ret tt.

(** ** [Player] *)

(** [Player.move] *)
Definition Player_move (dx dy : Z) : M unit :=
  modify (upd_player (fun p =>
    mkPlayer (p_x p + IZR dx * p_speed p) (p_y p) (p_speed p) (p_health p)
      (p_id p))) ;;
  modify (upd_player (fun p =>
    mkPlayer (p_x p) (p_y p + IZR dy * p_speed p) (p_speed p) (p_health p)
      (p_id p))) ;;
  g <- get ;;
  canvas_coords (p_id (player g)).

(** [Player.check_collision].  The test [hypot(...) < 20] compares exact
    reals here; the source compares doubles, whose subtraction and
    [hypot] round, so within rounding of the threshold the source's answer
    is not determined by this definition: see [Double] below. *)
Definition Player_check_collision (enemy : nat) : M bool :=
  g <- get ;;
  if Rltb (hypot (p_x (player g) - e_x (enemy_obj g enemy))
                 (p_y (player g) - e_y (enemy_obj g enemy))) 20
  then
    modify (upd_player (fun p =>
      mkPlayer (p_x p) (p_y p) (p_speed p) (p_health p - 1) (p_id p))) ;;
    Game_update_lives ;;
    g <- get ;;
    (if (p_health (player g) <=? 0)%Z then Game_game_over else ret tt) ;;
    ret true
  else ret false.

(** ** [Enemy] *)

(** [Enemy.__init__]: a new object, whose reference is returned. *)
Definition Enemy_init (x y : R) : M nat :=
  g <- get ;;
  let self := next_enemy g in
  modify (set_next_enemy (S self)) ;;
  id <- canvas_create ;;
  modify (upd_enemy self (fun _ => mkEnemy x y 2 id)) ;;
  ret self.

(** [Enemy.move_towards] *)
Definition Enemy_move_towards (self : nat) (player_x player_y : R) : M unit :=
  g <- get ;;
  let dx := (player_x - e_x (enemy_obj g self))%R in
  let dy := (player_y - e_y (enemy_obj g self))%R in
  let distance := Rmax (hypot dx dy) 1 in
  modify (upd_enemy self (fun e =>
    mkEnemy (e_x e + (dx / distance) * e_speed e) (e_y e) (e_speed e)
      (e_id e))) ;;
  modify (upd_enemy self (fun e =>
    mkEnemy (e_x e) (e_y e + (dy / distance) * e_speed e) (e_speed e)
      (e_id e))) ;;
  g <- get ;;
  canvas_coords (e_id (enemy_obj g self)).

(** [Enemy.is_hit].  As in [Player_check_collision], the comparison is
    over exact reals: the rounding of the source's doubles is not
    modelled here, but in [Double] below. *)
Definition Enemy_is_hit (self : nat) (bullet_x bullet_y : R) : M bool :=
  g <- get ;;
  ret (Rltb (hypot (e_x (enemy_obj g self) - bullet_x)
                   (e_y (enemy_obj g self) - bullet_y)) 20).

(** ** The collision test on doubles *)

(** The two tests [math.hypot(...) < 20] as the source computes them, on
    binary64 values: the coordinate differences are rounded before
    [math.hypot] sees them.  [math.hypot] is a function of the C library
    and not of this program; it is a parameter here, and nothing is
    assumed about it. *)
Module Double.
Import PrimFloat SpecFloat FloatOps.

(** The real number that a finite double denotes. *)
Definition value (f : float) : option R :=
  match Prim2SF f with
  | S754_zero _ => Some 0%R
  | S754_finite s m e =>
      Some ((if s then -1 else 1) * IZR (Z.pos m) * powerRZ 2 e)%R
  | _ => None
  end.

Section Hypot.
Variable hypot : float -> float -> float.

(** The test of [Player.check_collision]:
    [math.hypot(self.x - enemy.x, self.y - enemy.y) < 20] *)
Definition Player_check_collision (self_x self_y enemy_x enemy_y : float)
  : bool :=
  (hypot (self_x - enemy_x) (self_y - enemy_y) <? 20)%float.

(** [Enemy.is_hit]:
    [math.hypot(self.x - bullet_x, self.y - bullet_y) < 20] *)
Definition Enemy_is_hit (self_x self_y bullet_x bullet_y : float) : bool :=
  (hypot (self_x - bullet_x) (self_y - bullet_y) <? 20)%float.

End Hypot.

(** The doubles [20.0], [0.0] and [2**-60]. *)
Definition d20 : float := 20%float.
Definition d0 : float := 0%float.
Definition d2_pow_minus_60 : float := 0x1p-60%float.

End Double.

(** ** [Bullet] *)

(** [Bullet.is_in_bounds] *)
Definition Bullet_is_in_bounds (self : nat) : M bool :=
  g <- get ;;
  let width := winfo_width (canvas g) in
  let height := winfo_height (canvas g) in
  let b := bullet_obj g self in
  ret (Rleb 0 (b_x b) && Rleb (b_x b) (IZR width)
       && Rleb 0 (b_y b) && Rleb (b_y b) (IZR height)).

(** The loop of [Bullet.check_collision] over the snapshot
    [self.game.enemies[:]]; the hit branch ends with [break]. *)
Fixpoint Bullet_check_collision_loop (self : nat) (snapshot : list nat)
  : M unit :=
  match snapshot with
  | [] => ret tt
  | enemy :: rest =>
      g <- get ;;
      hit <- Enemy_is_hit enemy (b_x (bullet_obj g self))
                                (b_y (bullet_obj g self)) ;;
      if hit then
        Game_remove_enemy enemy ;;
        Game_remove_bullet self ;;
        modify (fun g => set_score (score g + 1) g) ;;
        Game_update_score
      else Bullet_check_collision_loop self rest
  end.

(** [Bullet.check_collision] *)
Definition Bullet_check_collision (self : nat) : M unit :=
  g <- get ;;
  Bullet_check_collision_loop self (enemies g).

(** [Bullet.move] *)
Definition Bullet_move (self : nat) : M unit :=
  g <- get ;;
  if negb (b_alive (bullet_obj g self)) || is_game_over g then ret tt
  else
    modify (upd_bullet self (fun b =>
      mkBullet (b_x b + b_dx b) (b_y b) (b_speed b) (b_angle b) (b_dx b)
        (b_dy b) (b_id b) (b_alive b))) ;;
    modify (upd_bullet self (fun b =>
      mkBullet (b_x b) (b_y b + b_dy b) (b_speed b) (b_angle b) (b_dx b)
        (b_dy b) (b_id b) (b_alive b))) ;;
    inb <- Bullet_is_in_bounds self ;;
    if negb inb then Game_remove_bullet self
    else
      g <- get ;;
      canvas_coords (b_id (bullet_obj g self)) ;;
      Bullet_check_collision self ;;
      g <- get ;;
      if b_alive (bullet_obj g self) then after 50 (cb_bullet_move self)
      else ret tt.

(** The field assignments of [Bullet.__init__], up to [self.alive = True]:
    the object as it is just before the constructor calls [self.move()]. *)
Definition Bullet_new (start_x start_y target_x target_y : R) : M nat :=
  g <- get ;;
  let self := next_bullet g in
  modify (set_next_bullet (S self)) ;;
  let speed := 10%R in
  let angle := atan2 (target_y - start_y) (target_x - start_x) in
  id <- canvas_create ;;
  modify (upd_bullet self (fun _ =>
    mkBullet start_x start_y speed angle (speed * cos angle)
      (speed * sin angle) id true)) ;;
  ret self.

(** [Bullet.__init__]: the last statement of the constructor is
    [self.move()], so a new bullet has already taken its first step, and
    has done so before the caller can append it to [bullets]. *)
Definition Bullet_init (start_x start_y target_x target_y : R) : M nat :=
  self <- Bullet_new start_x start_y target_x target_y ;;
  Bullet_move self ;;
  ret self.

(** [Player.shoot]: returns [None] when the game is over. *)
Definition Player_shoot (target_x target_y : R) : M (option nat) :=
  g <- get ;;
  if negb (is_game_over g) then
    b <- Bullet_init (p_x (player g)) (p_y (player g)) target_x target_y ;;
    ret (Some b)
  else ret None.

(** ** [Game]: the periodic tasks *)

(** The body of the loop of [Game.spawn_enemies]. *)
Definition Game_spawn_enemy : M unit :=
  x <- randint 50 750 ;;
  y <- randint 50 550 ;;
  e <- Enemy_init (IZR x) (IZR y) ;;
  modify (fun g => set_enemies (enemies g ++ [e]) g).

(** [Game.spawn_enemies] *)
Fixpoint Game_spawn_enemies (count : nat) : M unit :=
  match count with
  | O => ret tt
  | S n => Game_spawn_enemy ;; Game_spawn_enemies n
  end.

(** [Game.spawn_enemies_periodically] *)
Definition Game_spawn_enemies_periodically : M unit :=
  g <- get ;;
  if negb (is_game_over g) then
    Game_spawn_enemies 3 ;;
    after 5000 cb_spawn_enemies_periodically
  else ret tt.

(** [Game.track_mouse] *)
Definition Game_track_mouse (x y : Z) : M unit :=
  modify (set_mouse (Some x) (Some y)).

(** The loop of [Game.update] over the snapshot [self.enemies[:]]. *)
Fixpoint Game_update_loop (snapshot : list nat) : M unit :=
  match snapshot with
  | [] => ret tt
  | enemy :: rest =>
      g <- get ;;
      Enemy_move_towards enemy (p_x (player g)) (p_y (player g)) ;;
      hit <- Player_check_collision enemy ;;
      (if hit then Game_remove_enemy enemy else ret tt) ;;
      Game_update_loop rest
  end.

(** [Game.update] *)
Definition Game_update : M unit :=
  g <- get ;;
  if is_game_over g then ret tt
  else
    let dx := (Z.b2z (bool_decide ("d" ∈ pressed_keys g))
               - Z.b2z (bool_decide ("a" ∈ pressed_keys g)))%Z in
    let dy := (Z.b2z (bool_decide ("s" ∈ pressed_keys g))
               - Z.b2z (bool_decide ("w" ∈ pressed_keys g)))%Z in
    Player_move dx dy ;;
    g <- get ;;
    Game_update_loop (enemies g) ;;
    after 50 cb_update.

(** [Game.shoot_continuously] *)
Definition Game_shoot_continuously : M unit :=
  g <- get ;;
  match is_game_over g, mouse_x g, mouse_y g with
  | false, Some mx, Some my =>
      bullet <- Player_shoot (IZR mx) (IZR my) ;;
      match bullet with
      | Some b => modify (fun g => set_bullets (bullets g ++ [b]) g)
      | None => ret tt
      end
  | _, _, _ => ret tt
  end ;;
  after 500 cb_shoot_continuously.

(** ** [Game.__init__] and the event loop *)

(** The state before the constructor starts its three tasks: an empty
    canvas of the given size, the player at (100, 100) with health 3, the
    two labels, the three bindings, and no timer. *)
Definition Game_fields (width height : Z) (stream : nat -> Z) : Game :=
  mkGame
    (mkRoot [] true true true)
    (mkCanvas [1; 2; 3]%nat 4%nat width height 0 3)
    (mkPlayer 100 100 5 3 1%nat)
    (fun _ => mkEnemy 0 0 2 0%nat) 0%nat
    (fun _ => mkBullet 0 0 10 0 0 0 0%nat false) 0%nat
    [] [] ∅ None None false 0 2%nat 3%nat stream 0%nat.

(** [Game.__init__]: the fields, then [update()], [shoot_continuously()]
    and [spawn_enemies_periodically()]. *)
Definition Game_init (width height : Z) (stream : nat -> Z) : Game :=
  exec (Game_update ;;
        Game_shoot_continuously ;;
        Game_spawn_enemies_periodically)
       (Game_fields width height stream).

(** What a scheduled callback runs. *)
Definition run_callback (cb : Callback) : M unit :=
  match cb with
  | cb_update => Game_update
  | cb_shoot_continuously => Game_shoot_continuously
  | cb_spawn_enemies_periodically => Game_spawn_enemies_periodically
  | cb_bullet_move self => Bullet_move self
  | cb_show_close_message => Game_show_close_message
  end.

(** What the Tk main loop can deliver: one of the pending timers, or an
    input event. *)
Inductive Event :=
| EvTimer (n : nat)
| EvKeyPress (keysym : string)
| EvKeyRelease (keysym : string)
| EvMotion (x y : Z).

(** Removes the [n]-th registration from the timer queue. *)
Definition take_timer (n : nat) (g : Game) : Game :=
  upd_root (fun r =>
    mkRoot (take n (timers r) ++ drop (S n) (timers r))
      (bind_keypress r) (bind_keyrelease r) (bind_motion r)) g.

(** One turn of the main loop.  The order in which independent timers
    fire is not fixed: any pending one may.  An exception raised by a
    callback is reported by Tk and the loop goes on with the state the
    callback left. *)
Definition step (ev : Event) (g : Game) : Game :=
  match ev with
  | EvTimer n =>
      match timers (root g) !! n with
      | Some (_, cb) => exec (run_callback cb) (take_timer n g)
      | None => g
      end
  | EvKeyPress k =>
      if bind_keypress (root g)
      then set_pressed_keys ({[k]} ∪ pressed_keys g) g else g
  | EvKeyRelease k =>
      if bind_keyrelease (root g)
      then set_pressed_keys (pressed_keys g ∖ {[k]}) g else g
  | EvMotion x y =>
      if bind_motion (root g) then exec (Game_track_mouse x y) g else g
  end.

(** A run of the simulation: the events of the main loop, in order. *)
Fixpoint run (evs : list Event) (g : Game) : Game :=
  match evs with
  | [] => g
  | ev :: rest => run rest (step ev g)
  end.

(** How many registrations of [cb] are pending. *)
Definition count_timers (cb : Callback) (g : Game) : nat :=
  length (filter (fun t => t.2 = cb) (timers (root g))).

(** ** Derived definitions used to state the properties *)

(** [preserves R m]: whatever its outcome, [m] takes a state to an
    [R]-related one. *)
Definition preserves (R : Game -> Game -> Prop) {A} (m : M A) : Prop :=
  forall g, R g (exec m g).

(** The updates that every relation used below tolerates: those that do
    not touch the player's health, the game-over flag, the position or
    velocity of a bullet, or the bullet allocator. *)
Record Frame (R : Game -> Game -> Prop) : Prop := mkFrame {
  fr_refl : forall g, R g g;
  fr_trans : forall g1 g2 g3, R g1 g2 -> R g2 g3 -> R g1 g3;
  fr_root : forall f g, R g (upd_root f g);
  fr_canvas : forall f g, R g (upd_canvas f g);
  fr_player : forall f g,
    (forall p, p_health (f p) = p_health p) -> R g (upd_player f g);
  fr_enemy : forall r f g, R g (upd_enemy r f g);
  fr_next_enemy : forall n g, R g (set_next_enemy n g);
  fr_enemies : forall l g, R g (set_enemies l g);
  fr_bullets : forall l g, R g (set_bullets l g);
  fr_kill : forall r g,
    R g (upd_bullet r (fun b =>
      mkBullet (b_x b) (b_y b) (b_speed b) (b_angle b) (b_dx b) (b_dy b)
        (b_id b) false) g);
  fr_score : forall s g, R g (set_score s g);
  fr_random : forall n g, R g (set_random_pos n g);
  fr_keys : forall s g, R g (set_pressed_keys s g);
  fr_mouse : forall mx my g, R g (set_mouse mx my g)
}.

(** Health does not go up, and the flag does not go down. *)
Definition Mono (g g' : Game) : Prop :=
  (p_health (player g') <= p_health (player g))%Z
  /\ (is_game_over g = true -> is_game_over g' = true).

(** The flag is set exactly when health is at most 0. *)
Definition HealthInv (g : Game) : Prop :=
  (is_game_over g = true <-> (p_health (player g) <= 0)%Z)
  /\ (p_health (player g) <= 3)%Z.

Definition KeepsHealthInv (g g' : Game) : Prop := HealthInv g -> HealthInv g'.

(** Exchanges the positions of the player and of an enemy. *)
Definition swap_player_enemy (enemy : nat) (g : Game) : Game :=
  upd_player (fun p =>
      mkPlayer (e_x (enemy_obj g enemy)) (e_y (enemy_obj g enemy))
        (p_speed p) (p_health p) (p_id p))
    (upd_enemy enemy (fun e =>
      mkEnemy (p_x (player g)) (p_y (player g)) (e_speed e) (e_id e)) g).

(** The simulated world: everything but the canvas, the timer queue, the
    bindings and the input state. *)
Definition same_world (g g' : Game) : Prop :=
  player g' = player g
  /\ enemy_obj g' = enemy_obj g /\ next_enemy g' = next_enemy g
  /\ bullet_obj g' = bullet_obj g /\ next_bullet g' = next_bullet g
  /\ enemies g' = enemies g /\ bullets g' = bullets g
  /\ score g' = score g /\ is_game_over g' = is_game_over g.

(** A state in which the game is over: the constructor's fields after
    [game_over()]. *)
Definition game_over_state : Game :=
  exec Game_game_over (Game_fields 800 600 (fun _ => 50%Z)).

(** The two assignments [self.x += self.dx; self.y += self.dy]. *)
Definition Bullet_step (self : nat) (g : Game) : Game :=
  upd_bullet self (fun b =>
      mkBullet (b_x b) (b_y b + b_dy b) (b_speed b) (b_angle b) (b_dx b)
        (b_dy b) (b_id b) (b_alive b))
    (upd_bullet self (fun b =>
      mkBullet (b_x b + b_dx b) (b_y b) (b_speed b) (b_angle b) (b_dx b)
        (b_dy b) (b_id b) (b_alive b)) g).

(** What [Bullet.move] does after the two assignments. *)
Definition Bullet_after_step (self : nat) : M unit :=
  inb <- Bullet_is_in_bounds self ;;
  if negb inb then Game_remove_bullet self
  else
    g <- get ;;
    canvas_coords (b_id (bullet_obj g self)) ;;
    Bullet_check_collision self ;;
    g <- get ;;
    if b_alive (bullet_obj g self) then after 50 (cb_bullet_move self)
    else ret tt.

(** The hit branch of [Bullet.check_collision]. *)
Definition Bullet_hit (self enemy : nat) : M unit :=
  Game_remove_enemy enemy ;;
  Game_remove_bullet self ;;
  modify (fun g => set_score (score g + 1) g) ;;
  Game_update_score.

(** Whether the bullet is within the collision radius of an enemy. *)
Definition in_radius (g : Game) (self enemy : nat) : bool :=
  Rltb (hypot (e_x (enemy_obj g enemy) - b_x (bullet_obj g self))
              (e_y (enemy_obj g enemy) - b_y (bullet_obj g self))) 20.

(** [n] movement ticks of one bullet. *)
Fixpoint Bullet_ticks (n : nat) (self : nat) : M unit :=
  match n with
  | O => ret tt
  | S n' => Bullet_move self ;; Bullet_ticks n' self
  end.

(** Whether the player is within the collision radius of an enemy. *)
Definition collides (g : Game) (enemy : nat) : bool :=
  Rltb (hypot (p_x (player g) - e_x (enemy_obj g enemy))
              (p_y (player g) - e_y (enemy_obj g enemy))) 20.

(** The hit branch of [Player.check_collision]. *)
Definition Player_hit : M unit :=
  modify (upd_player (fun p =>
    mkPlayer (p_x p) (p_y p) (p_speed p) (p_health p - 1) (p_id p))) ;;
  Game_update_lives ;;
  g <- get ;;
  if (p_health (player g) <=? 0)%Z then Game_game_over else ret tt.

(** The state in which [Game.update] runs its loop: the player moved by
    the pressed keys. *)
Definition Game_update_moved (g : Game) : Game :=
  exec (Player_move
          (Z.b2z (bool_decide ("d" ∈ pressed_keys g))
           - Z.b2z (bool_decide ("a" ∈ pressed_keys g)))
          (Z.b2z (bool_decide ("s" ∈ pressed_keys g))
           - Z.b2z (bool_decide ("w" ∈ pressed_keys g)))) g.

(** An enemy after its step towards the player. *)
Definition Enemy_stepped (enemy : nat) (g : Game) : Game :=
  exec (Enemy_move_towards enemy (p_x (player g)) (p_y (player g))) g.

(** The hit branch of the loop of [Game.update], after the enemy's step. *)
Definition Game_update_hit (enemy : nat) : M unit :=
  Player_hit ;; Game_remove_enemy enemy.

(** Draws that put the first two enemies at (100, 100), where the player
    starts, the third at (100, 550), and every later one at (100, 100). *)
Definition stream2 (n : nat) : Z := nth n [50; 50; 50; 50; 50; 500]%Z 50%Z.

(** Draws that put the three enemies of the first batch at (125, 100),
    (127, 100) and (700, 500). *)
Definition stream7 (n : nat) : Z := nth n [75; 50; 77; 50; 650; 450]%Z 50%Z.

(** No bullet's position or velocity changes. *)
Definition SamePositions (g g' : Game) : Prop :=
  forall r,
    b_x (bullet_obj g' r) = b_x (bullet_obj g r)
    /\ b_y (bullet_obj g' r) = b_y (bullet_obj g r)
    /\ b_dx (bullet_obj g' r) = b_dx (bullet_obj g r)
    /\ b_dy (bullet_obj g' r) = b_dy (bullet_obj g r).

(** The bullet is at ([x], 100) in a state that differs from [g] by this
    bullet and the timer queue only. *)
Definition flying (g : Game) (self : nat) (x : R) (gk : Game) : Prop :=
  b_alive (bullet_obj gk self) = true /\ is_game_over gk = false
  /\ winfo_width (canvas gk) = winfo_width (canvas g)
  /\ winfo_height (canvas gk) = winfo_height (canvas g)
  /\ enemies gk = enemies g /\ enemy_obj gk = enemy_obj g
  /\ b_x (bullet_obj gk self) = x /\ b_y (bullet_obj gk self) = 100%R
  /\ b_dx (bullet_obj gk self) = 10%R /\ b_dy (bullet_obj gk self) = 0%R.

(** An existing bullet whose [alive] flag is clear keeps that flag and
    its position. *)
Definition StaysDead (b : nat) (g g' : Game) : Prop :=
  (b < next_bullet g)%nat /\ b_alive (bullet_obj g b) = false ->
  (b < next_bullet g')%nat /\ b_alive (bullet_obj g' b) = false
  /\ b_x (bullet_obj g' b) = b_x (bullet_obj g b)
  /\ b_y (bullet_obj g' b) = b_y (bullet_obj g b).

(** ** Derived definitions used to state the properties of ticks and runs *)

(** What is derived follows what it is derived from: the two labels show
    the score and the player's health, and the three bindings are
    installed exactly while the game is not over. *)
Definition Sync (g : Game) : Prop :=
  score_shown (canvas g) = score g
  /\ lives_shown (canvas g) = p_health (player g)
  /\ bind_keypress (root g) = negb (is_game_over g)
  /\ bind_keyrelease (root g) = negb (is_game_over g)
  /\ bind_motion (root g) = negb (is_game_over g).

(** How many registrations of [cb] a list of timers holds. *)
Definition count_in (cb : Callback) (l : list (Z * Callback)) : nat :=
  length (filter (fun t => t.2 = cb) l).

(** What the loop of [Game.update] leaves alone, and what it may do: each
    enemy that leaves the collection costs one life, and only
    close-message timers are registered. *)
Definition update_frame (g g' : Game) : Prop :=
  p_x (player g') = p_x (player g) /\ p_y (player g') = p_y (player g)
  /\ p_speed (player g') = p_speed (player g)
  /\ next_enemy g' = next_enemy g /\ score g' = score g
  /\ bullets g' = bullets g /\ bullet_obj g' = bullet_obj g
  /\ next_bullet g' = next_bullet g
  /\ (p_health (player g) - p_health (player g')
      = Z.of_nat (length (enemies g)) - Z.of_nat (length (enemies g')))%Z
  /\ (Sync g -> Sync g')
  /\ exists k, timers (root g')
       = timers (root g) ++ replicate k (5000%Z, cb_show_close_message).

(** A bullet's tick does nothing to the enemies and the score, or it
    removes one enemy of the collection and the score goes up by 1. *)
Definition hit_or_miss (g g' : Game) : Prop :=
  (enemies g' = enemies g /\ score g' = score g)
  \/ (exists e, e ∈ enemies g
        /\ list_remove e (enemies g) = Some (enemies g')
        /\ score g' = (score g + 1)%Z).

(** What neither a bullet's tick nor a shot changes. *)
Definition bullet_frame (g g' : Game) : Prop :=
  player g' = player g /\ is_game_over g' = is_game_over g
  /\ next_enemy g' = next_enemy g /\ enemy_obj g' = enemy_obj g
  /\ (Sync g -> Sync g').

(** What one tick of the bullet [self] does to the bullets and the
    timers: the bullet stays as registered and as alive as it was, with
    or without a next tick, or it is taken out of the collection, dead,
    and without a next tick. *)
Definition bullet_tick (self : nat) (g g' : Game) : Prop :=
  next_bullet g' = next_bullet g
  /\ (forall b, b <> self -> bullet_obj g' b = bullet_obj g b)
  /\ ((bullets g' = bullets g
       /\ b_alive (bullet_obj g' self) = b_alive (bullet_obj g self)
       /\ exists sched : bool,
            timers (root g')
            = timers (root g)
              ++ (if sched then [(50%Z, cb_bullet_move self)] else []))
      \/ (self ∈ bullets g
          /\ list_remove self (bullets g) = Some (bullets g')
          /\ b_alive (bullet_obj g' self) = false
          /\ timers (root g') = timers (root g))).

(** What spawning leaves alone. *)
Definition spawn_frame (g g' : Game) : Prop :=
  player g' = player g /\ is_game_over g' = is_game_over g
  /\ score g' = score g /\ bullets g' = bullets g
  /\ bullet_obj g' = bullet_obj g /\ next_bullet g' = next_bullet g
  /\ root g' = root g
  /\ random_stream g' = random_stream g
  /\ (Sync g -> Sync g').

(** An enemy as the spawner creates it: integer coordinates in the
    spawn box, speed 2. *)
Definition spawned (e : Enemy) : Prop :=
  exists zx zy : Z,
    (50 <= zx <= 750)%Z /\ (50 <= zy <= 550)%Z
    /\ e_x e = IZR zx /\ e_y e = IZR zy /\ e_speed e = 2%R.

(** The enemy collection holds no reference twice, and only references
    of enemies that exist. *)
Definition EnemiesInv (g : Game) : Prop :=
  NoDup (enemies g) /\ forall e, e ∈ enemies g -> (e < next_enemy g)%nat.

(** The bullet collection holds no reference twice, and only references
    of bullets that exist and are alive. *)
Definition BulletsInv (g : Game) : Prop :=
  NoDup (bullets g)
  /\ forall b, b ∈ bullets g ->
       (b < next_bullet g)%nat /\ b_alive (bullet_obj g b) = true.

(** The periodic tasks neither multiply nor, while the game runs, die:
    at most one registration of the update task and of the spawning task,
    exactly one while the game is not over; exactly one of the shooting
    task; at most one tick per bullet, none for a bullet not yet
    created. *)
Definition TimersInv (g : Game) : Prop :=
  (count_timers cb_update g <= 1)%nat
  /\ count_timers cb_shoot_continuously g = 1%nat
  /\ (count_timers cb_spawn_enemies_periodically g <= 1)%nat
  /\ (is_game_over g = false ->
      count_timers cb_update g = 1%nat
      /\ count_timers cb_spawn_enemies_periodically g = 1%nat)
  /\ (forall b, (count_timers (cb_bullet_move b) g <= 1)%nat)
  /\ (forall b, (next_bullet g <= b)%nat ->
        count_timers (cb_bullet_move b) g = 0%nat).

(** All of the above. *)
Definition RunInv (g : Game) : Prop :=
  EnemiesInv g /\ BulletsInv g /\ TimersInv g /\ Sync g
  /\ (0 <= score g)%Z.

(** No bullet's angle or speed changes. *)
Definition SameAim (g g' : Game) : Prop :=
  forall r,
    b_angle (bullet_obj g' r) = b_angle (bullet_obj g r)
    /\ b_speed (bullet_obj g' r) = b_speed (bullet_obj g r).

(** What one turn of the main loop does to the player's health.  A tick
    of the update task lowers it by exactly 1 for each enemy that the
    tick takes out of the collection, and in a running game it leaves no
    enemy within the collision radius of the player; every other event
    leaves the player as it is. *)
Definition health_step (ev : Event) (g g' : Game) : Prop :=
  match ev with
  | EvTimer n =>
      match timers (root g) !! n with
      | Some (_, cb_update) =>
          p_health (player g')
          = (p_health (player g)
             - (Z.of_nat (length (enemies g))
                - Z.of_nat (length (enemies g'))))%Z
          /\ enemies g' `sublist_of` enemies g
          /\ (is_game_over g = false ->
              forall e, e ∈ enemies g' ->
                (20 <= dist (p_x (player g')) (p_y (player g'))
                         (e_x (enemy_obj g' e)) (e_y (enemy_obj g' e)))%R)
      | _ => player g' = player g
      end
  | _ => player g' = player g
  end.

(** The score stays, or goes up by 1 as one enemy leaves the collection. *)
Definition score_step (g g' : Game) : Prop :=
  score g' = score g
  \/ (score g' = (score g + 1)%Z
      /\ S (length (enemies g')) = length (enemies g)).

(** * Properties *)

(** ** Tactics for the monad *)

Ltac unfold_monad :=
  unfold exec, outcome in *;
  unfold after, canvas_coords, canvas_delete, canvas_create in *;
  unfold bind, get, modify, ret, raise in *;
  cbn beta iota in *.

Ltac decide_eq :=
  repeat match goal with
  | |- context [decide (?a = ?a)] => rewrite (decide_True (P := a = a)) by reflexivity
  | H : ?a <> ?b |- context [decide (?a = ?b)] =>
      rewrite (decide_False (P := a = b)) by exact H
  end.

(** ** Geometry *)

Section GeometryFacts.
Local Open Scope R_scope.

Lemma Rltb_true (a b : R) : Rltb a b = true <-> a < b.
Proof. unfold Rltb. destruct (Rlt_dec a b); split; intros; try done. Qed.

Lemma Rltb_false (a b : R) : Rltb a b = false <-> b <= a.
Proof.
  unfold Rltb. destruct (Rlt_dec a b); split; intros; try done; lra.
Qed.

Lemma Rleb_true (a b : R) : Rleb a b = true <-> a <= b.
Proof. unfold Rleb. destruct (Rle_dec a b); split; intros; try done. Qed.

Lemma Rleb_false (a b : R) : Rleb a b = false <-> b < a.
Proof.
  unfold Rleb. destruct (Rle_dec a b); split; intros; try done; lra.
Qed.

Lemma hypot_dist (x1 y1 x2 y2 : R) :
  hypot (x1 - x2) (y1 - y2) = dist x1 y1 x2 y2.
Proof. reflexivity. Qed.

Lemma dist_sym (x1 y1 x2 y2 : R) : dist x1 y1 x2 y2 = dist x2 y2 x1 y1.
Proof. unfold dist. f_equal. ring. Qed.

Lemma dist_nonneg (x1 y1 x2 y2 : R) : 0 <= dist x1 y1 x2 y2.
Proof. apply sqrt_pos. Qed.

Lemma dist_on_axis (a b : R) : b <= a -> dist a 0 b 0 = a - b.
Proof.
  intros H. unfold dist.
  replace ((a - b) * (a - b) + (0 - 0) * (0 - 0)) with (Rsqr (a - b))
    by (unfold Rsqr; ring).
  apply sqrt_Rsqr. lra.
Qed.

Lemma hypot_0_0 : hypot 0 0 = 0.
Proof.
  unfold hypot. replace (0 * 0 + 0 * 0) with 0 by ring. apply sqrt_0.
Qed.

Lemma hypot_x_0 (a : R) : 0 <= a -> hypot a 0 = a.
Proof.
  intros Ha. unfold hypot. replace (a * a + 0 * 0) with (a * a) by ring.
  by apply sqrt_square.
Qed.

Lemma hypot_0_y (a : R) : 0 <= a -> hypot 0 a = a.
Proof.
  intros Ha. unfold hypot. replace (0 * 0 + a * a) with (a * a) by ring.
  by apply sqrt_square.
Qed.

Lemma hypot_neg_0 (a : R) : 0 <= a -> hypot (- a) 0 = a.
Proof.
  intros Ha. unfold hypot. replace (- a * - a + 0 * 0) with (a * a) by ring.
  by apply sqrt_square.
Qed.

Lemma hypot_0_neg (a : R) : 0 <= a -> hypot 0 (- a) = a.
Proof.
  intros Ha. unfold hypot. replace (0 * 0 + - a * - a) with (a * a) by ring.
  by apply sqrt_square.
Qed.

Lemma sqrt_scale (k s : R) : 0 <= s -> sqrt (k * k * s) = Rabs k * sqrt s.
Proof.
  intros Hs. pose proof (Rle_0_sqr k) as Hk. unfold Rsqr in Hk.
  rewrite sqrt_mult; [| done | done].
  f_equal. apply (sqrt_Rsqr_abs k).
Qed.

Lemma atan2_0_pos (x : R) : 0 < x -> atan2 0 x = 0.
Proof.
  intros Hx. unfold atan2. destruct (Rlt_dec 0 x); [| lra].
  replace (0 / x) with 0 by (field; lra). apply atan_0.
Qed.

Lemma atan2_0_0 : atan2 0 0 = 0.
Proof.
  unfold atan2.
  destruct (Rlt_dec 0 0); [lra |]. reflexivity.
Qed.

(** One step of [move_towards] in coordinates: the offset to the target
    is scaled by [1 - speed / max(d, 1)]. *)
Lemma move_towards_dist (ex ey tx ty s : R) :
  let d := hypot (tx - ex) (ty - ey) in
  let D := Rmax d 1 in
  dist (ex + (tx - ex) / D * s) (ey + (ty - ey) / D * s) tx ty
  = Rabs (1 - s / D) * dist ex ey tx ty.
Proof.
  intros d D.
  assert (HD : 1 <= D) by apply Rmax_r.
  unfold dist.
  rewrite <- sqrt_scale.
  - f_equal. field. lra.
  - pose proof (Rle_0_sqr (ex - tx)). pose proof (Rle_0_sqr (ey - ty)).
    unfold Rsqr in *. lra.
Qed.

End GeometryFacts.

(** ** Relations between the state before and after a computation *)

Section Preserves.
Context (R : Game -> Game -> Prop) (F : Frame R).

Lemma preserves_ret {A} (a : A) : preserves R (ret a).
Proof. intros g. apply (fr_refl R F). Qed.

Lemma preserves_get : preserves R get.
Proof. intros g. apply (fr_refl R F). Qed.

Lemma preserves_raise {A} (e : exn) : preserves R (raise (A := A) e).
Proof. intros g. apply (fr_refl R F). Qed.

Lemma preserves_modify (f : Game -> Game) :
  (forall g, R g (f g)) -> preserves R (modify f).
Proof. intros H g. apply H. Qed.

Lemma preserves_bind {A B} (m : M A) (k : A -> M B) :
  preserves R m -> (forall a, preserves R (k a)) -> preserves R (bind m k).
Proof.
  intros Hm Hk g. specialize (Hm g). unfold exec, bind in *.
  destruct (m g) as [[a | e] g'] eqn:E; simpl in *.
  - eapply (fr_trans R F); [exact Hm | apply Hk].
  - exact Hm.
Qed.

End Preserves.

(** Splits a goal [preserves R m] along the structure of [m]; [leaf]
    closes the obligations on single updates. *)
Ltac pres_with F leaf :=
  repeat match goal with
  | H : preserves _ ?m |- preserves _ ?m => exact H
  | H : forall a, preserves _ (?m a) |- preserves _ (?m _) => apply H
  | H : forall a b, preserves _ (?m a b) |- preserves _ (?m _ _) => apply H
  | H : forall a b c, preserves _ (?m a b c) |- preserves _ (?m _ _ _) =>
      apply H
  | H : forall a b c d, preserves _ (?m a b c d)
    |- preserves _ (?m _ _ _ _) => apply H
  | |- preserves _ (ret _) => apply (preserves_ret _ F)
  | |- preserves _ get => apply (preserves_get _ F)
  | |- preserves _ (raise _) => apply (preserves_raise _ F)
  | |- preserves _ (bind _ _) => apply (preserves_bind _ F); [| intros ?]
  | |- preserves _ (modify _) => apply (preserves_modify _); intros ?; leaf
  | |- preserves _ (if ?b then _ else _) => destruct b
  | |- preserves _ (match ?x with _ => _ end) => destruct x
  end.

Ltac frame_leaf F :=
  first
    [ apply (fr_root _ F) | apply (fr_canvas _ F) | apply (fr_enemy _ F)
    | apply (fr_next_enemy _ F) | apply (fr_enemies _ F)
    | apply (fr_bullets _ F) | apply (fr_kill _ F) | apply (fr_score _ F)
    | apply (fr_random _ F) | apply (fr_keys _ F) | apply (fr_mouse _ F)
    | apply (fr_player _ F); intros ?; reflexivity ].

Section FrameMethods.
Context (R : Game -> Game -> Prop) (F : Frame R).

Local Ltac pres := pres_with F ltac:(frame_leaf F).

Lemma canvas_create_pres : preserves R canvas_create.
Proof. unfold canvas_create. pres. Qed.

Lemma canvas_delete_pres id : preserves R (canvas_delete id).
Proof. unfold canvas_delete. pres. Qed.

Lemma after_pres ms cb : preserves R (after ms cb).
Proof. unfold after. pres. Qed.

Lemma randint_pres a b : preserves R (randint a b).
Proof. unfold randint. pres. Qed.

Lemma Game_update_score_pres : preserves R Game_update_score.
Proof. unfold Game_update_score. pres. Qed.

Lemma Game_update_lives_pres : preserves R Game_update_lives.
Proof. unfold Game_update_lives. pres. Qed.

Lemma Game_show_close_message_pres : preserves R Game_show_close_message.
Proof. unfold Game_show_close_message. pose proof canvas_create_pres. pres. Qed.

Lemma Game_remove_enemy_pres enemy : preserves R (Game_remove_enemy enemy).
Proof.
  unfold Game_remove_enemy. pose proof canvas_delete_pres.
  pose proof Game_update_score_pres. pres.
Qed.

Lemma Game_remove_bullet_pres bullet : preserves R (Game_remove_bullet bullet).
Proof. unfold Game_remove_bullet. pose proof canvas_delete_pres. pres. Qed.

Lemma Player_move_pres dx dy : preserves R (Player_move dx dy).
Proof. unfold Player_move, canvas_coords. pres. Qed.

Lemma Enemy_init_pres x y : preserves R (Enemy_init x y).
Proof. unfold Enemy_init. pose proof canvas_create_pres. pres. Qed.

Lemma Enemy_move_towards_pres self px py :
  preserves R (Enemy_move_towards self px py).
Proof. unfold Enemy_move_towards, canvas_coords. pres. Qed.

Lemma Enemy_is_hit_pres self bx by_ : preserves R (Enemy_is_hit self bx by_).
Proof. unfold Enemy_is_hit. pres. Qed.

Lemma Bullet_is_in_bounds_pres self : preserves R (Bullet_is_in_bounds self).
Proof. unfold Bullet_is_in_bounds. pres. Qed.

Lemma Bullet_check_collision_loop_pres self snapshot :
  preserves R (Bullet_check_collision_loop self snapshot).
Proof.
  pose proof Enemy_is_hit_pres. pose proof Game_remove_enemy_pres.
  pose proof Game_remove_bullet_pres. pose proof Game_update_score_pres.
  induction snapshot as [| enemy rest IH]; simpl; pres.
Qed.

Lemma Bullet_check_collision_pres self :
  preserves R (Bullet_check_collision self).
Proof.
  unfold Bullet_check_collision.
  pose proof Bullet_check_collision_loop_pres. pres.
Qed.

Lemma Game_spawn_enemy_pres : preserves R Game_spawn_enemy.
Proof.
  unfold Game_spawn_enemy. pose proof randint_pres. pose proof Enemy_init_pres.
  pres.
Qed.

Lemma Game_spawn_enemies_pres count : preserves R (Game_spawn_enemies count).
Proof.
  pose proof Game_spawn_enemy_pres.
  induction count as [| n IH]; simpl; pres.
Qed.

Lemma Game_spawn_enemies_periodically_pres :
  preserves R Game_spawn_enemies_periodically.
Proof.
  unfold Game_spawn_enemies_periodically.
  pose proof Game_spawn_enemies_pres. pose proof after_pres. pres.
Qed.

Lemma Game_track_mouse_pres x y : preserves R (Game_track_mouse x y).
Proof. unfold Game_track_mouse. pres. Qed.

(** The tasks that reach the player's health or a bullet's position are
    framed relative to the two methods that write them. *)
Section Tasks.
Hypothesis Player_check_collision_pres :
  forall enemy, preserves R (Player_check_collision enemy).
Hypothesis Bullet_move_pres : forall self, preserves R (Bullet_move self).
Hypothesis Bullet_new_pres :
  forall sx sy tx ty, preserves R (Bullet_new sx sy tx ty).

Lemma Game_update_loop_pres snapshot : preserves R (Game_update_loop snapshot).
Proof.
  pose proof Enemy_move_towards_pres. pose proof Game_remove_enemy_pres.
  induction snapshot as [| enemy rest IH]; simpl; pres.
Qed.

Lemma Game_update_pres : preserves R Game_update.
Proof.
  unfold Game_update. pose proof Player_move_pres.
  pose proof Game_update_loop_pres. pose proof after_pres. pres.
Qed.

Lemma Bullet_init_pres sx sy tx ty : preserves R (Bullet_init sx sy tx ty).
Proof. unfold Bullet_init. pres. Qed.

Lemma Player_shoot_pres tx ty : preserves R (Player_shoot tx ty).
Proof. unfold Player_shoot. pose proof Bullet_init_pres. pres. Qed.

Lemma Game_shoot_continuously_pres : preserves R Game_shoot_continuously.
Proof.
  unfold Game_shoot_continuously. pose proof Player_shoot_pres.
  pose proof after_pres. pres.
Qed.

Lemma run_callback_pres cb : preserves R (run_callback cb).
Proof.
  destruct cb; simpl;
    [ apply Game_update_pres | apply Game_shoot_continuously_pres
    | apply Game_spawn_enemies_periodically_pres | apply Bullet_move_pres
    | apply Game_show_close_message_pres ].
Qed.

Lemma step_pres ev g : R g (step ev g).
Proof.
  destruct ev as [n | k | k | x y]; simpl.
  - destruct (timers (root g) !! n) as [[ms cb] |]; [| apply (fr_refl R F)].
    eapply (fr_trans R F); [| apply run_callback_pres].
    apply (fr_root R F).
  - destruct (bind_keypress (root g));
      [apply (fr_keys R F) | apply (fr_refl R F)].
  - destruct (bind_keyrelease (root g));
      [apply (fr_keys R F) | apply (fr_refl R F)].
  - destruct (bind_motion (root g));
      [apply Game_track_mouse_pres | apply (fr_refl R F)].
Qed.

Lemma run_pres evs g : R g (run evs g).
Proof.
  revert g. induction evs as [| ev rest IH]; intros g; simpl.
  - apply (fr_refl R F).
  - eapply (fr_trans R F); [apply step_pres | apply IH].
Qed.

End Tasks.
End FrameMethods.

(** Relations that do not look at the player or the flag tolerate
    [Player.check_collision] and [Game.game_over]. *)
Section PlayerFrame.
Context (R : Game -> Game -> Prop) (F : Frame R).
Hypothesis R_player : forall f g, R g (upd_player f g).
Hypothesis R_over : forall b g, R g (set_is_game_over b g).

Local Ltac pres :=
  pres_with F ltac:(first [frame_leaf F | apply R_player | apply R_over]).

Lemma Game_game_over_frame : preserves R Game_game_over.
Proof.
  unfold Game_game_over. pose proof (canvas_create_pres R F).
  pose proof (after_pres R F). pres.
Qed.

Lemma Player_check_collision_frame enemy :
  preserves R (Player_check_collision enemy).
Proof.
  unfold Player_check_collision. pose proof (Game_update_lives_pres R F).
  pose proof Game_game_over_frame. pres.
Qed.

End PlayerFrame.

(** Relations that do not look at the bullets tolerate [Bullet.move] and
    the constructor. *)
Section BulletFrame.
Context (R : Game -> Game -> Prop) (F : Frame R).
Hypothesis R_bullet : forall r f g, R g (upd_bullet r f g).
Hypothesis R_next_bullet : forall n g, R g (set_next_bullet n g).

Local Ltac pres :=
  pres_with F
    ltac:(first [frame_leaf F | apply R_bullet | apply R_next_bullet]).

Lemma Bullet_move_frame self : preserves R (Bullet_move self).
Proof.
  unfold Bullet_move, canvas_coords.
  pose proof (Bullet_is_in_bounds_pres R F).
  pose proof (Game_remove_bullet_pres R F).
  pose proof (Bullet_check_collision_pres R F).
  pose proof (after_pres R F). pres.
Qed.

Lemma Bullet_new_frame sx sy tx ty : preserves R (Bullet_new sx sy tx ty).
Proof. unfold Bullet_new. pose proof (canvas_create_pres R F). pres. Qed.

End BulletFrame.

(** ** Health and the game-over flag (C2) *)

Lemma Mono_Frame : Frame Mono.
Proof.
  split; unfold Mono; try (intros; simpl; split; [lia | tauto]).
  intros f g Hf. simpl. rewrite Hf. split; [lia | tauto].
Qed.

Lemma KeepsHealthInv_Frame : Frame KeepsHealthInv.
Proof.
  split; unfold KeepsHealthInv, HealthInv; try (intros; simpl; tauto).
  intros f g Hf. simpl. rewrite Hf. tauto.
Qed.

Lemma Player_check_collision_Mono enemy :
  preserves Mono (Player_check_collision enemy).
Proof.
  intros g. unfold Mono, Player_check_collision, Game_update_lives,
    Game_game_over.
  unfold_monad.
  destruct (Rltb _ 20); simpl; [| split; [lia | tauto]].
  destruct (p_health (player g) - 1 <=? 0)%Z; simpl; split; (lia || tauto).
Qed.

Lemma Player_check_collision_KeepsHealthInv enemy :
  preserves KeepsHealthInv (Player_check_collision enemy).
Proof.
  intros g. unfold Player_check_collision, Game_update_lives, Game_game_over,
    KeepsHealthInv, HealthInv.
  unfold_monad.
  destruct (Rltb _ 20); simpl; [| tauto].
  destruct (p_health (player g) - 1 <=? 0)%Z eqn:E; simpl.
  - apply Z.leb_le in E. intros [H1 H2]. split; [tauto | lia].
  - apply Z.leb_gt in E. intros [[H1 H3] H2].
    split; [split; [intros H | intros H; lia] | lia].
    destruct (is_game_over g); [| done]. lia.
Qed.

Lemma run_Mono evs g : Mono g (run evs g).
Proof.
  apply (run_pres Mono Mono_Frame).
  - apply Player_check_collision_Mono.
  - apply (Bullet_move_frame Mono Mono_Frame); intros; split; simpl;
      (lia || tauto).
  - apply (Bullet_new_frame Mono Mono_Frame); intros; split; simpl;
      (lia || tauto).
Qed.

Lemma run_HealthInv evs g : HealthInv g -> HealthInv (run evs g).
Proof.
  apply (run_pres KeepsHealthInv KeepsHealthInv_Frame).
  - apply Player_check_collision_KeepsHealthInv.
  - apply (Bullet_move_frame KeepsHealthInv KeepsHealthInv_Frame);
      intros; unfold KeepsHealthInv, HealthInv; simpl; tauto.
  - apply (Bullet_new_frame KeepsHealthInv KeepsHealthInv_Frame);
      intros; unfold KeepsHealthInv, HealthInv; simpl; tauto.
Qed.

(** ** Enemy tracking (C3) and the collision check (C5) *)

Section Tracking.
Local Open Scope R_scope.

Lemma Enemy_move_towards_obj (g : Game) (self : nat) (tx ty : R) :
  let e := enemy_obj g self in
  let D := Rmax (hypot (tx - e_x e) (ty - e_y e)) 1 in
  enemy_obj (exec (Enemy_move_towards self tx ty) g) self
  = mkEnemy (e_x e + (tx - e_x e) / D * e_speed e)
            (e_y e + (ty - e_y e) / D * e_speed e) (e_speed e) (e_id e).
Proof.
  unfold Enemy_move_towards. unfold_monad. simpl. decide_eq. simpl.
  decide_eq. reflexivity.
Qed.

Lemma Enemy_move_towards_other (g : Game) (self r : nat) (tx ty : R) :
  r <> self ->
  enemy_obj (exec (Enemy_move_towards self tx ty) g) r = enemy_obj g r.
Proof.
  intros Hne. unfold Enemy_move_towards. unfold_monad. simpl. decide_eq.
  reflexivity.
Qed.

(** The distance after one step, by cases on the distance before. *)
Lemma move_towards_cases (ex ey tx ty : R) :
  let d := dist ex ey tx ty in
  let D := Rmax (hypot (tx - ex) (ty - ey)) 1 in
  let d' := dist (ex + (tx - ex) / D * 2) (ey + (ty - ey) / D * 2) tx ty in
  (2 <= d -> d' = d - 2) /\ (1 <= d < 2 -> d' = 2 - d) /\ (d < 1 -> d' = d).
Proof.
  intros d D d'. subst d' D. rewrite (move_towards_dist ex ey tx ty 2).
  fold d.
  assert (Hh : hypot (tx - ex) (ty - ey) = d).
  { rewrite hypot_dist. apply dist_sym. }
  rewrite Hh. clear Hh.
  assert (Hd : 0 <= d) by apply dist_nonneg.
  unfold Rmax. destruct (Rle_dec d 1) as [Hle | Hgt].
  - replace (1 - 2 / 1) with (-1) by field.
    rewrite Rabs_left by lra.
    repeat split; intros; lra.
  - assert (Hd1 : 1 < d) by lra.
    assert (Hk : (1 - 2 / d) * d = d - 2) by (field; lra).
    repeat split; intros; try lra.
    + rewrite Rabs_right; [lra |].
      apply Rle_ge. apply Rmult_le_reg_r with d; [lra |]. lra.
    + rewrite Rabs_left1; [lra |].
      apply Rmult_le_reg_r with d; [lra |]. lra.
Qed.

End Tracking.

(** C3, as stated, fails: an enemy at (0, 0) tracking the target (1, 0)
    has distance max(1, 1) = 1, steps by 2 to (2, 0), and is again at
    distance 1 from the target: the distance has not gone down by its
    speed, 2. *)
Lemma C3_counterexample :
  let g := upd_enemy 0 (fun _ => mkEnemy 0 0 2 0) (Game_fields 800 600 (fun _ => 0%Z)) in
  let e := enemy_obj g 0 in
  let e' := enemy_obj (exec (Enemy_move_towards 0 1 0) g) 0 in
  (e_x e, e_y e) <> (1%R, 0%R)
  /\ e_x e' = 2%R /\ e_y e' = 0%R
  /\ dist (e_x e) (e_y e) 1 0 = 1%R
  /\ dist (e_x e') (e_y e') 1 0 = 1%R
  /\ dist (e_x e') (e_y e') 1 0
     <> (dist (e_x e) (e_y e) 1 0 - e_speed e)%R.
Proof.
  intros g e e'.
  assert (Hh : hypot (1 - 0) (0 - 0) = 1%R).
  { replace (1 - 0)%R with 1%R by lra. replace (0 - 0)%R with 0%R by lra.
    apply hypot_x_0. lra. }
  assert (Hx : e_x e' = 2%R).
  { unfold e'. rewrite Enemy_move_towards_obj. simpl. rewrite Hh.
    unfold Rmax. destruct (Rle_dec 1 1); lra. }
  assert (Hy : e_y e' = 0%R).
  { unfold e'. rewrite Enemy_move_towards_obj. simpl. rewrite Hh.
    unfold Rmax. destruct (Rle_dec 1 1); lra. }
  assert (Hd : dist (e_x e) (e_y e) 1 0 = 1%R).
  { simpl. rewrite <- hypot_dist. replace (0 - 0)%R with 0%R by lra.
    replace (0 - 1)%R with (- (1))%R by lra. apply hypot_neg_0. lra. }
  assert (Hd' : dist (e_x e') (e_y e') 1 0 = 1%R).
  { rewrite Hx, Hy. rewrite <- hypot_dist.
    replace (2 - 1)%R with 1%R by lra. replace (0 - 0)%R with 0%R by lra.
    apply hypot_x_0. lra. }
  repeat split; try assumption.
  - intros H. inversion H. lra.
  - rewrite Hd', Hd. simpl. lra.
Qed.

(** C3, amended: with the speed that [Enemy.__init__] sets (2), one call
    of [move_towards] never increases the distance to the target; it
    lowers it by exactly the speed when the enemy is at least that far
    away; an enemy closer than its speed overshoots (from distance [d] in
    [1, 2) to [2 - d]), and one closer than 1 ends at the same distance on
    the other side of the target. *)
Theorem C3_move_towards_distance (g : Game) (self : nat) (tx ty : R) :
  e_speed (enemy_obj g self) = 2%R ->
  let e := enemy_obj g self in
  let e' := enemy_obj (exec (Enemy_move_towards self tx ty) g) self in
  let d := dist (e_x e) (e_y e) tx ty in
  let d' := dist (e_x e') (e_y e') tx ty in
  (d' <= d)%R
  /\ d' = (if Rle_dec 2 d then d - e_speed e
           else if Rle_dec 1 d then 2 - d else d)%R.
Proof.
  intros Hs. cbv zeta. rewrite Enemy_move_towards_obj. cbv zeta. simpl.
  rewrite Hs.
  pose proof (move_towards_cases (e_x (enemy_obj g self))
                (e_y (enemy_obj g self)) tx ty) as H.
  cbv zeta in H. destruct H as (H2 & H1 & H0).
  set (d := dist (e_x (enemy_obj g self)) (e_y (enemy_obj g self)) tx ty)
    in *.
  assert (Hd : (0 <= d)%R) by apply dist_nonneg.
  destruct (Rle_dec 2 d); [rewrite H2 by lra; lra |].
  destruct (Rle_dec 1 d); [rewrite H1 by lra; lra |].
  rewrite H0 by lra. lra.
Qed.

Lemma C3_move_towards_distance_witness :
  let g := Game_fields 800 600 (fun _ => 0%Z) in
  let e := enemy_obj g 0 in
  let e' := enemy_obj (exec (Enemy_move_towards 0 10 0) g) 0 in
  e_speed e = 2%R
  /\ (dist (e_x e') (e_y e') 10 0 <= dist (e_x e) (e_y e) 10 0)%R.
Proof.
  intros g e e'. split; [reflexivity |].
  exact (proj1 (C3_move_towards_distance g 0%nat 10%R 0%R eq_refl)).
Defined.

(** What [Player.check_collision] returns. *)
Lemma Player_check_collision_outcome (g : Game) (enemy : nat) :
  outcome (Player_check_collision enemy) g
  = Ok (Rltb (hypot (p_x (player g) - e_x (enemy_obj g enemy))
                    (p_y (player g) - e_y (enemy_obj g enemy))) 20).
Proof.
  unfold Player_check_collision, Game_update_lives, Game_game_over.
  unfold_monad.
  destruct (Rltb _ 20); simpl; [| reflexivity].
  destruct (p_health (player g) - 1 <=? 0)%Z; reflexivity.
Qed.

(** On doubles the distance of two positions is not what the test sees.
    The enemy (or the player) at (20, 0) and the point (2**-60, 0) are at
    distance 20 - 2**-60, below 20; the enemy at (20, 0) and the point
    (0, 0) are at distance 20.  The source subtracts first, and
    [20.0 - 2**-60] rounds to [20.0]: both pairs hand [math.hypot] the same
    arguments (20.0, 0.0), so both get the same answer, whatever
    [math.hypot] computes, and the test cannot be right at both.  With
    [math.hypot(20.0, 0.0) = 20.0] the answer is [False] at both: no hit
    at a distance below 20. *)
Lemma C5_counterexample :
  let e := Double.d20 in
  let b := Double.d2_pow_minus_60 in
  let o := Double.d0 in
  (Double.value e = Some 20%R
   /\ Double.value b = Some (/ 2 ^ 60)%R
   /\ Double.value o = Some 0%R)
  /\ ((dist 20 0 (/ 2 ^ 60) 0 < 20)%R /\ (20 <= dist 20 0 0 0)%R)
  /\ (PrimFloat.sub e b = e /\ PrimFloat.sub e o = e
      /\ PrimFloat.sub o o = o)
  /\ (forall hypot,
        ~ ((Double.Enemy_is_hit hypot e o b o = true
            <-> (dist 20 0 (/ 2 ^ 60) 0 < 20)%R)
           /\ (Double.Enemy_is_hit hypot e o o o = true
               <-> (dist 20 0 0 0 < 20)%R)))
  /\ (forall hypot,
        ~ ((Double.Player_check_collision hypot e o b o = true
            <-> (dist 20 0 (/ 2 ^ 60) 0 < 20)%R)
           /\ (Double.Player_check_collision hypot e o o o = true
               <-> (dist 20 0 0 0 < 20)%R)))
  /\ (forall hypot, hypot e o = e ->
        Double.Enemy_is_hit hypot e o b o = false
        /\ Double.Player_check_collision hypot e o b o = false).
Proof.
  cbv zeta.
  assert (S1 : PrimFloat.sub Double.d20 Double.d2_pow_minus_60 = Double.d20)
    by (vm_compute; reflexivity).
  assert (S2 : PrimFloat.sub Double.d20 Double.d0 = Double.d20)
    by (vm_compute; reflexivity).
  assert (S3 : PrimFloat.sub Double.d0 Double.d0 = Double.d0)
    by (vm_compute; reflexivity).
  assert (P : (0 < / 2 ^ 60)%R) by (apply Rinv_0_lt_compat, pow_lt; lra).
  assert (Q : (/ 2 ^ 60 <= 20)%R).
  { apply Rle_trans with 1%R; [| lra].
    rewrite <- Rinv_1. apply Rinv_le_contravar; [lra |].
    apply pow_R1_Rle. lra. }
  assert (D1 : (dist 20 0 (/ 2 ^ 60) 0 < 20)%R)
    by (rewrite dist_on_axis by exact Q; lra).
  assert (D2 : (20 <= dist 20 0 0 0)%R)
    by (rewrite dist_on_axis by lra; lra).
  split.
  { unfold Double.value.
    replace (FloatOps.Prim2SF Double.d20)
      with (SpecFloat.S754_finite false 5629499534213120 (-48))
      by (vm_compute; reflexivity).
    replace (FloatOps.Prim2SF Double.d2_pow_minus_60)
      with (SpecFloat.S754_finite false 4503599627370496 (-112))
      by (vm_compute; reflexivity).
    replace (FloatOps.Prim2SF Double.d0) with (SpecFloat.S754_zero false)
      by (vm_compute; reflexivity).
    split; [f_equal; simpl; lra |].
    split; [f_equal; simpl; lra | reflexivity]. }
  split; [split; assumption |].
  split; [repeat split; assumption |].
  split; [| split].
  - intros hypot [[_ H1] [H2 _]].
    unfold Double.Enemy_is_hit in H1, H2. rewrite S1, S3 in H1.
    rewrite S2, S3 in H2. specialize (H2 (H1 D1)). lra.
  - intros hypot [[_ H1] [H2 _]].
    unfold Double.Player_check_collision in H1, H2. rewrite S1, S3 in H1.
    rewrite S2, S3 in H2. specialize (H2 (H1 D1)). lra.
  - intros hypot H.
    unfold Double.Enemy_is_hit, Double.Player_check_collision.
    rewrite S1, S3, H. split; vm_compute; reflexivity.
Qed.

(** C5, amended: in exact arithmetic, with coordinates and distances as
    real numbers, the two collision checks are exact at the threshold and
    symmetric.  Each answers [True] exactly when the Euclidean distance
    between the two positions is below 20 and [False] exactly when it is
    20 or more, and the answer is the same when the two positions are
    exchanged.  On doubles the coordinate differences are rounded before
    the test, and positions whose distance is within that rounding of 20
    can get the other answer. *)
Theorem C5_collision_threshold
    (g : Game) (enemy : nat) (bx by_ : R) :
  let p := player g in
  let e := enemy_obj g enemy in
  (outcome (Player_check_collision enemy) g = Ok true
     <-> (dist (p_x p) (p_y p) (e_x e) (e_y e) < 20)%R)
  /\ (outcome (Player_check_collision enemy) g = Ok false
     <-> (20 <= dist (p_x p) (p_y p) (e_x e) (e_y e))%R)
  /\ (outcome (Enemy_is_hit enemy bx by_) g = Ok true
     <-> (dist (e_x e) (e_y e) bx by_ < 20)%R)
  /\ (outcome (Enemy_is_hit enemy bx by_) g = Ok false
     <-> (20 <= dist (e_x e) (e_y e) bx by_)%R)
  /\ outcome (Player_check_collision enemy) (swap_player_enemy enemy g)
     = outcome (Player_check_collision enemy) g
  /\ outcome (Enemy_is_hit enemy (e_x e) (e_y e))
       (upd_enemy enemy (fun e => mkEnemy bx by_ (e_speed e) (e_id e)) g)
     = outcome (Enemy_is_hit enemy bx by_) g.
Proof.
  intros p e. subst p e.
  rewrite !Player_check_collision_outcome.
  unfold Enemy_is_hit. unfold_monad. simpl. decide_eq. simpl.
  rewrite !hypot_dist.
  repeat split.
  - intros H. apply Rltb_true. congruence.
  - intros H. f_equal. by apply Rltb_true.
  - intros H. apply Rltb_false. congruence.
  - intros H. f_equal. by apply Rltb_false.
  - intros H. apply Rltb_true. congruence.
  - intros H. f_equal. by apply Rltb_true.
  - intros H. apply Rltb_false. congruence.
  - intros H. f_equal. by apply Rltb_false.
  - f_equal. f_equal. apply dist_sym.
  - f_equal. f_equal. apply dist_sym.
Qed.

(** ** Removal *)


Lemma list_remove_Some (x : nat) (l : list nat) :
  x ∈ l -> exists r, list_remove x l = Some r /\ length l = S (length r).
Proof.
  induction l as [| y l IH]; intros Hx; simpl.
  - by apply elem_of_nil in Hx.
  - destruct (decide (x = y)) as [-> | Hne]; [by eexists |].
    apply elem_of_cons in Hx as [Hx | Hx]; [done |].
    destruct (IH Hx) as (r & -> & Hlen). eexists. split; [done |].
    simpl. by rewrite Hlen.
Qed.

(** Removing a bullet that is not in the collection changes nothing and
    raises nothing. *)
Lemma Game_remove_bullet_not_member (g : Game) (bullet : nat) :
  bullet ∉ bullets g -> Game_remove_bullet bullet g = (Ok tt, g).
Proof.
  intros H. unfold Game_remove_bullet. unfold_monad.
  by rewrite bool_decide_eq_false_2.
Qed.

(** Removing a bullet of the collection takes it out, once, and clears
    its [alive] flag. *)
Lemma Game_remove_bullet_member (g : Game) (bullet : nat) :
  bullet ∈ bullets g ->
  exists r,
    list_remove bullet (bullets g) = Some r
    /\ outcome (Game_remove_bullet bullet) g = Ok tt
    /\ bullets (exec (Game_remove_bullet bullet) g) = r
    /\ b_alive (bullet_obj (exec (Game_remove_bullet bullet) g) bullet)
       = false.
Proof.
  intros H. destruct (list_remove_Some _ _ H) as (r & Hr & _).
  exists r. split; [done |].
  unfold Game_remove_bullet. unfold_monad.
  rewrite bool_decide_eq_true_2 by done. simpl. rewrite Hr. simpl.
  decide_eq. done.
Qed.



(** ** The terminal state (C6) *)

Lemma same_world_refl g : same_world g g.
Proof. by repeat split. Qed.

Lemma same_world_trans g1 g2 g3 :
  same_world g1 g2 -> same_world g2 g3 -> same_world g1 g3.
Proof.
  unfold same_world. intros H1 H2.
  destruct H1 as (?&?&?&?&?&?&?&?&?), H2 as (?&?&?&?&?&?&?&?&?).
  repeat split; congruence.
Qed.

Lemma Game_update_over (g : Game) :
  is_game_over g = true -> Game_update g = (Ok tt, g).
Proof. intros H. unfold Game_update. unfold_monad. by rewrite H. Qed.

Lemma Game_spawn_enemies_periodically_over (g : Game) :
  is_game_over g = true -> Game_spawn_enemies_periodically g = (Ok tt, g).
Proof.
  intros H. unfold Game_spawn_enemies_periodically. unfold_monad.
  by rewrite H.
Qed.

Lemma Bullet_move_over (g : Game) (self : nat) :
  is_game_over g = true -> Bullet_move self g = (Ok tt, g).
Proof.
  intros H. unfold Bullet_move. unfold_monad. rewrite H.
  by rewrite orb_true_r.
Qed.

Lemma Bullet_move_dead (g : Game) (self : nat) :
  b_alive (bullet_obj g self) = false -> Bullet_move self g = (Ok tt, g).
Proof. intros H. unfold Bullet_move. unfold_monad. by rewrite H. Qed.

Lemma Game_shoot_continuously_over (g : Game) :
  is_game_over g = true ->
  Game_shoot_continuously g
  = (Ok tt, upd_root (fun r =>
      mkRoot (timers r ++ [(500%Z, cb_shoot_continuously)])
        (bind_keypress r) (bind_keyrelease r) (bind_motion r)) g).
Proof.
  intros H. unfold Game_shoot_continuously. unfold_monad. by rewrite H.
Qed.

Lemma run_callback_over (cb : Callback) (g : Game) :
  is_game_over g = true -> same_world g (exec (run_callback cb) g).
Proof.
  intros H. destruct cb; simpl; unfold exec.
  - rewrite Game_update_over by done. apply same_world_refl.
  - rewrite Game_shoot_continuously_over by done. by repeat split.
  - rewrite Game_spawn_enemies_periodically_over by done.
    apply same_world_refl.
  - rewrite Bullet_move_over by done. apply same_world_refl.
  - by repeat split.
Qed.

Lemma step_over (ev : Event) (g : Game) :
  is_game_over g = true -> same_world g (step ev g).
Proof.
  intros H. destruct ev as [n | k | k | x y]; simpl.
  - destruct (timers (root g) !! n) as [[ms cb] |];
      [| apply same_world_refl].
    apply same_world_trans with (take_timer n g); [by repeat split |].
    by apply run_callback_over.
  - destruct (bind_keypress (root g)); by repeat split.
  - destruct (bind_keyrelease (root g)); by repeat split.
  - destruct (bind_motion (root g)); by repeat split.
Qed.

Lemma run_over (evs : list Event) (g : Game) :
  is_game_over g = true -> same_world g (run evs g).
Proof.
  revert g. induction evs as [| ev rest IH]; intros g H; simpl.
  - apply same_world_refl.
  - pose proof (step_over ev g H) as Hs.
    apply same_world_trans with (step ev g); [done |].
    apply IH. destruct Hs as (_&_&_&_&_&_&_&_&Hf). congruence.
Qed.

(** C6: in the terminal state a spawn tick creates no enemy, a shoot tick
    creates no bullet, an update tick (and a bullet's move tick) leaves
    the state as it is, and this stays so over every later run of
    events: the player, every enemy and every bullet keep their fields,
    so no position changes. *)
Theorem C6_terminal_state_freezes (g : Game) (evs : list Event) (self : nat) :
  is_game_over g = true ->
  exec Game_spawn_enemies_periodically g = g
  /\ (enemies (exec Game_shoot_continuously g) = enemies g
      /\ bullets (exec Game_shoot_continuously g) = bullets g
      /\ next_bullet (exec Game_shoot_continuously g) = next_bullet g
      /\ bullet_obj (exec Game_shoot_continuously g) = bullet_obj g)
  /\ exec Game_update g = g
  /\ exec (Bullet_move self) g = g
  /\ same_world g (run evs g).
Proof.
  intros H. unfold exec.
  rewrite Game_spawn_enemies_periodically_over, Game_update_over,
    Bullet_move_over, Game_shoot_continuously_over by done.
  repeat split; try reflexivity.
  all: by apply (run_over evs g H).
Qed.

Lemma C6_terminal_state_freezes_witness :
  is_game_over game_over_state = true
  /\ same_world game_over_state
       (run [EvTimer 0; EvMotion 5 5; EvKeyPress "d"] game_over_state).
Proof.
  split; [reflexivity |].
  apply (C6_terminal_state_freezes game_over_state
           [EvTimer 0; EvMotion 5 5; EvKeyPress "d"] 0).
  reflexivity.
Defined.

(** One tick with the flag set: the tick of the spawner, of the main
    update and of a bullet's movement registers nothing, so the task is
    gone from the timer queue; the bullet-fire tick fires no bullet but
    registers itself again, after 500 ms. *)
Lemma tick_under_flag (g : Game) (n : nat) (ms : Z) (cb : Callback) :
  timers (root g) !! n = Some (ms, cb) -> is_game_over g = true ->
  timers (root (step (EvTimer n) g))
  = match cb with
    | cb_shoot_continuously =>
        timers (root (take_timer n g)) ++ [(500%Z, cb_shoot_continuously)]
    | _ => timers (root (take_timer n g))
    end.
Proof.
  intros Hn H. simpl. rewrite Hn.
  assert (H' : is_game_over (take_timer n g) = true) by exact H.
  destruct cb; simpl; unfold exec.
  - by rewrite Game_update_over.
  - by rewrite Game_shoot_continuously_over.
  - by rewrite Game_spawn_enemies_periodically_over.
  - by rewrite Bullet_move_over.
  - reflexivity.
Qed.

(** ** Bullets (C7, C8, C9, C10) *)

Lemma Bullet_move_running (g : Game) (self : nat) :
  b_alive (bullet_obj g self) = true -> is_game_over g = false ->
  Bullet_move self g = Bullet_after_step self (Bullet_step self g).
Proof.
  intros Ha Ho. unfold Bullet_move, Bullet_after_step. unfold_monad.
  rewrite Ha, Ho. reflexivity.
Qed.

Lemma Bullet_is_in_bounds_true (g : Game) (self : nat) :
  (0 <= b_x (bullet_obj g self) <= IZR (winfo_width (canvas g)))%R ->
  (0 <= b_y (bullet_obj g self) <= IZR (winfo_height (canvas g)))%R ->
  Bullet_is_in_bounds self g = (Ok true, g).
Proof.
  intros [H1 H2] [H3 H4]. unfold Bullet_is_in_bounds. unfold_monad.
  by rewrite !(proj2 (Rleb_true _ _)).
Qed.

Lemma Bullet_check_collision_loop_miss (g : Game) (self : nat) (l : list nat) :
  (forall e, e ∈ l -> in_radius g self e = false) ->
  Bullet_check_collision_loop self l g = (Ok tt, g).
Proof.
  induction l as [| e l IH]; intros H; simpl; [done |].
  unfold Enemy_is_hit. unfold_monad.
  pose proof (H e ltac:(left)) as He. unfold in_radius in He. rewrite He.
  apply IH. intros e' He'. apply H. by right.
Qed.

Lemma Bullet_check_collision_loop_hit (g : Game) (self : nat)
    (l1 : list nat) (e : nat) (l2 : list nat) :
  (forall e', e' ∈ l1 -> in_radius g self e' = false) ->
  in_radius g self e = true ->
  Bullet_check_collision_loop self (l1 ++ e :: l2) g = Bullet_hit self e g.
Proof.
  induction l1 as [| e1 l1 IH]; intros H He; simpl.
  - unfold Enemy_is_hit. unfold_monad. unfold in_radius in He.
    by rewrite He.
  - unfold Enemy_is_hit. unfold_monad.
    pose proof (H e1 ltac:(left)) as H1. unfold in_radius in H1. rewrite H1.
    apply IH; [| done]. intros e' He'. apply H. by right.
Qed.

(** A bullet that stays on the canvas and reaches no enemy: the step,
    and the next tick registered. *)
Lemma Bullet_move_free (g : Game) (self : nat) :
  b_alive (bullet_obj g self) = true -> is_game_over g = false ->
  let g' := Bullet_step self g in
  (0 <= b_x (bullet_obj g' self) <= IZR (winfo_width (canvas g)))%R ->
  (0 <= b_y (bullet_obj g' self) <= IZR (winfo_height (canvas g)))%R ->
  (forall e, e ∈ enemies g -> in_radius g' self e = false) ->
  Bullet_move self g = after 50 (cb_bullet_move self) g'.
Proof.
  intros Ha Ho g' Hx Hy Hmiss.
  rewrite Bullet_move_running by done. fold g'.
  unfold Bullet_after_step. unfold bind at 1.
  rewrite Bullet_is_in_bounds_true by done. simpl.
  unfold Bullet_check_collision. unfold_monad.
  rewrite Bullet_check_collision_loop_miss by done.
  replace (b_alive (bullet_obj g' self)) with true; [done |].
  unfold g', Bullet_step. simpl. decide_eq. simpl. decide_eq. by simpl.
Qed.

(** A bullet that stays on the canvas and whose first enemy within
    radius, in the order of the collection, is [e]. *)
Lemma Bullet_move_hit (g : Game) (self : nat)
    (l1 : list nat) (e : nat) (l2 : list nat) :
  b_alive (bullet_obj g self) = true -> is_game_over g = false ->
  let g' := Bullet_step self g in
  (0 <= b_x (bullet_obj g' self) <= IZR (winfo_width (canvas g)))%R ->
  (0 <= b_y (bullet_obj g' self) <= IZR (winfo_height (canvas g)))%R ->
  enemies g = l1 ++ e :: l2 ->
  (forall e', e' ∈ l1 -> in_radius g' self e' = false) ->
  in_radius g' self e = true ->
  Bullet_move self g
  = (Bullet_hit self e ;;
     g <- get ;;
     if b_alive (bullet_obj g self) then after 50 (cb_bullet_move self)
     else ret tt) g'.
Proof.
  intros Ha Ho g' Hx Hy Hl Hmiss Hhit.
  rewrite Bullet_move_running by done. fold g'.
  unfold Bullet_after_step. unfold bind at 1.
  rewrite Bullet_is_in_bounds_true by done. simpl.
  unfold Bullet_check_collision. unfold_monad.
  replace (enemies g') with (l1 ++ e :: l2) by done.
  by rewrite Bullet_check_collision_loop_hit.
Qed.

Lemma list_remove_app (l1 : list nat) (e : nat) (l2 : list nat) :
  e ∉ l1 -> list_remove e (l1 ++ e :: l2) = Some (l1 ++ l2).
Proof.
  induction l1 as [| y l1 IH]; intros H; simpl.
  - by rewrite decide_True.
  - apply not_elem_of_cons in H as [Hne H].
    rewrite decide_False by done. by rewrite IH.
Qed.

Lemma in_radius_first (g : Game) (self : nat) (l1 : list nat) (e : nat) :
  (forall e', e' ∈ l1 -> in_radius g self e' = false) ->
  in_radius g self e = true -> e ∉ l1.
Proof. intros Hmiss Hhit Hin. rewrite (Hmiss e Hin) in Hhit. done. Qed.

(** The hit branch, for a bullet of the collection and for one that is
    not in it. *)
Lemma Bullet_hit_effect (g : Game) (self : nat)
    (l1 : list nat) (e : nat) (l2 : list nat) :
  enemies g = l1 ++ e :: l2 -> e ∉ l1 ->
  let g' := exec (Bullet_hit self e) g in
  enemies g' = l1 ++ l2
  /\ score g' = (score g + 1)%Z
  /\ (self ∈ bullets g ->
        outcome (Bullet_hit self e) g = Ok tt
        /\ list_remove self (bullets g) = Some (bullets g')
        /\ b_alive (bullet_obj g' self) = false)
  /\ (self ∉ bullets g ->
        outcome (Bullet_hit self e) g = Ok tt
        /\ bullets g' = bullets g
        /\ b_alive (bullet_obj g' self) = b_alive (bullet_obj g self)).
Proof.
  intros Hl He.
  unfold Bullet_hit, Game_remove_enemy, Game_remove_bullet, Game_update_score.
  unfold_monad. simpl. rewrite Hl, list_remove_app by done. simpl.
  destruct (bool_decide (self ∈ bullets g)) eqn:Hb; simpl.
  - apply bool_decide_eq_true in Hb.
    destruct (list_remove_Some _ _ Hb) as (r & Hr & _). rewrite Hr. simpl.
    decide_eq. repeat split; try done.
  - apply bool_decide_eq_false in Hb. repeat split; try done.
Qed.

Lemma Game_shoot_continuously_running (g : Game) (mx my : Z) :
  is_game_over g = false -> mouse_x g = Some mx -> mouse_y g = Some my ->
  let self := next_bullet g in
  Game_shoot_continuously g
  = (Bullet_move self ;;
     modify (fun g => set_bullets (bullets g ++ [self]) g) ;;
     after 500 cb_shoot_continuously)
      (exec (Bullet_new (p_x (player g)) (p_y (player g)) (IZR mx) (IZR my))
            g).
Proof.
  intros Ho Hx Hy self.
  unfold Game_shoot_continuously, Player_shoot, Bullet_init, Bullet_new.
  unfold_monad. rewrite Ho, Hx, Hy. simpl. rewrite Ho. simpl.
  destruct (Bullet_move _ _) as [[[] | e] g']; reflexivity.
Qed.

(** ** One update tick, enemy by enemy *)

Lemma Player_check_collision_hit (g : Game) (enemy : nat) :
  collides g enemy = true ->
  Player_check_collision enemy g = (Player_hit ;; ret true) g.
Proof.
  intros H. unfold Player_check_collision, Player_hit. unfold collides in H.
  unfold bind at 1. unfold get at 1. rewrite H.
  unfold Game_update_lives, Game_game_over. unfold_monad. simpl.
  destruct (p_health (player g) - 1 <=? 0)%Z; reflexivity.
Qed.

Lemma Player_check_collision_miss (g : Game) (enemy : nat) :
  collides g enemy = false -> Player_check_collision enemy g = (Ok false, g).
Proof.
  intros H. unfold Player_check_collision. unfold collides in H.
  unfold bind at 1. unfold get at 1. by rewrite H.
Qed.

Lemma Game_update_running (g : Game) :
  is_game_over g = false ->
  Game_update g
  = (Game_update_loop (enemies g) ;; after 50 cb_update) (Game_update_moved g).
Proof.
  intros H. unfold Game_update, Game_update_moved, Player_move.
  unfold_monad. rewrite H. reflexivity.
Qed.

Lemma Game_update_loop_miss (g : Game) (enemy : nat) (rest : list nat) :
  collides (Enemy_stepped enemy g) enemy = false ->
  Game_update_loop (enemy :: rest) g
  = Game_update_loop rest (Enemy_stepped enemy g).
Proof.
  intros H. simpl. unfold bind at 1. unfold get at 1.
  unfold bind at 1.
  assert (Hm : Enemy_move_towards enemy (p_x (player g)) (p_y (player g)) g
               = (Ok tt, Enemy_stepped enemy g)) by reflexivity.
  rewrite Hm. unfold bind at 1.
  rewrite Player_check_collision_miss by done. reflexivity.
Qed.

Lemma Game_update_loop_hit (g : Game) (enemy : nat) (rest : list nat) :
  collides (Enemy_stepped enemy g) enemy = true ->
  Game_update_loop (enemy :: rest) g
  = (Player_hit ;; Game_remove_enemy enemy ;; Game_update_loop rest)
      (Enemy_stepped enemy g).
Proof.
  intros H. simpl. unfold bind at 1. unfold get at 1.
  unfold bind at 1.
  assert (Hm : Enemy_move_towards enemy (p_x (player g)) (p_y (player g)) g
               = (Ok tt, Enemy_stepped enemy g)) by reflexivity.
  rewrite Hm. unfold bind at 1.
  rewrite Player_check_collision_hit by done.
  unfold bind. destruct (Player_hit _) as [[[] | e] g']; reflexivity.
Qed.

Lemma Game_update_loop_hit_ok (g : Game) (enemy : nat) (rest : list nat) :
  collides (Enemy_stepped enemy g) enemy = true ->
  outcome (Game_update_hit enemy) (Enemy_stepped enemy g) = Ok tt ->
  Game_update_loop (enemy :: rest) g
  = Game_update_loop rest
      (exec (Game_update_hit enemy) (Enemy_stepped enemy g)).
Proof.
  intros H Hok. rewrite Game_update_loop_hit by done.
  unfold outcome, exec, Game_update_hit in *. unfold bind in *.
  destruct (Player_hit _) as [[[] | e] g']; simpl in *.
  - destruct (Game_remove_enemy enemy g') as [[[] | e] g'']; simpl in *;
      [reflexivity | discriminate].
  - discriminate.
Qed.

(** ** Evaluating concrete runs *)

(** Normal form of a goal, up to the operations on reals. *)
Ltac rnorm :=
  lazy -[Rplus Rmult Rminus Rdiv Rinv Ropp IZR Rltb Rleb hypot Rmax atan2
         cos sin dist Rlt Rle Rge Rgt sqrt PI atan].

Lemma no_key (k : string) (D : Decision (k ∈ (∅ : gset string))) :
  @bool_decide _ D = false.
Proof. apply bool_decide_eq_false_2. apply not_elem_of_empty. Qed.

Lemma Game_update_moved_no_keys (g : Game) :
  pressed_keys g = ∅ -> Game_update_moved g = exec (Player_move 0 0) g.
Proof.
  intros H. unfold Game_update_moved. rewrite H, !no_key. reflexivity.
Qed.

(** The constructor, with its three tasks run: no key is pressed, no
    mouse position is known and no enemy exists yet. *)
Lemma Game_init_eq (w h : Z) (s : nat -> Z) :
  Game_init w h s
  = exec (Player_move 0 0 ;; after 50 cb_update ;;
          after 500 cb_shoot_continuously ;;
          Game_spawn_enemies 3 ;;
          after 5000 cb_spawn_enemies_periodically) (Game_fields w h s).
Proof.
  unfold Game_init, exec.
  unfold bind at 1. rewrite Game_update_running by reflexivity.
  rewrite Game_update_moved_no_keys by reflexivity.
  rnorm. reflexivity.
Qed.

Lemma step_timer (n : nat) (g : Game) (ms : Z) (cb : Callback) :
  timers (root g) !! n = Some (ms, cb) ->
  step (EvTimer n) g = exec (run_callback cb) (take_timer n g).
Proof. intros H. simpl. by rewrite H. Qed.

Lemma hypot_zero (a b : R) : a = 0%R -> b = 0%R -> hypot a b = 0%R.
Proof. intros -> ->. apply hypot_0_0. Qed.

Lemma hypot_axis_y (a b c : R) :
  a = 0%R -> b = (- c)%R -> (0 <= c)%R -> hypot a b = c.
Proof. intros -> -> Hc. by apply hypot_0_neg. Qed.

Lemma hypot_axis_x (a b c : R) :
  a = c -> b = 0%R -> (0 <= c)%R -> hypot a b = c.
Proof. intros -> -> Hc. by apply hypot_x_0. Qed.

Lemma Rmax_big (a : R) : (1 <= a)%R -> Rmax a 1 = a.
Proof. intros H. unfold Rmax. destruct (Rle_dec a 1); lra. Qed.

(** The enemy stands where the player stands. *)
Ltac hit_here :=
  unfold collides; rnorm; apply Rltb_true;
  rewrite hypot_zero; [lra | unfold Rdiv; ring | unfold Rdiv; ring].

Lemma run_app (evs1 evs2 : list Event) (g : Game) :
  run (evs1 ++ evs2) g = run evs2 (run evs1 g).
Proof.
  revert g. induction evs1 as [| ev evs1 IH]; intros g; simpl; [done |].
  apply IH.
Qed.

(** ** Health over a run (C2) *)

(** The run that ends a game at once.  After the constructor with the
    draws [stream2], the first update tick sees two enemies on the player
    (health 3 to 1) and a third one 450 units away; the spawn tick adds
    three enemies on the player; the next update tick takes health to 0,
    -1 and -2.  The update ticks that a real clock puts between the first
    tick and the spawn only walk the third enemy closer. *)
Lemma collision_run :
  let g0 := Game_init 800 600 stream2 in
  let g1 := run [EvTimer 0; EvTimer 1] g0 in
  let g3 := run [EvTimer 1] g1 in
  (p_health (player g1) = 1%Z /\ is_game_over g1 = false
   /\ enemies g1 = [2; 3; 4; 5]%nat)
  /\ (p_health (player g3) = (-2)%Z /\ is_game_over g3 = true
      /\ count_timers cb_show_close_message g3 = 3%nat)
  /\ timers (root g3)
     = [(500%Z, cb_shoot_continuously);
        (5000%Z, cb_spawn_enemies_periodically);
        (5000%Z, cb_show_close_message); (5000%Z, cb_show_close_message);
        (5000%Z, cb_show_close_message); (50%Z, cb_update)].
Proof.
  intros g0 g1 g3.
  eassert (E1 : g1 = _).
  { unfold g1, g0.
    change (run [EvTimer 0; EvTimer 1] (Game_init 800 600 stream2))
      with (step (EvTimer 1) (step (EvTimer 0) (Game_init 800 600 stream2))).
    rewrite Game_init_eq.
    rewrite (step_timer 0 _ 50 cb_update) by reflexivity.
    simpl run_callback. unfold exec at 1.
    rewrite Game_update_running by reflexivity.
    rewrite Game_update_moved_no_keys by reflexivity.
    match goal with |- context [Game_update_loop (enemies ?g)] =>
      change (enemies g) with [0; 1; 2]%nat end.
    unfold bind at 1.
    rewrite Game_update_loop_hit_ok; [| hit_here | reflexivity].
    rewrite Game_update_loop_hit_ok; [| hit_here | reflexivity].
    rewrite Game_update_loop_miss.
    2:{ unfold collides. rnorm. apply Rltb_false.
        replace (100 + 0 * 5 + 0 * 5)%R with 100%R by lra.
        rewrite (hypot_axis_y (100 - 100) (100 - 550) 450) by lra.
        rewrite Rmax_big by lra.
        rewrite (hypot_axis_y _ _ 448) by lra. lra. }
    simpl Game_update_loop. unfold ret at 1.
    rewrite (step_timer 1 _ 5000 cb_spawn_enemies_periodically)
      by reflexivity.
    reflexivity. }
  eassert (E3 : g3 = _).
  { unfold g3. rewrite E1.
    match goal with |- run [EvTimer 1] ?g = _ =>
      change (run [EvTimer 1] g) with (step (EvTimer 1) g) end.
    rewrite (step_timer 1 _ 50 cb_update) by reflexivity.
    simpl run_callback. unfold exec at 1.
    rewrite Game_update_running by reflexivity.
    rewrite Game_update_moved_no_keys by reflexivity.
    match goal with |- context [Game_update_loop (enemies ?g)] =>
      change (enemies g) with [2; 3; 4; 5]%nat end.
    unfold bind at 1.
    rewrite Game_update_loop_miss.
    2:{ unfold collides. rnorm. apply Rltb_false.
        replace (100 + 0 * 5 + 0 * 5 + 0 * 5)%R with 100%R by lra.
        replace (100 + 0 * 5 + 0 * 5)%R with 100%R by lra.
        rewrite (hypot_axis_y (100 - 100) (100 - 550) 450) by lra.
        rewrite (Rmax_big 450) by lra.
        rewrite (hypot_axis_y (100 - (100 + (100 - 100) / 450 * 2))
                   (100 - (550 + (100 - 550) / 450 * 2)) 448) by lra.
        rewrite (Rmax_big 448) by lra.
        rewrite (hypot_axis_y _ _ 446) by lra. lra. }
    rewrite Game_update_loop_hit_ok; [| hit_here | reflexivity].
    rewrite Game_update_loop_hit_ok; [| hit_here | reflexivity].
    rewrite Game_update_loop_hit_ok; [| hit_here | reflexivity].
    simpl Game_update_loop. unfold ret at 1.
    reflexivity. }
  rewrite E3, E1. repeat split; reflexivity.
Qed.

(** C2, as stated, fails.  After the constructor, the first update tick
    sees two enemies on the player (health 3 to 1) and a third one 450
    units away; the spawn tick adds three enemies on the player; the next
    update tick takes health to 0, -1 and -2, and [game_over()] runs three
    times (three close messages are scheduled).  The update ticks that a
    real clock puts between the first tick and the spawn only walk the
    third enemy closer. *)
Lemma C2_counterexample :
  let g0 := Game_init 800 600 stream2 in
  let g1 := run [EvTimer 0; EvTimer 1] g0 in
  let g3 := run [EvTimer 1] g1 in
  g3 = run [EvTimer 0; EvTimer 1; EvTimer 1] g0
  /\ p_health (player g1) = 1%Z /\ is_game_over g1 = false
  /\ enemies g1 = [2; 3; 4; 5]%nat
  /\ p_health (player g3) = (-2)%Z /\ is_game_over g3 = true
  /\ count_timers cb_show_close_message g3 = 3%nat.
Proof.
  intros g0 g1 g3.
  split; [symmetry; apply (run_app [EvTimer 0; EvTimer 1] [EvTimer 1]) |].
  destruct collision_run as ((A1 & A2 & A3) & (B1 & B2 & B3) & _).
  split; [exact A1 |]. split; [exact A2 |]. split; [exact A3 |].
  split; [exact B1 |]. split; [exact B2 | exact B3].
Qed.

Lemma Game_init_HealthInv (w h : Z) (s : nat -> Z) :
  HealthInv (Game_init w h s).
Proof.
  rewrite Game_init_eq.
  assert (F := KeepsHealthInv_Frame).
  assert (H : preserves KeepsHealthInv
    (Player_move 0 0 ;; after 50 cb_update ;;
     after 500 cb_shoot_continuously ;;
     Game_spawn_enemies 3 ;;
     after 5000 cb_spawn_enemies_periodically)).
  { pose proof (Player_move_pres _ F). pose proof (after_pres _ F).
    pose proof (Game_spawn_enemies_pres _ F).
    pres_with F ltac:(frame_leaf F). }
  apply H. split; simpl; [split; [done | lia] | lia].
Qed.

(** ** One bullet, several enemies (C7) *)

Lemma step_motion (x y : Z) (g : Game) :
  bind_motion (root g) = true ->
  step (EvMotion x y) g = exec (Game_track_mouse x y) g.
Proof. intros H. simpl. by rewrite H. Qed.

(** The player at (100, 100) aims at the mouse at (200, 100). *)
Ltac aim_right :=
  rnorm;
  repeat match goal with
  | |- context [(100 + 0 * 5)%R] => replace (100 + 0 * 5)%R with 100%R by lra
  end;
  replace (100 - 100)%R with 0%R by lra;
  replace (200 - 100)%R with 100%R by lra;
  rewrite ?atan2_0_pos by lra; rewrite ?cos_0, ?sin_0.

(** The claim's case: a bullet of the collection that stays on the canvas
    and has enemies within radius removes the first of them in the order
    of the collection, and only that one; it is removed itself, its
    [alive] flag is cleared, no further tick is registered for it, and
    the score goes up by 1. *)
Lemma Bullet_move_hit_registered (g : Game) (self : nat)
    (l1 : list nat) (e : nat) (l2 : list nat) :
  b_alive (bullet_obj g self) = true -> is_game_over g = false ->
  self ∈ bullets g ->
  let gs := Bullet_step self g in
  (0 <= b_x (bullet_obj gs self) <= IZR (winfo_width (canvas g)))%R ->
  (0 <= b_y (bullet_obj gs self) <= IZR (winfo_height (canvas g)))%R ->
  enemies g = l1 ++ e :: l2 ->
  (forall e', e' ∈ l1 -> in_radius gs self e' = false) ->
  in_radius gs self e = true ->
  let g' := exec (Bullet_move self) g in
  outcome (Bullet_move self) g = Ok tt
  /\ enemies g' = l1 ++ l2
  /\ score g' = (score g + 1)%Z
  /\ list_remove self (bullets g) = Some (bullets g')
  /\ b_alive (bullet_obj g' self) = false
  /\ timers (root g') = timers (root g).
Proof.
  intros Ha Ho Hin gs Hx Hy Hl Hmiss Hhit g'.
  assert (He : e ∉ l1) by (by eapply in_radius_first).
  assert (Hm := Bullet_move_hit g self l1 e l2 Ha Ho Hx Hy Hl Hmiss Hhit).
  fold gs in Hm.
  assert (Hl' : enemies gs = l1 ++ e :: l2) by exact Hl.
  assert (Hin' : self ∈ bullets gs) by exact Hin.
  destruct (Bullet_hit_effect gs self l1 e l2 Hl' He) as (E1 & E2 & E3 & _).
  destruct (E3 Hin') as (E4 & E5 & E6).
  assert (Hr : timers (root (exec (Bullet_hit self e) gs)) = timers (root g)).
  { unfold Bullet_hit, Game_remove_enemy, Game_remove_bullet,
      Game_update_score.
    unfold_monad. simpl. rewrite Hl, list_remove_app by exact He. simpl.
    rewrite bool_decide_eq_true_2 by exact Hin. simpl.
    destruct (list_remove self (bullets g)); reflexivity. }
  clear Hx Hy Hmiss Hhit Hl' Hin' E3.
  unfold g', outcome, exec. rewrite Hm. unfold bind, get.
  unfold outcome, exec in E1, E2, E4, E5, E6, Hr.
  destruct (Bullet_hit self e gs) as [[[] | x] gh];
    simpl in E1, E2, E4, E5, E6, Hr; [| discriminate].
  rewrite E6. simpl. repeat split; assumption.
Qed.

(** The constructor in a running game: the field assignments, the two
    assignments of the first step, and what [Bullet.move] does after
    them. *)
Lemma Bullet_init_running_eq (g : Game) (sx sy tx ty : R) :
  is_game_over g = false ->
  Bullet_init sx sy tx ty g
  = (Bullet_after_step (next_bullet g) ;; ret (next_bullet g))
      (Bullet_step (next_bullet g) (exec (Bullet_new sx sy tx ty) g)).
Proof.
  intros Ho. unfold Bullet_init, Bullet_new.
  unfold bind at 1 2 3 4. unfold get at 1. unfold modify at 1 2.
  unfold canvas_create. unfold bind at 1 2 3. unfold get at 1.
  unfold modify at 1. unfold ret at 1 2. cbv beta iota.
  unfold bind at 1.
  rewrite Bullet_move_running;
    [reflexivity | cbn; by rewrite decide_True | exact Ho].
Qed.

(** A shoot tick and the next tick of the bullet it creates, after the
    constructor with the draws [stream7] and one mouse motion.  [gs] is
    the state in which the constructor's [self.move()] checks for
    collisions: the new bullet has taken its first step and is not yet in
    the collection. *)
Lemma shoot_run :
  let g0 := run [EvMotion 200 100] (Game_init 800 600 stream7) in
  let gt := take_timer 1 g0 in
  let gs := Bullet_step 0
              (exec (Bullet_new (p_x (player gt)) (p_y (player gt)) 200 100)
                 gt) in
  let g1 := run [EvTimer 1] g0 in
  let g2 := run [EvTimer 2] g1 in
  (enemies g0 = [0; 1; 2]%nat /\ bullets g0 = [] /\ score g0 = 0%Z)
  /\ (g1 = exec Game_shoot_continuously gt
      /\ Bullet_init (p_x (player gt)) (p_y (player gt)) 200 100 gt
         = (Bullet_after_step 0 ;; ret 0%nat) gs
      /\ enemies gs = [0; 1; 2]%nat /\ bullets gs = []
      /\ b_x (bullet_obj gs 0) = 110%R /\ b_y (bullet_obj gs 0) = 100%R
      /\ in_radius gs 0 0 = true /\ in_radius gs 0 1 = true)
  /\ (enemies g1 = [1; 2]%nat /\ score g1 = 1%Z /\ bullets g1 = [0%nat]
      /\ b_alive (bullet_obj g1 0) = true
      /\ timers (root g1) !! 2%nat = Some (50%Z, cb_bullet_move 0)
      /\ next_bullet g1 = 1%nat)
  /\ (enemies g2 = [2%nat] /\ score g2 = 2%Z /\ bullets g2 = []
      /\ b_alive (bullet_obj g2 0) = false /\ next_bullet g2 = 1%nat).
Proof.
  intros g0 gt gs g1 g2.
  eassert (E0 : g0 = _).
  { unfold g0.
    change (run [EvMotion 200 100] ?g) with (step (EvMotion 200 100) g).
    rewrite Game_init_eq. rewrite step_motion by reflexivity. reflexivity. }
  assert (Es : g1 = exec Game_shoot_continuously gt).
  { unfold g1, gt. rewrite E0.
    match goal with |- run [EvTimer 1] ?g = _ =>
      change (run [EvTimer 1] g) with (step (EvTimer 1) g) end.
    rewrite (step_timer 1 _ 500 cb_shoot_continuously) by reflexivity.
    reflexivity. }
  assert (Hinit : Bullet_init (p_x (player gt)) (p_y (player gt)) 200 100 gt
                  = (Bullet_after_step 0 ;; ret 0%nat) gs).
  { exact (Bullet_init_running_eq gt _ _ _ _ eq_refl). }
  eassert (E1 : g1 = _).
  { unfold g1. rewrite E0.
    match goal with |- run [EvTimer 1] ?g = _ =>
      change (run [EvTimer 1] g) with (step (EvTimer 1) g) end.
    rewrite (step_timer 1 _ 500 cb_shoot_continuously) by reflexivity.
    simpl run_callback. unfold exec at 1.
    rewrite (Game_shoot_continuously_running _ 200 100) by reflexivity.
    cbv zeta. unfold bind at 1.
    match goal with |- context [Bullet_move (next_bullet ?g)] =>
      change (next_bullet g) with 0%nat end.
    rewrite (Bullet_move_hit _ 0 [] 0 [1; 2]%nat);
      [ | reflexivity | reflexivity | aim_right; lra | aim_right; lra
        | reflexivity
        | intros e' He'; exfalso; exact (proj1 (elem_of_nil e') He') | ].
    2:{ unfold in_radius. aim_right. apply Rltb_true.
        rewrite (hypot_axis_x _ _ 15) by lra. lra. }
    reflexivity. }
  eassert (E2 : g2 = _).
  { unfold g2. rewrite E1.
    match goal with |- run [EvTimer 2] ?g = _ =>
      change (run [EvTimer 2] g) with (step (EvTimer 2) g) end.
    rewrite (step_timer 2 _ 50 (cb_bullet_move 0)) by reflexivity.
    simpl run_callback. unfold exec at 1.
    rewrite (Bullet_move_hit _ 0 [] 1 [2]%nat);
      [ | reflexivity | reflexivity | aim_right; lra | aim_right; lra
        | reflexivity
        | intros e' He'; exfalso; exact (proj1 (elem_of_nil e') He') | ].
    2:{ unfold in_radius. aim_right. apply Rltb_true.
        rewrite (hypot_axis_x _ _ 7) by lra. lra. }
    reflexivity. }
  split; [rewrite E0; repeat split; reflexivity |].
  split.
  { split; [exact Es |]. split; [exact Hinit |].
    unfold gs, gt. rewrite E0.
    split; [reflexivity |]. split; [reflexivity |].
    split; [aim_right; lra |]. split; [aim_right; lra |].
    split.
    - unfold in_radius. aim_right. apply Rltb_true.
      rewrite (hypot_axis_x _ _ 15) by lra. lra.
    - unfold in_radius. aim_right. apply Rltb_true.
      rewrite (hypot_axis_x _ _ 17) by lra. lra. }
  rewrite E2, E1.
  repeat split; reflexivity.
Qed.


(** ** A bullet's velocity and path (C8, C9) *)

Lemma SamePositions_Frame : Frame SamePositions.
Proof.
  split; unfold SamePositions; try (intros; simpl; tauto).
  - intros g1 g2 g3 H1 H2 r.
    destruct (H1 r) as (?&?&?&?), (H2 r) as (?&?&?&?).
    repeat split; congruence.
  - intros r g r'. simpl. destruct (decide (r' = r)) as [-> |]; simpl; tauto.
Qed.

Lemma Bullet_after_step_SamePositions (self : nat) :
  preserves SamePositions (Bullet_after_step self).
Proof.
  assert (F := SamePositions_Frame).
  unfold Bullet_after_step, canvas_coords.
  pose proof (Bullet_is_in_bounds_pres _ F).
  pose proof (Game_remove_bullet_pres _ F).
  pose proof (Bullet_check_collision_pres _ F).
  pose proof (after_pres _ F).
  pres_with F ltac:(frame_leaf F).
Qed.

Lemma Bullet_step_obj (g : Game) (self : nat) :
  let b := bullet_obj g self in
  bullet_obj (Bullet_step self g) self
  = mkBullet (b_x b + b_dx b) (b_y b + b_dy b) (b_speed b) (b_angle b)
      (b_dx b) (b_dy b) (b_id b) (b_alive b).
Proof.
  unfold Bullet_step. simpl. decide_eq. simpl. decide_eq. reflexivity.
Qed.

(** One effective tick displaces the bullet by its velocity, whatever
    else the tick does (bounds, collision, removal). *)
Lemma Bullet_move_displacement (g : Game) (self : nat) :
  b_alive (bullet_obj g self) = true -> is_game_over g = false ->
  let b := bullet_obj g self in
  let b' := bullet_obj (exec (Bullet_move self) g) self in
  b_x b' = (b_x b + b_dx b)%R /\ b_y b' = (b_y b + b_dy b)%R
  /\ b_dx b' = b_dx b /\ b_dy b' = b_dy b.
Proof.
  intros Ha Ho b b'. unfold b', exec.
  rewrite Bullet_move_running by assumption.
  destruct (Bullet_after_step_SamePositions self (Bullet_step self g) self)
    as (H1 & H2 & H3 & H4).
  unfold exec in H1, H2, H3, H4.
  rewrite H1, H2, H3, H4, Bullet_step_obj. simpl. tauto.
Qed.

Lemma Bullet_new_obj (g : Game) (sx sy tx ty : R) :
  let a := atan2 (ty - sy) (tx - sx) in
  let g0 := exec (Bullet_new sx sy tx ty) g in
  outcome (Bullet_new sx sy tx ty) g = Ok (next_bullet g)
  /\ bullet_obj g0 (next_bullet g)
     = mkBullet sx sy 10 a (10 * cos a) (10 * sin a) (next_item (canvas g))
         true
  /\ is_game_over g0 = is_game_over g
  /\ enemies g0 = enemies g /\ enemy_obj g0 = enemy_obj g
  /\ bullets g0 = bullets g
  /\ winfo_width (canvas g0) = winfo_width (canvas g)
  /\ winfo_height (canvas g0) = winfo_height (canvas g).
Proof.
  unfold Bullet_new. unfold_monad. simpl. decide_eq. tauto.
Qed.

Lemma Bullet_init_exec (g : Game) (sx sy tx ty : R) :
  exec (Bullet_init sx sy tx ty) g
  = exec (Bullet_move (next_bullet g)) (exec (Bullet_new sx sy tx ty) g).
Proof.
  unfold Bullet_init, Bullet_new. unfold_monad. simpl.
  destruct (Bullet_move _ _) as [[[] | e] g']; reflexivity.
Qed.

(** C9: a bullet aimed at its own start position has angle
    atan2(0, 0) = 0 and velocity (10, 0); nothing guards the zero
    distance, and the step that the constructor takes in a running game
    carries it to (x + 10, y). *)
Theorem C9_zero_distance_bullet (g : Game) (x y : R) :
  is_game_over g = false ->
  let self := next_bullet g in
  let b0 := bullet_obj (exec (Bullet_new x y x y) g) self in
  let b1 := bullet_obj (exec (Bullet_init x y x y) g) self in
  b_angle b0 = 0%R /\ b_speed b0 = 10%R
  /\ b_dx b0 = 10%R /\ b_dy b0 = 0%R
  /\ b_x b0 = x /\ b_y b0 = y
  /\ b_x b1 = (x + 10)%R /\ b_y b1 = y
  /\ b_dx b1 = 10%R /\ b_dy b1 = 0%R.
Proof.
  intros Ho self b0 b1.
  destruct (Bullet_new_obj g x y x y) as (_ & Hb & Hf & _).
  cbv zeta in Hb, Hf. fold self in Hb.
  assert (Ha : atan2 (y - y) (x - x) = 0%R).
  { replace (y - y)%R with 0%R by lra. replace (x - x)%R with 0%R by lra.
    apply atan2_0_0. }
  rewrite Ha, cos_0, sin_0 in Hb.
  assert (E0 : b0 = mkBullet x y 10 0 (10 * 1) (10 * 0)
                      (next_item (canvas g)) true) by exact Hb.
  assert (D : b_x b1 = (b_x b0 + b_dx b0)%R /\ b_y b1 = (b_y b0 + b_dy b0)%R
              /\ b_dx b1 = b_dx b0 /\ b_dy b1 = b_dy b0).
  { unfold b1. rewrite Bullet_init_exec. fold self.
    apply (Bullet_move_displacement (exec (Bullet_new x y x y) g) self).
    - fold b0. rewrite E0. reflexivity.
    - rewrite Hf. exact Ho. }
  destruct D as (D1 & D2 & D3 & D4).
  rewrite D1, D2, D3, D4, E0. simpl.
  repeat split; lra.
Qed.

Lemma C9_zero_distance_bullet_witness :
  let g := Game_fields 800 600 (fun _ => 50%Z) in
  is_game_over g = false
  /\ b_x (bullet_obj (exec (Bullet_init 100 100 100 100) g) 0) = (100 + 10)%R.
Proof.
  intros g. split; [reflexivity |].
  pose proof (C9_zero_distance_bullet g 100 100 eq_refl) as H.
  cbv zeta in H. exact (proj1 (proj2 (proj2 (proj2 (proj2 (proj2 (proj2 H))))))).
Defined.

Lemma Bullet_ticks_S (g g' : Game) (self n : nat) :
  Bullet_move self g = (Ok tt, g') ->
  Bullet_ticks (S n) self g = Bullet_ticks n self g'.
Proof. intros H. simpl. unfold bind. by rewrite H. Qed.

Lemma dist_ge_dy (x1 y1 x2 y2 : R) : (Rabs (y1 - y2) <= dist x1 y1 x2 y2)%R.
Proof.
  unfold dist. rewrite <- (sqrt_Rsqr_abs (y1 - y2)).
  apply sqrt_le_1_alt. unfold Rsqr.
  pose proof (Rle_0_sqr (x1 - x2)) as H. unfold Rsqr in H. lra.
Qed.

(** A bullet flying along the row y = 100 with velocity (10, 0), over a
    canvas and past enemies that leave its path free up to x = [far]. *)
Section FreeFlight.
Context (g : Game) (self : nat) (far : R).
Hypothesis wide : (far <= IZR (winfo_width (canvas g)))%R.
Hypothesis high : (100 <= IZR (winfo_height (canvas g)))%R.
Hypothesis clear_path : forall e bx,
  e ∈ enemies g -> (110 <= bx <= far)%R ->
  (20 <= dist (e_x (enemy_obj g e)) (e_y (enemy_obj g e)) bx 100)%R.

Lemma flying_tick (x : R) (gk : Game) :
  flying g self x gk -> (100 <= x)%R -> (x + 10 <= far)%R ->
  exists gk',
    Bullet_move self gk = (Ok tt, gk') /\ flying g self (x + 10) gk'.
Proof.
  intros (Ha & Ho & Hw & Hh & Hen & Hobj & Hx & Hy & Hdx & Hdy) Hr Hf.
  pose proof (Bullet_step_obj gk self) as Hs. cbv zeta in Hs.
  rewrite Hx, Hy, Hdx, Hdy in Hs.
  eexists. split.
  - rewrite Bullet_move_free; [reflexivity | exact Ha | exact Ho | | | ].
    + rewrite Hs, Hw. simpl. lra.
    + rewrite Hs, Hh. simpl. lra.
    + intros e He. unfold in_radius. rewrite Hs. simpl.
      apply Rltb_false. rewrite hypot_dist.
      change (enemy_obj (Bullet_step self gk) e) with (enemy_obj gk e).
      rewrite Hobj.
      replace (100 + 0)%R with 100%R by lra.
      apply clear_path; [rewrite <- Hen; exact He | lra].
  - unfold after, modify. simpl snd.
    unfold flying.
    change (bullet_obj (upd_root _ (Bullet_step self gk)) self)
      with (bullet_obj (Bullet_step self gk) self).
    rewrite Hs. simpl.
    repeat split; try assumption; try reflexivity; lra.
Qed.

Lemma flying_ticks (k : nat) :
  forall (x : R) (gk : Game),
  flying g self x gk -> (100 <= x)%R -> (x + 10 * INR k <= far)%R ->
  exists gk',
    Bullet_ticks k self gk = (Ok tt, gk')
    /\ flying g self (x + 10 * INR k) gk'.
Proof.
  induction k as [| k IH]; intros x gk H Hx Hf.
  - exists gk. split; [reflexivity |].
    replace (x + 10 * INR 0)%R with x by (simpl; lra). exact H.
  - rewrite S_INR in Hf. pose proof (pos_INR k) as Hk.
    destruct (flying_tick x gk H Hx) as (g1 & E1 & H1); [lra |].
    destruct (IH (x + 10)%R g1 H1) as (g2 & E2 & H2); [lra | lra |].
    exists g2. split.
    + rewrite (Bullet_ticks_S _ _ _ _ E1). exact E2.
    + rewrite S_INR.
      replace (x + 10 * (INR k + 1))%R with (x + 10 + 10 * INR k)%R by lra.
      exact H2.
Qed.

End FreeFlight.

(** ** Dead bullets (C10) *)

Section BulletFrameAt.
Context (R : Game -> Game -> Prop) (F : Frame R) (self : nat).
Hypothesis R_bullet_self : forall f g, R g (upd_bullet self f g).

Lemma Bullet_move_frame_at : preserves R (Bullet_move self).
Proof.
  unfold Bullet_move, canvas_coords.
  pose proof (Bullet_is_in_bounds_pres R F).
  pose proof (Game_remove_bullet_pres R F).
  pose proof (Bullet_check_collision_pres R F).
  pose proof (after_pres R F).
  pres_with F ltac:(first [frame_leaf F | apply R_bullet_self]).
Qed.

End BulletFrameAt.

Lemma StaysDead_Frame (b : nat) : Frame (StaysDead b).
Proof.
  split; unfold StaysDead; try (intros; simpl; tauto).
  - intros g1 g2 g3 H1 H2 H.
    destruct (H1 H) as (A1 & A2 & A3 & A4).
    destruct (H2 (conj A1 A2)) as (B1 & B2 & B3 & B4).
    repeat split; congruence.
  - intros r g [Hlt Hd]. simpl.
    destruct (decide (b = r)) as [-> |]; simpl; tauto.
Qed.

Lemma Bullet_move_StaysDead (b self : nat) :
  preserves (StaysDead b) (Bullet_move self).
Proof.
  destruct (decide (self = b)) as [-> | Hne].
  - intros g [Hlt Hd]. unfold exec. rewrite Bullet_move_dead by exact Hd.
    simpl. tauto.
  - apply (Bullet_move_frame_at _ (StaysDead_Frame b)).
    intros f g [Hlt Hd]. simpl.
    rewrite decide_False by congruence. tauto.
Qed.

Lemma Bullet_new_StaysDead (b : nat) (sx sy tx ty : R) :
  preserves (StaysDead b) (Bullet_new sx sy tx ty).
Proof.
  intros g [Hlt Hd]. unfold Bullet_new. unfold_monad. simpl.
  rewrite decide_False by lia. split; [lia | tauto].
Qed.

Lemma run_StaysDead (b : nat) (evs : list Event) (g : Game) :
  StaysDead b g (run evs g).
Proof.
  apply (run_pres _ (StaysDead_Frame b)).
  - intros enemy.
    apply (Player_check_collision_frame _ (StaysDead_Frame b));
      intros; intros H; simpl; tauto.
  - apply Bullet_move_StaysDead.
  - apply Bullet_new_StaysDead.
Qed.


(** * Whole ticks and whole runs *)

(** ** The update loop on a collection without duplicates *)

Ltac splits := repeat match goal with |- _ /\ _ => split end.

Lemma update_frame_refl g : update_frame g g.
Proof.
  unfold update_frame. splits; try lia; try tauto.
  exists 0%nat. simpl. by rewrite app_nil_r.
Qed.

Lemma update_frame_trans g1 g2 g3 :
  update_frame g1 g2 -> update_frame g2 g3 -> update_frame g1 g3.
Proof.
  unfold update_frame.
  intros (?&?&?&?&?&?&?&?&?&?&(k1&E1)) (?&?&?&?&?&?&?&?&?&?&(k2&E2)).
  splits; try congruence; try lia; try tauto.
  exists (k1 + k2)%nat. rewrite E2, E1, replicate_add, app_assoc.
  reflexivity.
Qed.

Lemma Enemy_stepped_frame (g : Game) (e : nat) :
  update_frame g (Enemy_stepped e g)
  /\ enemies (Enemy_stepped e g) = enemies g
  /\ (forall e', e' <> e -> collides (Enemy_stepped e g) e' = collides g e').
Proof.
  unfold Enemy_stepped, Enemy_move_towards, collides. unfold_monad. simpl.
  split.
  { unfold update_frame, Sync; simpl; splits; try lia; try tauto.
    exists 0%nat. simpl. by rewrite app_nil_r. }
  split; [reflexivity |].
  intros e' Hne. rewrite !decide_False by exact Hne. reflexivity.
Qed.

Lemma Game_update_hit_frame (g : Game) (e : nat) (kept rest : list nat) :
  enemies g = kept ++ e :: rest -> e ∉ kept ->
  let g' := exec (Game_update_hit e) g in
  outcome (Game_update_hit e) g = Ok tt
  /\ update_frame g g'
  /\ enemies g' = kept ++ rest
  /\ (forall e', collides g' e' = collides g e').
Proof.
  intros Hl He.
  unfold Game_update_hit, Player_hit, Game_update_lives, Game_game_over,
    Game_remove_enemy, Game_update_score, collides.
  unfold_monad. simpl.
  destruct (p_health (player g) - 1 <=? 0)%Z; simpl;
    rewrite Hl, list_remove_app by exact He; simpl;
    (split; [reflexivity |]);
    (split; [unfold update_frame, Sync; simpl;
             rewrite ?Hl, ?length_app; simpl length;
             splits; try lia; try tauto;
             try (intros (S1 & S2 & S3 & S4 & S5); splits; congruence) |]);
    try (split; [reflexivity |]); try (intros e'; reflexivity).
  - exists 1%nat. reflexivity.
  - exists 0%nat. simpl. by rewrite app_nil_r.
Qed.

Lemma Game_update_loop_spec (l : list nat) :
  forall (kept : list nat) (g : Game),
  enemies g = kept ++ l -> NoDup (kept ++ l) ->
  (forall e, e ∈ kept -> collides g e = false) ->
  let g' := exec (Game_update_loop l) g in
  outcome (Game_update_loop l) g = Ok tt
  /\ update_frame g g'
  /\ enemies g' `sublist_of` kept ++ l
  /\ (forall e, e ∈ enemies g' -> collides g' e = false).
Proof.
  induction l as [| e rest IH]; intros kept g Hl Hnd Hk; cbv zeta.
  - rewrite app_nil_r in Hl. simpl. unfold_monad. simpl.
    split; [reflexivity |]. split; [apply update_frame_refl |].
    rewrite app_nil_r, Hl. split; [reflexivity |].
    intros e He. apply Hk. exact He.
  - assert (He : e ∉ kept).
    { apply NoDup_app in Hnd as (_ & Hd & _). intros Hin.
      apply (Hd e Hin). left. }
    destruct (Enemy_stepped_frame g e) as (Hf & Hen & Hc).
    destruct (collides (Enemy_stepped e g) e) eqn:Hhit.
    + assert (Hl' : enemies (Enemy_stepped e g) = kept ++ e :: rest)
        by (rewrite Hen; exact Hl).
      destruct (Game_update_hit_frame _ e kept rest Hl' He)
        as (Hok & Hf2 & Hen2 & Hc2).
      cbv zeta in Hok, Hf2, Hen2, Hc2.
      unfold outcome, exec.
      rewrite Game_update_loop_hit_ok by assumption.
      assert (Hnd' : NoDup (kept ++ rest)).
      { apply NoDup_app in Hnd as (H1 & H2 & H3).
        apply NoDup_cons in H3 as [_ H3].
        apply NoDup_app. split; [exact H1 |]. split; [| exact H3].
        intros x Hx Hx'. apply (H2 x Hx). right. exact Hx'. }
      destruct (IH kept _ Hen2 Hnd') as (A & B & C & D).
      { intros x Hx. rewrite Hc2, Hc; [apply Hk; exact Hx |].
        intros ->. exact (He Hx). }
      cbv zeta in A, B, C, D. unfold outcome, exec in A, B, C, D.
      split; [exact A |].
      split; [eapply update_frame_trans; [exact Hf |];
              eapply update_frame_trans; [exact Hf2 | exact B] |].
      split; [| exact D].
      etransitivity; [exact C |].
      apply sublist_app; [reflexivity |]. apply sublist_cons. reflexivity.
    + unfold outcome, exec.
      rewrite Game_update_loop_miss by assumption.
      assert (Hl' : enemies (Enemy_stepped e g) = (kept ++ [e]) ++ rest).
      { rewrite Hen, Hl, <- app_assoc. reflexivity. }
      assert (Hnd' : NoDup ((kept ++ [e]) ++ rest)).
      { rewrite <- app_assoc. exact Hnd. }
      destruct (IH (kept ++ [e]) _ Hl' Hnd') as (A & B & C & D).
      { intros x Hx. apply elem_of_app in Hx as [Hx | Hx].
        - rewrite Hc; [apply Hk; exact Hx |]. intros ->. exact (He Hx).
        - apply list_elem_of_singleton in Hx as ->. exact Hhit. }
      cbv zeta in A, B, C, D. unfold outcome, exec in A, B, C, D.
      split; [exact A |].
      split; [eapply update_frame_trans; [exact Hf | exact B] |].
      split; [| exact D].
      rewrite <- app_assoc in C. exact C.
Qed.

Lemma Game_update_moved_frame (g : Game) :
  let gm := Game_update_moved g in
  enemies gm = enemies g /\ score gm = score g /\ bullets gm = bullets g
  /\ bullet_obj gm = bullet_obj g /\ next_bullet gm = next_bullet g
  /\ next_enemy gm = next_enemy g /\ root gm = root g
  /\ p_health (player gm) = p_health (player g)
  /\ p_speed (player gm) = p_speed (player g)
  /\ (Sync g -> Sync gm).
Proof. unfold Sync. cbv zeta. splits; try reflexivity; tauto. Qed.

(** One tick of [Game.update] in a running game whose enemy collection
    holds no reference twice. *)
Lemma Game_update_running_spec (g : Game) :
  is_game_over g = false -> NoDup (enemies g) ->
  let g' := exec Game_update g in
  let dx := (Z.b2z (bool_decide ("d" ∈ pressed_keys g))
             - Z.b2z (bool_decide ("a" ∈ pressed_keys g)))%Z in
  let dy := (Z.b2z (bool_decide ("s" ∈ pressed_keys g))
             - Z.b2z (bool_decide ("w" ∈ pressed_keys g)))%Z in
  outcome Game_update g = Ok tt
  /\ p_x (player g') = (p_x (player g) + IZR dx * p_speed (player g))%R
  /\ p_y (player g') = (p_y (player g) + IZR dy * p_speed (player g))%R
  /\ enemies g' `sublist_of` enemies g
  /\ (forall e, e ∈ enemies g' ->
        (20 <= dist (p_x (player g')) (p_y (player g'))
                 (e_x (enemy_obj g' e)) (e_y (enemy_obj g' e)))%R)
  /\ (p_health (player g')
      = p_health (player g)
        - (Z.of_nat (length (enemies g)) - Z.of_nat (length (enemies g'))))%Z
  /\ (exists k, timers (root g')
        = timers (root g) ++ replicate k (5000%Z, cb_show_close_message)
          ++ [(50%Z, cb_update)])
  /\ score g' = score g /\ next_enemy g' = next_enemy g
  /\ bullets g' = bullets g /\ bullet_obj g' = bullet_obj g
  /\ next_bullet g' = next_bullet g
  /\ (Sync g -> Sync g').
Proof.
  intros Ho Hnd. cbv zeta. unfold outcome, exec.
  rewrite Game_update_running by exact Ho.
  destruct (Game_update_moved_frame g)
    as (M1 & M2 & M3 & M4 & M5 & M6 & M7 & M8 & M9 & M10).
  cbv zeta in M1, M2, M3, M4, M5, M6, M7, M8, M9, M10.
  assert (Mx : p_x (player (Game_update_moved g))
               = (p_x (player g)
                  + IZR (Z.b2z (bool_decide ("d" ∈ pressed_keys g))
                         - Z.b2z (bool_decide ("a" ∈ pressed_keys g)))
                    * p_speed (player g))%R) by reflexivity.
  assert (My : p_y (player (Game_update_moved g))
               = (p_y (player g)
                  + IZR (Z.b2z (bool_decide ("s" ∈ pressed_keys g))
                         - Z.b2z (bool_decide ("w" ∈ pressed_keys g)))
                    * p_speed (player g))%R) by reflexivity.
  set (gm := Game_update_moved g) in *. clearbody gm.
  assert (Hen : enemies gm = [] ++ enemies g) by exact M1.
  destruct (Game_update_loop_spec (enemies g) [] gm Hen Hnd)
    as (A & B & C & D).
  { intros e He. exfalso. exact (proj1 (elem_of_nil e) He). }
  cbv zeta in A, B, C, D. unfold outcome, exec in A, B, C, D.
  destruct B as (B1 & B2 & B3 & B4 & B5 & B6 & B7 & B8 & B9 & B10 & (k & B11)).
  unfold bind.
  destruct (Game_update_loop (enemies g) gm) as [[[] | x] gl];
    simpl in A, B1, B2, B3, B4, B5, B6, B7, B8, B9, B10, B11, C, D;
    [| discriminate].
  unfold after, modify. simpl.
  split; [reflexivity |].
  split; [rewrite B1; exact Mx |]. split; [rewrite B2; exact My |].
  split; [exact C |].
  split.
  { intros e He. apply Rltb_false. rewrite <- hypot_dist. apply (D e He). }
  split; [rewrite M1, M8 in B9; lia |].
  split; [exists k; rewrite B11, M7, <- app_assoc; reflexivity |].
  split; [congruence |]. split; [congruence |]. split; [congruence |].
  split; [congruence |]. split; [congruence |].
  unfold Sync in *. simpl. tauto.
Qed.

(** ** One tick of a bullet *)

Lemma bullet_frame_refl (g : Game) : bullet_frame g g.
Proof. unfold bullet_frame. splits; try reflexivity. tauto. Qed.

Lemma bullet_frame_trans (g1 g2 g3 : Game) :
  bullet_frame g1 g2 -> bullet_frame g2 g3 -> bullet_frame g1 g3.
Proof.
  unfold bullet_frame. intros (?&?&?&?&?) (?&?&?&?&?).
  splits; try congruence. tauto.
Qed.

Lemma bullet_tick_refl (self : nat) (g : Game) : bullet_tick self g g.
Proof.
  unfold bullet_tick. split; [reflexivity |]. split; [reflexivity |].
  left. split; [reflexivity |]. split; [reflexivity |].
  exists false. by rewrite app_nil_r.
Qed.

Lemma hit_or_miss_frame (g1 g2 g3 : Game) :
  enemies g2 = enemies g1 -> score g2 = score g1 ->
  hit_or_miss g2 g3 -> hit_or_miss g1 g3.
Proof. unfold hit_or_miss. intros -> ->. tauto. Qed.

Lemma Game_remove_bullet_spec (g : Game) (b : nat) :
  let g' := exec (Game_remove_bullet b) g in
  outcome (Game_remove_bullet b) g = Ok tt
  /\ enemies g' = enemies g /\ score g' = score g /\ bullet_frame g g'
  /\ bullet_tick b g g' /\ root g' = root g.
Proof.
  cbv zeta. destruct (decide (b ∈ bullets g)) as [Hb | Hb].
  - destruct (list_remove_Some _ _ Hb) as (r & Hr & _).
    unfold Game_remove_bullet, bullet_frame, bullet_tick, Sync.
    unfold_monad. rewrite bool_decide_eq_true_2 by exact Hb.
    simpl. rewrite Hr. simpl. decide_eq. simpl.
    splits; try reflexivity.
    + tauto.
    + intros b' Hb'. decide_eq. reflexivity.
    + right. splits; try reflexivity. exact Hb.
  - unfold outcome, exec.
    rewrite Game_remove_bullet_not_member by exact Hb. simpl.
    splits; try reflexivity;
      [apply bullet_frame_refl | apply bullet_tick_refl].
Qed.

Lemma Bullet_hit_spec (g : Game) (self e : nat) :
  e ∈ enemies g ->
  let g' := exec (Bullet_hit self e) g in
  outcome (Bullet_hit self e) g = Ok tt
  /\ list_remove e (enemies g) = Some (enemies g')
  /\ score g' = (score g + 1)%Z /\ bullet_frame g g'
  /\ bullet_tick self g g' /\ root g' = root g.
Proof.
  intros He. destruct (list_remove_Some _ _ He) as (r & Hr & _).
  unfold Bullet_hit, Game_remove_enemy, Game_remove_bullet,
    Game_update_score, bullet_frame, bullet_tick, Sync.
  unfold_monad. simpl. rewrite Hr. simpl.
  destruct (decide (self ∈ bullets g)) as [Hb | Hb].
  - rewrite bool_decide_eq_true_2 by exact Hb. simpl.
    destruct (list_remove_Some _ _ Hb) as (r' & Hr' & _).
    rewrite Hr'. simpl. decide_eq. simpl.
    splits; try reflexivity.
    + intros (S1 & S2 & S3). split; [reflexivity | split; assumption].
    + intros b' Hb'. decide_eq. reflexivity.
    + right. splits; try reflexivity. exact Hb.
  - rewrite bool_decide_eq_false_2 by exact Hb. simpl.
    splits; try reflexivity.
    + intros (S1 & S2 & S3). split; [reflexivity | split; assumption].
    + left. splits; try reflexivity. exists false. by rewrite app_nil_r.
Qed.

Lemma Bullet_check_collision_loop_spec (self : nat) (l : list nat) (g : Game) :
  (forall e, e ∈ l -> e ∈ enemies g) ->
  let g' := exec (Bullet_check_collision_loop self l) g in
  outcome (Bullet_check_collision_loop self l) g = Ok tt
  /\ hit_or_miss g g' /\ bullet_frame g g'
  /\ bullet_tick self g g' /\ root g' = root g.
Proof.
  induction l as [| e l IH]; intros Hl; cbv zeta.
  - simpl. unfold_monad. simpl.
    split; [reflexivity |]. split; [left; split; reflexivity |].
    split; [apply bullet_frame_refl |].
    split; [apply bullet_tick_refl | reflexivity].
  - destruct (in_radius g self e) eqn:Hr.
    + unfold outcome, exec.
      assert (Hh : Bullet_check_collision_loop self (e :: l) g
                   = Bullet_hit self e g).
      { apply (Bullet_check_collision_loop_hit g self [] e l);
          [intros e' He'; exfalso; exact (proj1 (elem_of_nil e') He')
          | exact Hr]. }
      rewrite Hh.
      assert (He : e ∈ enemies g) by (apply Hl; left).
      destruct (Bullet_hit_spec g self e He) as (A & B & C & D & E & F).
      split; [exact A |].
      split; [| split; [exact D | split; [exact E | exact F]]].
      right. exists e. split; [exact He |]. split; [exact B | exact C].
    + assert (Hs : Bullet_check_collision_loop self (e :: l) g
                   = Bullet_check_collision_loop self l g).
      { simpl. unfold Enemy_is_hit. unfold_monad.
        unfold in_radius in Hr. rewrite Hr. reflexivity. }
      unfold outcome, exec. rewrite Hs. apply IH.
      intros e' He'. apply Hl. right. exact He'.
Qed.

Lemma Bullet_is_in_bounds_eq (g : Game) (self : nat) :
  Bullet_is_in_bounds self g
  = (Ok (Rleb 0 (b_x (bullet_obj g self))
         && Rleb (b_x (bullet_obj g self)) (IZR (winfo_width (canvas g)))
         && Rleb 0 (b_y (bullet_obj g self))
         && Rleb (b_y (bullet_obj g self)) (IZR (winfo_height (canvas g)))),
     g).
Proof. reflexivity. Qed.

Lemma Bullet_after_step_eq (gs : Game) (self : nat) (inb : bool) :
  Bullet_is_in_bounds self gs = (Ok inb, gs) ->
  Bullet_after_step self gs
  = (if negb inb then Game_remove_bullet self
     else
       Bullet_check_collision_loop self (enemies gs) ;;
       g <- get ;;
       if b_alive (bullet_obj g self) then after 50 (cb_bullet_move self)
       else ret tt) gs.
Proof.
  intros Hinb. unfold Bullet_after_step. unfold bind at 1. rewrite Hinb.
  destruct (negb inb); reflexivity.
Qed.

Lemma Bullet_after_step_spec (gs : Game) (self : nat) :
  let g' := exec (Bullet_after_step self) gs in
  outcome (Bullet_after_step self) gs = Ok tt
  /\ hit_or_miss gs g' /\ bullet_frame gs g' /\ bullet_tick self gs g'.
Proof.
  cbv zeta. unfold outcome, exec.
  rewrite (Bullet_after_step_eq gs self _ (Bullet_is_in_bounds_eq gs self)).
  destruct (negb _).
  - destruct (Game_remove_bullet_spec gs self) as (A & B & C & D & E & _).
    split; [exact A |].
    split; [left; split; [exact B | exact C] |].
    split; [exact D | exact E].
  - destruct (Bullet_check_collision_loop_spec self (enemies gs) gs)
      as (A & B & C & D & E); [tauto |].
    cbv zeta in A, B, C, D, E. unfold outcome, exec in A, B, C, D, E.
    unfold bind, get.
    destruct (Bullet_check_collision_loop self (enemies gs) gs)
      as [[[] | x] gc]; simpl in A, B, C, D, E; [| discriminate].
    destruct (b_alive (bullet_obj gc self)) eqn:Ha;
      unfold after, modify, ret; simpl.
    + split; [reflexivity |]. split; [exact B |].
      split.
      { unfold bullet_frame, Sync in *. simpl. exact C. }
      destruct D as (D1 & D2 & [(D3 & D4 & _) | (_ & _ & D5 & _)]);
        [| congruence].
      unfold bullet_tick. simpl.
      split; [exact D1 |]. split; [exact D2 |]. left.
      split; [exact D3 |]. split; [exact D4 |].
      exists true. rewrite E. reflexivity.
    + split; [reflexivity |]. split; [exact B |]. split; [exact C |].
      exact D.
Qed.

Lemma Bullet_step_frame (g : Game) (self : nat) :
  let gs := Bullet_step self g in
  enemies gs = enemies g /\ score gs = score g
  /\ bullet_frame g gs
  /\ next_bullet gs = next_bullet g
  /\ (forall b, b <> self -> bullet_obj gs b = bullet_obj g b)
  /\ bullets gs = bullets g
  /\ b_alive (bullet_obj gs self) = b_alive (bullet_obj g self)
  /\ root gs = root g.
Proof.
  cbv zeta. rewrite Bullet_step_obj.
  unfold Bullet_step, bullet_frame, Sync. simpl.
  splits; try reflexivity; try tauto.
  intros b Hb. decide_eq. reflexivity.
Qed.

(** [Bullet.move] returns normally in every state. *)
Lemma Bullet_move_spec (g : Game) (self : nat) :
  let g' := exec (Bullet_move self) g in
  outcome (Bullet_move self) g = Ok tt
  /\ hit_or_miss g g' /\ bullet_frame g g' /\ bullet_tick self g g'.
Proof.
  cbv zeta.
  assert (Hidle : Bullet_move self g = (Ok tt, g) ->
    outcome (Bullet_move self) g = Ok tt
    /\ hit_or_miss g (exec (Bullet_move self) g)
    /\ bullet_frame g (exec (Bullet_move self) g)
    /\ bullet_tick self g (exec (Bullet_move self) g)).
  { intros E. unfold outcome, exec. rewrite E. simpl.
    split; [reflexivity |]. split; [left; split; reflexivity |].
    split; [apply bullet_frame_refl | apply bullet_tick_refl]. }
  destruct (b_alive (bullet_obj g self)) eqn:Ha;
    [| apply Hidle, Bullet_move_dead; exact Ha].
  destruct (is_game_over g) eqn:Ho;
    [apply Hidle, Bullet_move_over; exact Ho |].
  clear Hidle. unfold outcome, exec.
  rewrite Bullet_move_running by assumption.
  destruct (Bullet_step_frame g self) as (S1 & S2 & S3 & S4 & S5 & S6 & S7 & S8).
  cbv zeta in S1, S2, S3, S4, S5, S6, S7, S8.
  destruct (Bullet_after_step_spec (Bullet_step self g) self)
    as (A & B & C & D).
  cbv zeta in A, B, C, D. unfold outcome, exec in A, B, C, D.
  set (gs := Bullet_step self g) in *. clearbody gs.
  split; [exact A |].
  split; [apply (hit_or_miss_frame g gs); assumption |].
  split; [eapply bullet_frame_trans; [exact S3 | exact C] |].
  destruct D as (D1 & D2 & D3). unfold bullet_tick.
  split; [congruence |].
  split; [intros b Hb; rewrite D2, S5 by exact Hb; reflexivity |].
  rewrite <- S6, <- S7, <- S8. exact D3.
Qed.

(** ** One shot *)

Lemma Game_shoot_continuously_idle (g : Game) :
  is_game_over g = true \/ mouse_x g = None \/ mouse_y g = None ->
  Game_shoot_continuously g = after 500 cb_shoot_continuously g.
Proof.
  intros H. unfold Game_shoot_continuously. unfold_monad.
  destruct (is_game_over g); [reflexivity |].
  destruct (mouse_x g); [| reflexivity].
  destruct (mouse_y g); [| reflexivity].
  destruct H as [H | [H | H]]; discriminate.
Qed.

Lemma Bullet_new_frame_spec (g : Game) (sx sy tx ty : R) :
  let gb := exec (Bullet_new sx sy tx ty) g in
  enemies gb = enemies g /\ score gb = score g /\ bullet_frame g gb
  /\ bullets gb = bullets g /\ next_bullet gb = S (next_bullet g)
  /\ b_alive (bullet_obj gb (next_bullet g)) = true
  /\ (forall b, b <> next_bullet g -> bullet_obj gb b = bullet_obj g b)
  /\ root gb = root g.
Proof.
  cbv zeta. unfold Bullet_new, bullet_frame, Sync. unfold_monad. simpl.
  decide_eq. splits; try reflexivity; try tauto.
  intros b Hb. decide_eq. reflexivity.
Qed.

(** A shot in a running game whose mouse position is known, when every
    registered bullet exists. *)
Lemma Game_shoot_continuously_fires_spec (g : Game) (mx my : Z) :
  is_game_over g = false -> mouse_x g = Some mx -> mouse_y g = Some my ->
  (forall b, b ∈ bullets g -> (b < next_bullet g)%nat) ->
  let nb := next_bullet g in
  let g' := exec Game_shoot_continuously g in
  outcome Game_shoot_continuously g = Ok tt
  /\ bullets g' = bullets g ++ [nb] /\ next_bullet g' = S nb
  /\ b_alive (bullet_obj g' nb) = true
  /\ (forall b, b <> nb -> bullet_obj g' b = bullet_obj g b)
  /\ (exists sched : bool,
        timers (root g')
        = timers (root g)
          ++ (if sched then [(50%Z, cb_bullet_move nb)] else [])
          ++ [(500%Z, cb_shoot_continuously)])
  /\ hit_or_miss g g' /\ bullet_frame g g'.
Proof.
  intros Ho Hx Hy Hfresh. cbv zeta. unfold outcome, exec.
  rewrite (Game_shoot_continuously_running g mx my) by assumption.
  cbv zeta.
  destruct (Bullet_new_frame_spec g (p_x (player g)) (p_y (player g))
              (IZR mx) (IZR my))
    as (N1 & N2 & N3 & N4 & N5 & N6 & N7 & N8).
  cbv zeta in N1, N2, N3, N4, N5, N6, N7, N8.
  set (gb := exec (Bullet_new _ _ _ _) g) in *. clearbody gb.
  destruct (Bullet_move_spec gb (next_bullet g)) as (A & B & C & D).
  cbv zeta in A, B, C, D. unfold outcome, exec in A, B, C, D.
  unfold bind.
  destruct (Bullet_move (next_bullet g) gb) as [[[] | x] gm];
    simpl in A, B, C, D; [| discriminate].
  unfold after, modify. simpl.
  destruct D as (D1 & D2 & [(D3 & D4 & (sched & D5)) | (D3 & _)]); cycle 1.
  { exfalso. rewrite N4 in D3. specialize (Hfresh _ D3). lia. }
  split; [reflexivity |].
  split; [rewrite D3, N4; reflexivity |].
  split; [congruence |].
  split; [congruence |].
  split; [intros b Hb; rewrite D2, N7 by exact Hb; reflexivity |].
  split; [exists sched; rewrite D5, N8, <- app_assoc; reflexivity |].
  split; [apply (hit_or_miss_frame g gb); assumption |].
  pose proof (bullet_frame_trans _ _ _ N3 C) as F.
  unfold bullet_frame, Sync in *. simpl. exact F.
Qed.

(** [Game.shoot_continuously] returns normally in every state. *)
Lemma Game_shoot_continuously_spec (g : Game) :
  let g' := exec Game_shoot_continuously g in
  outcome Game_shoot_continuously g = Ok tt
  /\ hit_or_miss g g' /\ bullet_frame g g'.
Proof.
  cbv zeta.
  assert (Hidle : is_game_over g = true \/ mouse_x g = None
                  \/ mouse_y g = None ->
          outcome Game_shoot_continuously g = Ok tt
          /\ hit_or_miss g (exec Game_shoot_continuously g)
          /\ bullet_frame g (exec Game_shoot_continuously g)).
  { intros H. unfold outcome, exec.
    rewrite (Game_shoot_continuously_idle g H). unfold after, modify. simpl.
    split; [reflexivity |]. split; [left; split; reflexivity |].
    unfold bullet_frame, Sync. simpl. splits; try reflexivity. tauto. }
  destruct (is_game_over g) eqn:Ho; [apply Hidle; left; reflexivity |].
  destruct (mouse_x g) as [mx |] eqn:Hx;
    [| apply Hidle; right; left; reflexivity].
  destruct (mouse_y g) as [my |] eqn:Hy;
    [| apply Hidle; right; right; reflexivity].
  clear Hidle. unfold outcome, exec.
  rewrite (Game_shoot_continuously_running g mx my) by assumption.
  cbv zeta.
  destruct (Bullet_new_frame_spec g (p_x (player g)) (p_y (player g))
              (IZR mx) (IZR my))
    as (N1 & N2 & N3 & _).
  cbv zeta in N1, N2, N3.
  set (gb := exec (Bullet_new _ _ _ _) g) in *. clearbody gb.
  destruct (Bullet_move_spec gb (next_bullet g)) as (A & B & C & _).
  cbv zeta in A, B, C. unfold outcome, exec in A, B, C.
  unfold bind.
  destruct (Bullet_move (next_bullet g) gb) as [[[] | x] gm];
    simpl in A, B, C; [| discriminate].
  unfold after, modify. simpl.
  split; [reflexivity |].
  split; [apply (hit_or_miss_frame g gb); assumption |].
  pose proof (bullet_frame_trans _ _ _ N3 C) as F.
  unfold bullet_frame, Sync in *. simpl. exact F.
Qed.

(** ** Spawning *)

Lemma Game_spawn_enemy_spec (g : Game) :
  let n := next_enemy g in
  let g' := exec Game_spawn_enemy g in
  Game_spawn_enemy g = (Ok tt, g')
  /\ enemies g' = enemies g ++ [n] /\ next_enemy g' = S n
  /\ spawned (enemy_obj g' n)
  /\ (forall e, e <> n -> enemy_obj g' e = enemy_obj g e)
  /\ random_pos g' = S (S (random_pos g))
  /\ spawn_frame g g'.
Proof.
  cbv zeta. unfold Game_spawn_enemy, randint, Enemy_init, spawn_frame, Sync.
  unfold_monad. simpl.
  split; [reflexivity |]. split; [reflexivity |]. split; [reflexivity |].
  split.
  { rewrite decide_True by reflexivity. unfold spawned. simpl.
    eexists. eexists. split; [| split; [| splits; reflexivity]].
    - pose proof (Z.mod_pos_bound (random_stream g (random_pos g))
                    (750 - 50 + 1)). lia.
    - pose proof (Z.mod_pos_bound (random_stream g (S (random_pos g)))
                    (550 - 50 + 1)). lia. }
  split; [| splits; try reflexivity; tauto].
  intros e He. rewrite decide_False by exact He. reflexivity.
Qed.

Lemma spawn_frame_trans (g1 g2 g3 : Game) :
  spawn_frame g1 g2 -> spawn_frame g2 g3 -> spawn_frame g1 g3.
Proof.
  unfold spawn_frame.
  intros (?&?&?&?&?&?&?&?&?) (?&?&?&?&?&?&?&?&?).
  splits; try congruence. tauto.
Qed.

(** [Game.spawn_enemies(count)], from any state. *)
Lemma Game_spawn_enemies_spec (count : nat) :
  forall g : Game,
  let n := next_enemy g in
  let g' := exec (Game_spawn_enemies count) g in
  outcome (Game_spawn_enemies count) g = Ok tt
  /\ enemies g' = enemies g ++ seq n count
  /\ next_enemy g' = (n + count)%nat
  /\ (forall e, (n <= e < n + count)%nat -> spawned (enemy_obj g' e))
  /\ (forall e, (e < n)%nat -> enemy_obj g' e = enemy_obj g e)
  /\ random_pos g' = (random_pos g + 2 * count)%nat
  /\ spawn_frame g g'.
Proof.
  induction count as [| c IH]; intros g; cbv zeta.
  - simpl. unfold_monad. simpl. rewrite app_nil_r, !Nat.add_0_r.
    unfold spawn_frame. splits; try reflexivity; try tauto.
    intros e He. lia.
  - destruct (Game_spawn_enemy_spec g) as (E & A1 & A2 & A3 & A4 & A5 & A6).
    cbv zeta in E, A1, A2, A3, A4, A5, A6.
    set (g1 := exec Game_spawn_enemy g) in *.
    assert (Es : Game_spawn_enemies (S c) g = Game_spawn_enemies c g1).
    { simpl. unfold bind. rewrite E. reflexivity. }
    unfold outcome, exec. rewrite Es. clearbody g1.
    destruct (IH g1) as (B0 & B1 & B2 & B3 & B4 & B5 & B6).
    cbv zeta in B0, B1, B2, B3, B4, B5, B6. unfold outcome, exec in *.
    rewrite A2 in B1, B2, B3, B4.
    split; [exact B0 |].
    split; [rewrite B1, A1, <- app_assoc; reflexivity |].
    split; [rewrite B2; lia |].
    split.
    { intros e He. destruct (decide (e = next_enemy g)) as [-> | Hne].
      - rewrite B4 by lia. exact A3.
      - apply B3. lia. }
    split.
    { intros e He. rewrite B4 by lia. apply A4. lia. }
    split; [rewrite B5, A5; lia |].
    eapply spawn_frame_trans; eassumption.
Qed.

Lemma after_frame (ms : Z) (cb : Callback) (g : Game) :
  let g' := exec (after ms cb) g in
  enemies g' = enemies g /\ next_enemy g' = next_enemy g
  /\ score g' = score g /\ enemy_obj g' = enemy_obj g
  /\ bullets g' = bullets g /\ bullet_obj g' = bullet_obj g
  /\ next_bullet g' = next_bullet g /\ is_game_over g' = is_game_over g
  /\ player g' = player g /\ canvas g' = canvas g
  /\ timers (root g') = timers (root g) ++ [(ms, cb)].
Proof. cbv zeta. splits; reflexivity. Qed.

Lemma after_Sync (ms : Z) (cb : Callback) (g : Game) :
  Sync g -> Sync (exec (after ms cb) g).
Proof. unfold Sync. simpl. tauto. Qed.

Lemma Game_spawn_enemies_periodically_eq (g : Game) :
  is_game_over g = false ->
  outcome Game_spawn_enemies_periodically g = Ok tt
  /\ exec Game_spawn_enemies_periodically g
     = exec (after 5000 cb_spawn_enemies_periodically)
         (exec (Game_spawn_enemies 3) g).
Proof.
  intros Ho. destruct (Game_spawn_enemies_spec 3 g) as (A & _).
  unfold outcome, exec in *. unfold Game_spawn_enemies_periodically.
  remember (Game_spawn_enemies 3) as sp eqn:Hsp.
  unfold bind at 1 3, get. rewrite Ho. cbv beta iota.
  change (negb false) with true. cbv beta iota.
  unfold bind. destruct (sp g) as [[[] | x] g3]; simpl in A; [| discriminate].
  split; reflexivity.
Qed.

(** One tick of [Game.spawn_enemies_periodically] in a running game. *)
Lemma Game_spawn_enemies_periodically_spec (g : Game) :
  is_game_over g = false ->
  let n := next_enemy g in
  let g' := exec Game_spawn_enemies_periodically g in
  outcome Game_spawn_enemies_periodically g = Ok tt
  /\ enemies g' = enemies g ++ [n; S n; S (S n)]
  /\ next_enemy g' = (n + 3)%nat
  /\ (forall e, (n <= e < n + 3)%nat -> spawned (enemy_obj g' e))
  /\ (forall e, (e < n)%nat -> enemy_obj g' e = enemy_obj g e)
  /\ timers (root g')
     = timers (root g) ++ [(5000%Z, cb_spawn_enemies_periodically)]
  /\ player g' = player g /\ is_game_over g' = is_game_over g
  /\ score g' = score g /\ bullets g' = bullets g
  /\ bullet_obj g' = bullet_obj g /\ next_bullet g' = next_bullet g
  /\ (Sync g -> Sync g').
Proof.
  intros Ho. cbv zeta.
  destruct (Game_spawn_enemies_periodically_eq g Ho) as [E0 E1].
  split; [exact E0 |]. rewrite E1.
  destruct (Game_spawn_enemies_spec 3 g) as (_ & B & C & D & E & _ & F).
  cbv zeta in B, C, D, E, F.
  set (g3 := exec (Game_spawn_enemies 3) g) in *. clearbody g3.
  destruct (after_frame 5000 cb_spawn_enemies_periodically g3)
    as (F1 & F2 & F3 & F4 & F5 & F6 & F7 & F8 & F9 & F10 & F11).
  cbv zeta in F1, F2, F3, F4, F5, F6, F7, F8, F9, F10, F11.
  destruct F as (G1 & G2 & G3 & G4 & G5 & G6 & G7 & G8 & G9).
  rewrite F1, F2, F3, F4, F5, F6, F7, F8, F9, F11.
  splits; try congruence.
  - exact B.
  - exact D.
  - exact E.
  - intros Hs. apply after_Sync, G9, Hs.
Qed.

(** ** Counting timers *)

Lemma count_in_nil (cb : Callback) : count_in cb [] = 0%nat.
Proof. reflexivity. Qed.

Lemma count_in_cons (cb : Callback) (t : Z * Callback) l :
  count_in cb (t :: l)
  = ((if decide (t.2 = cb) then 1 else 0) + count_in cb l)%nat.
Proof.
  unfold count_in. rewrite filter_cons.
  destruct (decide (t.2 = cb)); reflexivity.
Qed.

Lemma count_in_app (cb : Callback) l1 l2 :
  count_in cb (l1 ++ l2) = (count_in cb l1 + count_in cb l2)%nat.
Proof. unfold count_in. by rewrite filter_app, length_app. Qed.

Lemma count_in_replicate (cb : Callback) (k : nat) (t : Z * Callback) :
  t.2 <> cb -> count_in cb (replicate k t) = 0%nat.
Proof.
  intros H. induction k as [| k IH]; [reflexivity |].
  simpl replicate. rewrite count_in_cons, IH.
  rewrite decide_False by exact H. reflexivity.
Qed.

Lemma count_timers_take (c cb : Callback) (g : Game) (n : nat) (ms : Z) :
  timers (root g) !! n = Some (ms, cb) ->
  count_timers c g
  = ((if decide (cb = c) then 1 else 0) + count_timers c (take_timer n g))%nat.
Proof.
  intros H. unfold count_timers. fold (count_in c (timers (root g))).
  fold (count_in c (timers (root (take_timer n g)))).
  rewrite <- (take_drop_middle _ _ _ H) at 1.
  change (timers (root (take_timer n g)))
    with (take n (timers (root g)) ++ drop (S n) (timers (root g))).
  rewrite !count_in_app, count_in_cons. simpl. lia.
Qed.

Lemma count_timers_app (c : Callback) (g g' : Game) add :
  timers (root g') = timers (root g) ++ add ->
  count_timers c g' = (count_timers c g + count_in c add)%nat.
Proof.
  intros H. unfold count_timers. rewrite H.
  apply (count_in_app c (timers (root g)) add).
Qed.

Ltac count_norm :=
  rewrite ?count_in_app, ?count_in_cons, ?count_in_nil;
  rewrite ?count_in_replicate by (simpl; discriminate);
  simpl snd; repeat case_decide; try congruence; try lia;
  try (exfalso;
       match goal with
       | H : cb_bullet_move _ = cb_bullet_move _ |- _ =>
           injection H; intros; lia
       end).

(** How one fired timer changes the counts. *)
Lemma TimersInv_after (g g' : Game) (cb : Callback) (n : nat) (ms : Z)
    (add : list (Z * Callback)) :
  TimersInv g -> timers (root g) !! n = Some (ms, cb) ->
  timers (root g') = timers (root (take_timer n g)) ++ add ->
  (next_bullet g <= next_bullet g')%nat ->
  (is_game_over g = true -> is_game_over g' = true) ->
  count_in cb_update add
  = (if decide (cb = cb_update)
     then if is_game_over g then 0 else 1 else 0)%nat ->
  count_in cb_shoot_continuously add
  = (if decide (cb = cb_shoot_continuously) then 1 else 0)%nat ->
  count_in cb_spawn_enemies_periodically add
  = (if decide (cb = cb_spawn_enemies_periodically)
     then if is_game_over g then 0 else 1 else 0)%nat ->
  (forall b, (count_in (cb_bullet_move b) add <= 1)%nat) ->
  (forall b, count_in (cb_bullet_move b) add = 1%nat ->
     cb = cb_bullet_move b \/ (next_bullet g <= b < next_bullet g')%nat) ->
  TimersInv g'.
Proof.
  intros (T1 & T2 & T3 & T4 & T5 & T6) Hn Ht Hnb Hov Au As Ap Ab1 Ab2.
  pose proof (fun c => count_timers_take c cb g n ms Hn) as Hc.
  pose proof (fun c => count_timers_app c (take_timer n g) g' add Ht) as Hc'.
  unfold TimersInv.
  rewrite (Hc cb_update) in T1, T4.
  rewrite (Hc cb_shoot_continuously) in T2.
  rewrite (Hc cb_spawn_enemies_periodically) in T3, T4.
  rewrite !Hc', Au, As, Ap.
  split.
  { destruct (decide (cb = cb_update)); destruct (is_game_over g); lia. }
  split.
  { destruct (decide (cb = cb_shoot_continuously)); lia. }
  split.
  { destruct (decide (cb = cb_spawn_enemies_periodically));
      destruct (is_game_over g); lia. }
  split.
  { intros Hrun. destruct (is_game_over g) eqn:Ho.
    - rewrite Hov in Hrun by reflexivity. discriminate.
    - specialize (T4 eq_refl).
      destruct (decide (cb = cb_update));
        destruct (decide (cb = cb_spawn_enemies_periodically)); lia. }
  split.
  - intros b. rewrite Hc'. specialize (T5 b). specialize (Ab1 b).
    pose proof (Ab2 b) as Hb. rewrite (Hc (cb_bullet_move b)) in T5.
    destruct (decide (count_in (cb_bullet_move b) add = 1%nat)) as [H1 | H1];
      [| lia].
    destruct (Hb H1) as [-> | Hfresh].
    + rewrite decide_True in T5 by reflexivity. lia.
    + pose proof (T6 b ltac:(lia)) as H0.
      rewrite (Hc (cb_bullet_move b)) in H0. lia.
  - intros b Hb. rewrite Hc'. pose proof (T6 b ltac:(lia)) as H0.
    rewrite (Hc (cb_bullet_move b)) in H0. specialize (Ab1 b).
    destruct (decide (count_in (cb_bullet_move b) add = 1%nat)) as [H1 | H1];
      [| lia].
    destruct (Ab2 b H1) as [-> | Hfresh]; [| lia].
    rewrite decide_True in H0 by reflexivity. lia.
Qed.

(** ** The invariants of a run *)

Lemma list_remove_sublist (x : nat) (l r : list nat) :
  list_remove x l = Some r -> r `sublist_of` l.
Proof.
  revert r. induction l as [| y l IH]; intros r H; simpl in H; [discriminate |].
  destruct (decide (x = y)).
  - injection H as <-. apply sublist_cons. reflexivity.
  - destruct (list_remove x l) as [r' |]; [| discriminate].
    injection H as <-. apply sublist_skip. apply IH. reflexivity.
Qed.

Lemma list_remove_NoDup (x : nat) (l r : list nat) :
  NoDup l -> list_remove x l = Some r -> x ∉ r.
Proof.
  revert r. induction l as [| y l IH]; intros r Hnd H; simpl in H;
    [discriminate |].
  apply NoDup_cons in Hnd as [Hy Hnd].
  destruct (decide (x = y)) as [-> | Hne].
  - injection H as <-. exact Hy.
  - destruct (list_remove x l) as [r' |]; [| discriminate].
    injection H as <-. intros Hin. apply elem_of_cons in Hin as [? | Hin];
      [congruence |]. exact (IH r' Hnd eq_refl Hin).
Qed.

Lemma EnemiesInv_sublist (g g' : Game) :
  enemies g' `sublist_of` enemies g -> next_enemy g' = next_enemy g ->
  EnemiesInv g -> EnemiesInv g'.
Proof.
  intros Hs Hn [H1 H2]. split.
  - eapply sublist_NoDup; [exact H1 | exact Hs].
  - intros e He. rewrite Hn. apply H2. eapply elem_of_sublist; eassumption.
Qed.

Lemma hit_or_miss_Inv (g g' : Game) :
  hit_or_miss g g' -> bullet_frame g g' ->
  EnemiesInv g -> EnemiesInv g' /\ score_step g g'.
Proof.
  intros [[He Hs] | (e & Hin & Hr & Hs)] (_ & _ & Hn & _) Hi.
  - split; [| left; exact Hs].
    apply (EnemiesInv_sublist g g'); [rewrite He; reflexivity | exact Hn
                                     | exact Hi].
  - split.
    + apply (EnemiesInv_sublist g g');
        [eapply list_remove_sublist; exact Hr | exact Hn | exact Hi].
    + right. split; [exact Hs |].
      destruct (list_remove_Some _ _ Hin) as (r & Hr' & Hlen).
      rewrite Hr in Hr'. injection Hr' as <-. symmetry. exact Hlen.
Qed.

Lemma Game_show_close_message_frame (g : Game) :
  let g' := exec Game_show_close_message g in
  outcome Game_show_close_message g = Ok tt
  /\ enemies g' = enemies g /\ next_enemy g' = next_enemy g
  /\ score g' = score g /\ bullets g' = bullets g
  /\ bullet_obj g' = bullet_obj g /\ next_bullet g' = next_bullet g
  /\ is_game_over g' = is_game_over g /\ root g' = root g
  /\ (Sync g -> Sync g').
Proof.
  cbv zeta. unfold Game_show_close_message, Sync. unfold_monad. simpl.
  splits; try reflexivity. tauto.
Qed.

Lemma Game_show_close_message_player (g : Game) :
  player (exec Game_show_close_message g) = player g.
Proof. reflexivity. Qed.

(** Every callback returns normally when the enemy collection holds no
    reference twice, and keeps it so. *)
Lemma run_callback_safe (cb : Callback) (g : Game) :
  EnemiesInv g ->
  outcome (run_callback cb) g = Ok tt
  /\ EnemiesInv (exec (run_callback cb) g)
  /\ score_step g (exec (run_callback cb) g).
Proof.
  intros Hi. destruct cb as [| | | self |]; simpl run_callback.
  - destruct (is_game_over g) eqn:Ho.
    + unfold outcome, exec. rewrite Game_update_over by exact Ho. simpl.
      split; [reflexivity |]. split; [exact Hi | left; reflexivity].
    + destruct (Game_update_running_spec g Ho (proj1 Hi))
        as (A & _ & _ & B & _ & _ & _ & C & D & _).
      split; [exact A |]. split; [| left; exact C].
      eapply EnemiesInv_sublist; [exact B | exact D | exact Hi].
  - destruct (Game_shoot_continuously_spec g) as (A & B & C).
    split; [exact A |]. apply hit_or_miss_Inv; assumption.
  - destruct (is_game_over g) eqn:Ho.
    + unfold outcome, exec.
      rewrite Game_spawn_enemies_periodically_over by exact Ho. simpl.
      split; [reflexivity |]. split; [exact Hi | left; reflexivity].
    + destruct (Game_spawn_enemies_periodically_spec g Ho)
        as (A & B & C & _ & _ & _ & _ & _ & D & _).
      cbv zeta in A, B, C, D.
      split; [exact A |]. split; [| left; exact D].
      destruct Hi as [H1 H2]. unfold EnemiesInv. rewrite B, C. split.
      * apply NoDup_app. split; [exact H1 |].
        split; [| apply (NoDup_seq (next_enemy g) 3)].
        intros e He He'.
        apply (elem_of_seq (next_enemy g) 3) in He'.
        specialize (H2 e He). lia.
      * intros e He. apply elem_of_app in He as [He | He].
        -- specialize (H2 e He). lia.
        -- apply (elem_of_seq (next_enemy g) 3) in He. lia.
  - destruct (Bullet_move_spec g self) as (A & B & C & _).
    split; [exact A |]. apply hit_or_miss_Inv; assumption.
  - destruct (Game_show_close_message_frame g) as (A & B & C & D & _).
    cbv zeta in A, B, C, D.
    split; [exact A |]. split; [| left; exact D].
    unfold EnemiesInv. rewrite B, C. exact Hi.
Qed.

Lemma run_callback_Sync (cb : Callback) (g : Game) :
  EnemiesInv g -> Sync g -> Sync (exec (run_callback cb) g).
Proof.
  intros Hi Hs. destruct cb as [| | | self |]; simpl run_callback.
  - destruct (is_game_over g) eqn:Ho.
    + unfold exec. rewrite Game_update_over by exact Ho. exact Hs.
    + destruct (Game_update_running_spec g Ho (proj1 Hi))
        as (_ & _ & _ & _ & _ & _ & _ & _ & _ & _ & _ & _ & A).
      exact (A Hs).
  - destruct (Game_shoot_continuously_spec g) as (_ & _ & (_ & _ & _ & _ & A)).
    exact (A Hs).
  - destruct (is_game_over g) eqn:Ho.
    + unfold exec.
      rewrite Game_spawn_enemies_periodically_over by exact Ho. exact Hs.
    + destruct (Game_spawn_enemies_periodically_spec g Ho)
        as (_ & _ & _ & _ & _ & _ & _ & _ & _ & _ & _ & _ & A).
      exact (A Hs).
  - destruct (Bullet_move_spec g self) as (_ & _ & (_ & _ & _ & _ & A) & _).
    exact (A Hs).
  - destruct (Game_show_close_message_frame g)
      as (_ & _ & _ & _ & _ & _ & _ & _ & _ & A).
    exact (A Hs).
Qed.

Lemma run_callback_BulletsInv (cb : Callback) (g : Game) :
  EnemiesInv g -> BulletsInv g -> BulletsInv (exec (run_callback cb) g).
Proof.
  intros Hi [Hnd Hb]. destruct cb as [| | | self |]; simpl run_callback.
  - destruct (is_game_over g) eqn:Ho.
    + unfold exec. rewrite Game_update_over by exact Ho. split; assumption.
    + destruct (Game_update_running_spec g Ho (proj1 Hi))
        as (_ & _ & _ & _ & _ & _ & _ & _ & _ & A & B & C & _).
      cbv zeta in A, B, C. unfold BulletsInv. rewrite A, B, C.
      split; assumption.
  - destruct (is_game_over g) eqn:Ho; [| destruct (mouse_x g) as [mx |] eqn:Hx;
      [destruct (mouse_y g) as [my |] eqn:Hy |]].
    2: {
      destruct (Game_shoot_continuously_fires_spec g mx my Ho Hx Hy)
        as (_ & A & B & C & D & _).
      { intros b Hin. apply (Hb b Hin). }
      cbv zeta in A, B, C, D. unfold BulletsInv. rewrite A, B. split.
      - apply NoDup_app. split; [exact Hnd |]. split; [| apply NoDup_singleton].
        intros b Hin Hin'. apply list_elem_of_singleton in Hin'.
        destruct (Hb b Hin) as [Hlt _]. lia.
      - intros b Hin. apply elem_of_app in Hin as [Hin | Hin].
        + destruct (Hb b Hin) as [Hlt Hal]. split; [lia |].
          rewrite D by lia. exact Hal.
        + apply list_elem_of_singleton in Hin as ->. split; [lia | exact C]. }
    all: unfold exec; rewrite Game_shoot_continuously_idle by tauto;
      split; assumption.
  - destruct (is_game_over g) eqn:Ho.
    + unfold exec.
      rewrite Game_spawn_enemies_periodically_over by exact Ho.
      split; assumption.
    + destruct (Game_spawn_enemies_periodically_spec g Ho)
        as (_ & _ & _ & _ & _ & _ & _ & _ & _ & A & B & C & _).
      cbv zeta in A, B, C. unfold BulletsInv. rewrite A, B, C.
      split; assumption.
  - destruct (Bullet_move_spec g self) as (_ & _ & _ & (A & B & C)).
    unfold BulletsInv. rewrite A.
    destruct C as [(C1 & C2 & _) | (C1 & C2 & C3 & _)].
    + rewrite C1. split; [exact Hnd |]. intros b Hin.
      destruct (Hb b Hin) as [Hlt Hal]. split; [exact Hlt |].
      destruct (decide (b = self)) as [-> | Hne]; [congruence |].
      rewrite B by exact Hne. exact Hal.
    + pose proof (list_remove_sublist _ _ _ C2) as Hsub.
      pose proof (list_remove_NoDup _ _ _ Hnd C2) as Hnot.
      split; [eapply sublist_NoDup; [exact Hnd | exact Hsub] |].
      intros b Hin.
      destruct (Hb b (elem_of_sublist _ _ _ Hin Hsub)) as [Hlt Hal].
      split; [exact Hlt |].
      rewrite B; [exact Hal |]. intros ->. exact (Hnot Hin).
  - destruct (Game_show_close_message_frame g)
      as (_ & _ & _ & _ & A & B & C & _).
    cbv zeta in A, B, C. unfold BulletsInv. rewrite A, B, C.
    split; assumption.
Qed.

Lemma run_callback_TimersInv (cb : Callback) (g : Game) (n : nat) (ms : Z) :
  EnemiesInv g -> BulletsInv g -> TimersInv g ->
  timers (root g) !! n = Some (ms, cb) ->
  TimersInv (exec (run_callback cb) (take_timer n g)).
Proof.
  intros Hi Hb Ht Hn.
  assert (Hit : EnemiesInv (take_timer n g)) by exact Hi.
  assert (Hbt : BulletsInv (take_timer n g)) by exact Hb.
  assert (Hnil : forall g', timers (root g') = timers (root (take_timer n g)) ->
            next_bullet g' = next_bullet g ->
            is_game_over g' = is_game_over g ->
            cb <> cb_shoot_continuously ->
            (is_game_over g = false ->
             cb <> cb_update /\ cb <> cb_spawn_enemies_periodically) ->
            TimersInv g').
  { intros g' E1 E2 E3 E4 E5.
    apply (TimersInv_after g g' cb n ms [] Ht Hn).
    - rewrite E1, app_nil_r. reflexivity.
    - rewrite E2. lia.
    - rewrite E3. tauto.
    - destruct (is_game_over g); [count_norm |].
      destruct (E5 eq_refl). count_norm.
    - count_norm.
    - destruct (is_game_over g); [count_norm |].
      destruct (E5 eq_refl). count_norm.
    - intros b. count_norm.
    - intros b. count_norm. }
  destruct cb as [| | | self |]; simpl run_callback.
  - destruct (is_game_over g) eqn:Ho.
    + unfold exec. rewrite Game_update_over by exact Ho. simpl snd.
      apply Hnil; first [reflexivity | exact Ho | discriminate
                        | intros; congruence].
    + destruct (Game_update_running_spec (take_timer n g) Ho (proj1 Hit))
        as (_ & _ & _ & _ & _ & _ & (k & A) & _ & _ & _ & _ & B & _).
      cbv zeta in A, B.
      apply (TimersInv_after g _ cb_update n ms _ Ht Hn A).
      * rewrite B. reflexivity.
      * congruence.
      * rewrite Ho. count_norm.
      * count_norm.
      * count_norm.
      * intros b. count_norm.
      * intros b. count_norm.
  - destruct (Game_shoot_continuously_spec (take_timer n g))
      as (_ & _ & (_ & Hflag & _)).
    destruct (is_game_over g) eqn:Ho; [| destruct (mouse_x g) as [mx |] eqn:Hx;
      [destruct (mouse_y g) as [my |] eqn:Hy |]].
    2: {
      destruct (Game_shoot_continuously_fires_spec (take_timer n g) mx my
                  Ho Hx Hy)
        as (_ & _ & A & _ & _ & (sched & B) & _).
      { intros b Hin. apply (proj2 Hbt b Hin). }
      cbv zeta in A, B.
      apply (TimersInv_after g _ cb_shoot_continuously n ms _ Ht Hn B).
      - rewrite A. simpl. lia.
      - congruence.
      - destruct sched; count_norm.
      - destruct sched; count_norm.
      - destruct sched; count_norm.
      - intros b. destruct sched; count_norm.
      - intros b Hc. right. rewrite A. simpl.
        destruct (decide (b = next_bullet g)) as [-> | Hne]; [lia |].
        exfalso. revert Hc. destruct sched; count_norm. }
    all: unfold exec in *;
      rewrite Game_shoot_continuously_idle in * by (simpl; tauto);
      apply (TimersInv_after g _ cb_shoot_continuously n ms
               [(500%Z, cb_shoot_continuously)] Ht Hn).
    all: try reflexivity.
    all: try (simpl; lia).
    all: try (intros E; exact E).
    all: try (intros b; count_norm).
    all: count_norm.
  - destruct (is_game_over g) eqn:Ho.
    + unfold exec.
      rewrite Game_spawn_enemies_periodically_over by exact Ho. simpl snd.
      apply Hnil; first [reflexivity | exact Ho | discriminate
                        | intros; congruence].
    + destruct (Game_spawn_enemies_periodically_spec (take_timer n g) Ho)
        as (_ & _ & _ & _ & _ & A & _ & _ & _ & _ & _ & B & _).
      cbv zeta in A, B.
      apply (TimersInv_after g _ cb_spawn_enemies_periodically n ms _
               Ht Hn A).
      * rewrite B. reflexivity.
      * congruence.
      * count_norm.
      * count_norm.
      * rewrite Ho. count_norm.
      * intros b. count_norm.
      * intros b. count_norm.
  - destruct (Bullet_move_spec (take_timer n g) self)
      as (_ & _ & (_ & Hflag & _) & (A & _ & C)).
    destruct C as [(_ & _ & (sched & C)) | (_ & _ & _ & C)].
    + apply (TimersInv_after g _ (cb_bullet_move self) n ms _ Ht Hn C).
      * rewrite A. reflexivity.
      * intros E. rewrite Hflag. exact E.
      * destruct sched; count_norm.
      * destruct sched; count_norm.
      * destruct sched; count_norm.
      * intros b. destruct sched; count_norm.
      * intros b Hc. left.
        destruct (decide (b = self)) as [-> | Hne]; [reflexivity |].
        exfalso. revert Hc. destruct sched; count_norm.
    + apply Hnil; try assumption; try discriminate.
      intros _. split; discriminate.
  - destruct (Game_show_close_message_frame (take_timer n g))
      as (_ & _ & _ & _ & _ & _ & A & B & C & _).
    cbv zeta in A, B, C.
    apply Hnil; try assumption; try discriminate.
    + rewrite C. reflexivity.
    + intros _. split; discriminate.
Qed.

Lemma step_RunInv (ev : Event) (g : Game) :
  RunInv g -> RunInv (step ev g) /\ score_step g (step ev g).
Proof.
  intros (Hi & Hb & Ht & Hs & Hz).
  assert (Hsame : RunInv g /\ score_step g g).
  { split; [| left; reflexivity]. unfold RunInv. tauto. }
  destruct ev as [n | k | k | x y]; simpl.
  - destruct (timers (root g) !! n) as [[ms cb] |] eqn:Hn; [| exact Hsame].
    assert (Hit : EnemiesInv (take_timer n g)) by exact Hi.
    assert (Hbt : BulletsInv (take_timer n g)) by exact Hb.
    assert (Hst : Sync (take_timer n g)) by exact Hs.
    destruct (run_callback_safe cb _ Hit) as (_ & A & B).
    pose proof (run_callback_BulletsInv cb _ Hit Hbt) as C.
    pose proof (run_callback_TimersInv cb g n ms Hi Hb Ht Hn) as D.
    pose proof (run_callback_Sync cb _ Hit Hst) as E.
    assert (B' : score_step g (exec (run_callback cb) (take_timer n g)))
      by exact B.
    split; [| exact B'].
    unfold RunInv. splits; try assumption.
    destruct B' as [-> | [-> _]]; lia.
  - destruct (bind_keypress (root g)); exact Hsame.
  - destruct (bind_keyrelease (root g)); exact Hsame.
  - destruct (bind_motion (root g)); exact Hsame.
Qed.

Lemma run_RunInv (evs : list Event) (g : Game) :
  RunInv g -> RunInv (run evs g) /\ (score g <= score (run evs g))%Z.
Proof.
  revert g. induction evs as [| ev evs IH]; intros g Hi; simpl.
  - split; [exact Hi | lia].
  - destruct (step_RunInv ev g Hi) as [Hi' Hs].
    destruct (IH _ Hi') as [A B]. split; [exact A |].
    destruct Hs as [Hs | [Hs _]]; lia.
Qed.

(** The state that [Game.__init__] leaves. *)
Lemma Game_init_state (w h : Z) (s : nat -> Z) :
  let g := Game_init w h s in
  timers (root g)
  = [(50%Z, cb_update); (500%Z, cb_shoot_continuously);
     (5000%Z, cb_spawn_enemies_periodically)]
  /\ enemies g = [0; 1; 2]%nat /\ next_enemy g = 3%nat
  /\ (forall e, (e < 3)%nat -> spawned (enemy_obj g e))
  /\ bullets g = [] /\ next_bullet g = 0%nat
  /\ p_x (player g) = 100%R /\ p_y (player g) = 100%R
  /\ p_health (player g) = 3%Z
  /\ score g = 0%Z /\ is_game_over g = false
  /\ mouse_x g = None /\ mouse_y g = None
  /\ score_shown (canvas g) = 0%Z /\ lives_shown (canvas g) = 3%Z
  /\ bind_keypress (root g) = true /\ bind_keyrelease (root g) = true
  /\ bind_motion (root g) = true.
Proof.
  cbv zeta. rewrite Game_init_eq.
  assert (Hmod : forall a m : Z, (0 < m)%Z -> (0 <= a mod m < m)%Z)
    by (intros; apply Z.mod_pos_bound; assumption).
  splits; try reflexivity.
  - intros e He. unfold spawned.
    destruct e as [| [| [| e]]]; [| | | lia].
    + exists (50 + s 0%nat mod (750 - 50 + 1))%Z,
             (50 + s 1%nat mod (550 - 50 + 1))%Z.
      pose proof (Hmod (s 0%nat) (750 - 50 + 1)%Z ltac:(lia)).
      pose proof (Hmod (s 1%nat) (550 - 50 + 1)%Z ltac:(lia)).
      splits; try lia; reflexivity.
    + exists (50 + s 2%nat mod (750 - 50 + 1))%Z,
             (50 + s 3%nat mod (550 - 50 + 1))%Z.
      pose proof (Hmod (s 2%nat) (750 - 50 + 1)%Z ltac:(lia)).
      pose proof (Hmod (s 3%nat) (550 - 50 + 1)%Z ltac:(lia)).
      splits; try lia; reflexivity.
    + exists (50 + s 4%nat mod (750 - 50 + 1))%Z,
             (50 + s 5%nat mod (550 - 50 + 1))%Z.
      pose proof (Hmod (s 4%nat) (750 - 50 + 1)%Z ltac:(lia)).
      pose proof (Hmod (s 5%nat) (550 - 50 + 1)%Z ltac:(lia)).
      splits; try lia; reflexivity.
  - change (100 + IZR 0 * 5 = 100)%R. lra.
  - change (100 + IZR 0 * 5 = 100)%R. lra.
Qed.

Lemma count_timers_eq (c : Callback) (g : Game) l :
  timers (root g) = l -> count_timers c g = count_in c l.
Proof. intros <-. reflexivity. Qed.

Lemma Game_init_RunInv (w h : Z) (s : nat -> Z) : RunInv (Game_init w h s).
Proof.
  destruct (Game_init_state w h s)
    as (T & E1 & E2 & _ & B1 & B2 & _ & _ & H3 & S0 & Ho & _ & _ & L1 & L2
        & K1 & K2 & K3).
  cbv zeta in T, E1, E2, B1, B2, H3, S0, Ho, L1, L2, K1, K2, K3.
  unfold RunInv. splits.
  - unfold EnemiesInv. rewrite E1, E2. split.
    + apply (NoDup_seq 0 3).
    + intros e He. apply (elem_of_seq 0 3) in He. lia.
  - unfold BulletsInv. rewrite B1. split; [apply NoDup_nil_2 |].
    intros b Hb. exfalso. exact (proj1 (elem_of_nil b) Hb).
  - unfold TimersInv. rewrite B2.
    rewrite !(count_timers_eq _ _ _ T).
    splits; try (intros b); try (intros _);
      rewrite ?(count_timers_eq _ _ _ T); count_norm.
  - unfold Sync. rewrite L1, L2, S0, H3, K1, K2, K3, Ho. splits; reflexivity.
  - rewrite S0. lia.
Qed.

Lemma reachable_RunInv (w h : Z) (s : nat -> Z) (evs : list Event) :
  RunInv (run evs (Game_init w h s)).
Proof. apply run_RunInv, Game_init_RunInv. Qed.

(** ** A bullet that leaves the canvas *)

Lemma Bullet_move_out_of_bounds (g : Game) (self : nat) :
  b_alive (bullet_obj g self) = true -> is_game_over g = false ->
  self ∈ bullets g ->
  let b := bullet_obj g self in
  ~ ((0 <= b_x b + b_dx b <= IZR (winfo_width (canvas g)))%R
     /\ (0 <= b_y b + b_dy b <= IZR (winfo_height (canvas g)))%R) ->
  let g' := exec (Bullet_move self) g in
  outcome (Bullet_move self) g = Ok tt
  /\ list_remove self (bullets g) = Some (bullets g')
  /\ b_alive (bullet_obj g' self) = false
  /\ (b_id b ∉ items (canvas g'))
  /\ timers (root g') = timers (root g)
  /\ enemies g' = enemies g /\ enemy_obj g' = enemy_obj g
  /\ score g' = score g.
Proof.
  intros Ha Ho Hin b Hout. cbv zeta. unfold outcome, exec.
  rewrite Bullet_move_running by assumption.
  assert (Hinb : Bullet_is_in_bounds self (Bullet_step self g)
                 = (Ok false, Bullet_step self g)).
  { rewrite Bullet_is_in_bounds_eq. f_equal. f_equal.
    rewrite Bullet_step_obj. simpl. fold b.
    change (winfo_width (canvas (Bullet_step self g)))
      with (winfo_width (canvas g)).
    change (winfo_height (canvas (Bullet_step self g)))
      with (winfo_height (canvas g)).
    destruct (Rleb 0 (b_x b + b_dx b)) eqn:H1; [| reflexivity].
    destruct (Rleb (b_x b + b_dx b) (IZR (winfo_width (canvas g)))) eqn:H2;
      [| reflexivity].
    destruct (Rleb 0 (b_y b + b_dy b)) eqn:H3; [| reflexivity].
    destruct (Rleb (b_y b + b_dy b) (IZR (winfo_height (canvas g)))) eqn:H4;
      [| reflexivity].
    exfalso. apply Hout.
    apply Rleb_true in H1, H2, H3, H4. tauto. }
  rewrite (Bullet_after_step_eq _ self false Hinb).
  change (negb false) with true. cbv iota.
  destruct (list_remove_Some _ _ Hin) as (r & Hr & _).
  pose proof (Bullet_step_obj g self) as Hobj. cbv zeta in Hobj.
  unfold Game_remove_bullet. unfold_monad.
  change (bullets (Bullet_step self g)) with (bullets g).
  rewrite bool_decide_eq_true_2 by exact Hin. simpl. rewrite Hr. simpl.
  decide_eq. simpl. decide_eq. simpl.
  splits; try reflexivity.
  intros Hid. apply list_elem_of_filter in Hid as [Hid _]. exact (Hid eq_refl).
Qed.

(** ** The velocity of a new bullet *)

Lemma hypot_polar (r a : R) : (0 <= r)%R -> hypot (r * cos a) (r * sin a) = r.
Proof.
  intros Hr. unfold hypot.
  pose proof (sin2_cos2 a) as H. unfold Rsqr in H.
  replace (r * cos a * (r * cos a) + r * sin a * (r * sin a))%R
    with (r * r * (sin a * sin a + cos a * cos a))%R by ring.
  rewrite H, Rmult_1_r. apply sqrt_square. exact Hr.
Qed.

Lemma Bullet_init_running (g : Game) (sx sy tx ty : R) :
  is_game_over g = false ->
  let a := atan2 (ty - sy) (tx - sx) in
  let g' := exec (Bullet_init sx sy tx ty) g in
  let b := bullet_obj g' (next_bullet g) in
  outcome (Bullet_init sx sy tx ty) g = Ok (next_bullet g)
  /\ b_x b = (sx + 10 * cos a)%R /\ b_y b = (sy + 10 * sin a)%R
  /\ b_dx b = (10 * cos a)%R /\ b_dy b = (10 * sin a)%R.
Proof.
  intros Ho. cbv zeta.
  destruct (Bullet_new_obj g sx sy tx ty) as (N0 & N1 & N2 & _).
  cbv zeta in N0, N1, N2.
  rewrite Bullet_init_exec.
  assert (Hout : outcome (Bullet_init sx sy tx ty) g = Ok (next_bullet g)).
  { destruct (Bullet_move_spec (exec (Bullet_new sx sy tx ty) g)
                (next_bullet g)) as (A & _).
    unfold outcome, exec in *. unfold Bullet_init. unfold bind at 1.
    destruct (Bullet_new sx sy tx ty g) as [[self | x] gb];
      simpl in N0; [| discriminate].
    injection N0 as ->. simpl in A. unfold bind.
    destruct (Bullet_move (next_bullet g) gb) as [[[] | x] gm];
      simpl in A; [reflexivity | discriminate]. }
  split; [exact Hout |].
  set (gb := exec (Bullet_new sx sy tx ty) g) in *. clearbody gb.
  assert (Ha : b_alive (bullet_obj gb (next_bullet g)) = true)
    by (rewrite N1; reflexivity).
  assert (Ho' : is_game_over gb = false) by congruence.
  destruct (Bullet_move_displacement gb (next_bullet g) Ha Ho')
    as (D1 & D2 & D3 & D4).
  rewrite D1, D2, D3, D4, N1. simpl. splits; reflexivity.
Qed.

(** ** The properties *)

(** X1: one tick of [Game.update] in a running game whose enemy
    collection holds no reference twice returns normally; the player
    moves by (dx, dy) * speed, with dx and dy read off the pressed keys;
    the enemies that remain are a sub-list of the former ones and none of
    them is within the collision radius 20 of the player; each enemy that
    left cost one life; the score and the bullets are untouched; and the
    tick registers itself again, once, after whatever close-message timers
    the collisions have registered. *)
Theorem X1_update_tick (g : Game) :
  is_game_over g = false -> NoDup (enemies g) ->
  let g' := exec Game_update g in
  let dx := (Z.b2z (bool_decide ("d" ∈ pressed_keys g))
             - Z.b2z (bool_decide ("a" ∈ pressed_keys g)))%Z in
  let dy := (Z.b2z (bool_decide ("s" ∈ pressed_keys g))
             - Z.b2z (bool_decide ("w" ∈ pressed_keys g)))%Z in
  outcome Game_update g = Ok tt
  /\ p_x (player g') = (p_x (player g) + IZR dx * p_speed (player g))%R
  /\ p_y (player g') = (p_y (player g) + IZR dy * p_speed (player g))%R
  /\ enemies g' `sublist_of` enemies g
  /\ (forall e, e ∈ enemies g' ->
        (20 <= dist (p_x (player g')) (p_y (player g'))
                 (e_x (enemy_obj g' e)) (e_y (enemy_obj g' e)))%R)
  /\ (p_health (player g')
      = p_health (player g)
        - (Z.of_nat (length (enemies g)) - Z.of_nat (length (enemies g'))))%Z
  /\ (exists k, timers (root g')
        = timers (root g) ++ replicate k (5000%Z, cb_show_close_message)
          ++ [(50%Z, cb_update)])
  /\ score g' = score g /\ bullets g' = bullets g.
Proof.
  intros Ho Hnd.
  destruct (Game_update_running_spec g Ho Hnd)
    as (A & B & C & D & E & F & G & H & _ & I & _).
  cbv zeta. tauto.
Qed.

Lemma X1_update_tick_witness :
  let g := Game_init 800 600 stream2 in
  is_game_over g = false /\ NoDup (enemies g)
  /\ outcome Game_update g = Ok tt
  /\ score (exec Game_update g) = score g.
Proof.
  intros g.
  assert (Hnd : NoDup (enemies g)) by exact (NoDup_seq 0 3).
  split; [reflexivity |]. split; [exact Hnd |].
  pose proof (X1_update_tick g eq_refl Hnd) as H. cbv zeta in H.
  split; [exact (proj1 H) |].
  exact (proj1 (proj2 (proj2 (proj2 (proj2 (proj2 (proj2 (proj2 H)))))))).
Defined.

(** X2: [Bullet.move] returns normally in every state and for every
    bullet.  It leaves the enemies and the score alone or removes exactly
    one enemy of the collection and adds 1 to the score; it never touches
    the player, the game-over flag or an enemy object; it creates no
    bullet and touches no other bullet; and the bullet either stays as
    registered and as alive as it was, with at most one new tick, or is
    taken out of the collection, marked dead, with no new tick. *)
Theorem X2_bullet_move_total (g : Game) (self : nat) :
  let g' := exec (Bullet_move self) g in
  outcome (Bullet_move self) g = Ok tt
  /\ hit_or_miss g g'
  /\ player g' = player g /\ is_game_over g' = is_game_over g
  /\ next_enemy g' = next_enemy g /\ enemy_obj g' = enemy_obj g
  /\ bullet_tick self g g'.
Proof.
  destruct (Bullet_move_spec g self) as (A & B & (C1 & C2 & C3 & C4 & _) & D).
  cbv zeta. tauto.
Qed.

(** X3: a shot in a running game whose mouse position is known, when
    every registered bullet exists: [Game.shoot_continuously] returns
    normally, appends exactly the new bullet to the collection, leaves it
    alive whatever its first step met, touches no other bullet, kills at
    most one enemy, and registers itself again after at most one tick of
    the new bullet. *)
Theorem X3_shot_registers_bullet (g : Game) (mx my : Z) :
  is_game_over g = false -> mouse_x g = Some mx -> mouse_y g = Some my ->
  (forall b, b ∈ bullets g -> (b < next_bullet g)%nat) ->
  let nb := next_bullet g in
  let g' := exec Game_shoot_continuously g in
  outcome Game_shoot_continuously g = Ok tt
  /\ bullets g' = bullets g ++ [nb] /\ next_bullet g' = S nb
  /\ b_alive (bullet_obj g' nb) = true
  /\ (forall b, b <> nb -> bullet_obj g' b = bullet_obj g b)
  /\ (exists sched : bool,
        timers (root g')
        = timers (root g)
          ++ (if sched then [(50%Z, cb_bullet_move nb)] else [])
          ++ [(500%Z, cb_shoot_continuously)])
  /\ hit_or_miss g g' /\ player g' = player g.
Proof.
  intros Ho Hx Hy Hfresh.
  destruct (Game_shoot_continuously_fires_spec g mx my Ho Hx Hy Hfresh)
    as (A & B & C & D & E & F & G & (H & _)).
  cbv zeta. tauto.
Qed.

Lemma X3_shot_registers_bullet_witness :
  let g := step (EvMotion 300 100) (Game_init 800 600 stream2) in
  is_game_over g = false /\ mouse_x g = Some 300%Z /\ mouse_y g = Some 100%Z
  /\ bullets g = []
  /\ bullets (exec Game_shoot_continuously g) = [0%nat].
Proof.
  intros g.
  assert (Hb : bullets g = []) by reflexivity.
  assert (Hn : next_bullet g = 0%nat) by reflexivity.
  splits; try reflexivity.
  assert (Hfresh : forall b, b ∈ bullets g -> (b < next_bullet g)%nat).
  { intros b Hin. rewrite Hb in Hin. exfalso.
    exact (proj1 (elem_of_nil b) Hin). }
  pose proof (X3_shot_registers_bullet g 300 100 eq_refl eq_refl eq_refl
                Hfresh) as H.
  cbv zeta in H. destruct H as (_ & H & _).
  rewrite H, Hb, Hn. reflexivity.
Defined.

(** X4: [Game.spawn_enemies(count)], from any state, returns normally,
    appends exactly [count] new enemies, in order of creation, each at
    integer coordinates with 50 <= x <= 750 and 50 <= y <= 550 and with
    speed 2; it draws two random numbers per enemy, and touches neither
    the older enemies nor the player, the score, the flag, the bullets,
    the timers and the bindings. *)
Theorem X4_spawn_enemies (count : nat) (g : Game) :
  let n := next_enemy g in
  let g' := exec (Game_spawn_enemies count) g in
  outcome (Game_spawn_enemies count) g = Ok tt
  /\ enemies g' = enemies g ++ seq n count
  /\ next_enemy g' = (n + count)%nat
  /\ (forall e, (n <= e < n + count)%nat -> spawned (enemy_obj g' e))
  /\ (forall e, (e < n)%nat -> enemy_obj g' e = enemy_obj g e)
  /\ random_pos g' = (random_pos g + 2 * count)%nat
  /\ player g' = player g /\ is_game_over g' = is_game_over g
  /\ score g' = score g /\ bullets g' = bullets g /\ root g' = root g.
Proof.
  destruct (Game_spawn_enemies_spec count g)
    as (A & B & C & D & E & F & (G1 & G2 & G3 & G4 & _ & _ & G7 & _)).
  cbv zeta. tauto.
Qed.

(** X5: along every run from the constructor the score is never
    negative, and one turn of the main loop leaves it as it is or adds
    exactly 1 to it, in which case the enemy collection has lost exactly
    one enemy. *)
Theorem X5_score_counts_kills
    (w h : Z) (s : nat -> Z) (evs : list Event) (ev : Event) :
  let g := run evs (Game_init w h s) in
  let g' := step ev g in
  (0 <= score g)%Z
  /\ (score g' = score g
      \/ (score g' = (score g + 1)%Z
          /\ S (length (enemies g')) = length (enemies g))).
Proof.
  cbv zeta. pose proof (reachable_RunInv w h s evs) as H.
  destruct (step_RunInv ev _ H) as [_ Hs].
  destruct H as (_ & _ & _ & _ & Hz). split; [exact Hz | exact Hs].
Qed.

(** X6: a registered live bullet of a running game whose step leaves
    the canvas: [Bullet.move] returns normally, takes the bullet out of
    the collection, marks it dead, deletes its canvas item and registers
    no further tick; no collision is checked, so the enemies and the
    score stay as they are. *)
Theorem X6_bullet_leaves_canvas (g : Game) (self : nat) :
  b_alive (bullet_obj g self) = true -> is_game_over g = false ->
  self ∈ bullets g ->
  let b := bullet_obj g self in
  ~ ((0 <= b_x b + b_dx b <= IZR (winfo_width (canvas g)))%R
     /\ (0 <= b_y b + b_dy b <= IZR (winfo_height (canvas g)))%R) ->
  let g' := exec (Bullet_move self) g in
  outcome (Bullet_move self) g = Ok tt
  /\ list_remove self (bullets g) = Some (bullets g')
  /\ b_alive (bullet_obj g' self) = false
  /\ (b_id b ∉ items (canvas g'))
  /\ timers (root g') = timers (root g)
  /\ enemies g' = enemies g /\ enemy_obj g' = enemy_obj g
  /\ score g' = score g.
Proof. exact (Bullet_move_out_of_bounds g self). Qed.

Lemma X6_bullet_leaves_canvas_witness :
  let g := set_bullets [0%nat]
             (upd_bullet 0 (fun _ => mkBullet 795 100 10 0 10 0 9 true)
                (Game_fields 800 600 (fun _ => 0%Z))) in
  bullets g = [0%nat]
  /\ bullets (exec (Bullet_move 0) g) = []
  /\ b_alive (bullet_obj (exec (Bullet_move 0) g) 0%nat) = false.
Proof.
  intros g.
  assert (Hin : 0%nat ∈ bullets g) by (apply list_elem_of_here).
  assert (Hout : ~ ((0 <= 795 + 10 <= IZR 800)%R
                    /\ (0 <= 100 + 0 <= IZR 600)%R)) by lra.
  pose proof (X6_bullet_leaves_canvas g 0%nat eq_refl eq_refl Hin Hout) as H.
  cbv zeta in H. destruct H as (_ & H1 & H2 & _).
  split; [reflexivity |]. split; [| exact H2].
  change (list_remove 0%nat (bullets g)) with (Some (@nil nat)) in H1.
  injection H1 as <-. reflexivity.
Defined.

(** X7: the constructor of a bullet in a running game returns the new
    bullet after its first step: whatever the target, the bullet's
    velocity has length 10, and the bullet is at distance exactly 10 from
    where it was created, in the direction atan2(ty - sy, tx - sx). *)
Theorem X7_bullet_speed (g : Game) (sx sy tx ty : R) :
  is_game_over g = false ->
  let a := atan2 (ty - sy) (tx - sx) in
  let g' := exec (Bullet_init sx sy tx ty) g in
  let b := bullet_obj g' (next_bullet g) in
  outcome (Bullet_init sx sy tx ty) g = Ok (next_bullet g)
  /\ b_x b = (sx + 10 * cos a)%R /\ b_y b = (sy + 10 * sin a)%R
  /\ hypot (b_dx b) (b_dy b) = 10%R
  /\ dist sx sy (b_x b) (b_y b) = 10%R.
Proof.
  intros Ho.
  destruct (Bullet_init_running g sx sy tx ty Ho) as (A & B & C & D & E).
  cbv zeta in *. split; [exact A |]. split; [exact B |]. split; [exact C |].
  rewrite B, C, D, E. split; [apply hypot_polar; lra |].
  rewrite <- (hypot_polar 10 (atan2 (ty - sy) (tx - sx))) at 3 by lra.
  unfold dist, hypot. f_equal. ring.
Qed.

Lemma X7_bullet_speed_witness :
  let g := Game_fields 800 600 (fun _ => 0%Z) in
  is_game_over g = false
  /\ outcome (Bullet_init 100 100 400 500) g = Ok 0%nat.
Proof.
  intros g. split; [reflexivity |].
  exact (proj1 (X7_bullet_speed g 100 100 400 500 eq_refl)).
Defined.

(** X8: in every state that a run reaches from the constructor, the
    periodic tasks have neither multiplied nor, while the game runs,
    died: at most one registration of the update task and of the
    spawning task is pending, and exactly one while the game is not over;
    exactly one registration of the shooting task is pending, also after
    the game is over; and every bullet has at most one tick pending, a
    bullet not yet created none. *)
Theorem X8_tasks_neither_multiply_nor_die
    (w h : Z) (s : nat -> Z) (evs : list Event) :
  let g := run evs (Game_init w h s) in
  (count_timers cb_update g <= 1)%nat
  /\ count_timers cb_shoot_continuously g = 1%nat
  /\ (count_timers cb_spawn_enemies_periodically g <= 1)%nat
  /\ (is_game_over g = false ->
      count_timers cb_update g = 1%nat
      /\ count_timers cb_spawn_enemies_periodically g = 1%nat)
  /\ (forall b, (count_timers (cb_bullet_move b) g <= 1)%nat)
  /\ (forall b, (next_bullet g <= b)%nat ->
        count_timers (cb_bullet_move b) g = 0%nat).
Proof.
  cbv zeta. destruct (reachable_RunInv w h s evs) as (_ & _ & H & _).
  exact H.
Qed.

(** X9: in every state that a run reaches from the constructor, the
    score label shows the score and the lives label shows the player's
    health. *)
Theorem X9_labels_show_the_state
    (w h : Z) (s : nat -> Z) (evs : list Event) :
  let g := run evs (Game_init w h s) in
  score_shown (canvas g) = score g
  /\ lives_shown (canvas g) = p_health (player g).
Proof.
  cbv zeta.
  destruct (reachable_RunInv w h s evs) as (_ & _ & _ & (H1 & H2 & _) & _).
  split; [exact H1 | exact H2].
Qed.

(** X10: in every state that a run reaches from the constructor, the
    bullet collection holds no bullet twice, and every bullet in it
    exists and is alive. *)
Theorem X10_registered_bullets_are_alive
    (w h : Z) (s : nat -> Z) (evs : list Event) :
  let g := run evs (Game_init w h s) in
  NoDup (bullets g)
  /\ forall b, b ∈ bullets g ->
       (b < next_bullet g)%nat /\ b_alive (bullet_obj g b) = true.
Proof.
  cbv zeta. destruct (reachable_RunInv w h s evs) as (_ & H & _).
  exact H.
Qed.

(** X11: the state that [Game.__init__] leaves, whatever the canvas
    size and the random numbers: the three tasks are registered in the
    order update (50 ms), shoot (500 ms), spawn (5000 ms); three enemies
    exist, in the spawn box; no bullet exists, since the first shot found
    no mouse position; the player is at (100, 100) with health 3; the
    score is 0 and the labels show 0 and 3; the three bindings are
    installed. *)
Theorem X11_constructor_state (w h : Z) (s : nat -> Z) :
  let g := Game_init w h s in
  timers (root g)
  = [(50%Z, cb_update); (500%Z, cb_shoot_continuously);
     (5000%Z, cb_spawn_enemies_periodically)]
  /\ enemies g = [0; 1; 2]%nat /\ next_enemy g = 3%nat
  /\ (forall e, (e < 3)%nat -> spawned (enemy_obj g e))
  /\ bullets g = [] /\ next_bullet g = 0%nat
  /\ p_x (player g) = 100%R /\ p_y (player g) = 100%R
  /\ p_health (player g) = 3%Z
  /\ score g = 0%Z /\ is_game_over g = false
  /\ mouse_x g = None /\ mouse_y g = None
  /\ score_shown (canvas g) = 0%Z /\ lives_shown (canvas g) = 3%Z
  /\ bind_keypress (root g) = true /\ bind_keyrelease (root g) = true
  /\ bind_motion (root g) = true.
Proof. exact (Game_init_state w h s). Qed.

(** X12: in every state that a run reaches from the constructor, the
    three bindings are installed exactly while the game is not over: a
    key press adds the key to the pressed keys, a key release discards it
    (whether or not it was pressed) and a mouse motion records the
    position while the game runs, and all three leave the state as it is
    once the game is over. *)
Theorem X12_input_follows_the_flag
    (w h : Z) (s : nat -> Z) (evs : list Event) (k : string) (x y : Z) :
  let g := run evs (Game_init w h s) in
  step (EvKeyPress k) g
  = (if is_game_over g then g
     else set_pressed_keys ({[k]} ∪ pressed_keys g) g)
  /\ step (EvKeyRelease k) g
     = (if is_game_over g then g
        else set_pressed_keys (pressed_keys g ∖ {[k]}) g)
  /\ step (EvMotion x y) g
     = (if is_game_over g then g else set_mouse (Some x) (Some y) g).
Proof.
  cbv zeta.
  destruct (reachable_RunInv w h s evs)
    as (_ & _ & _ & (_ & _ & K1 & K2 & K3) & _).
  simpl step. rewrite K1, K2, K3.
  destruct (is_game_over _); simpl; splits; reflexivity.
Qed.

(** X13: a registered live bullet of a running game whose step stays on
    the canvas and ends within the collision radius of some enemies hits
    the first of them in the order of the collection, whether or not a
    later one is nearer: that enemy alone leaves the collection, the
    score goes up by 1, the bullet is taken out of the collection and
    marked dead, and no further tick is registered for it. *)
Theorem X13_first_enemy_in_order_is_hit (g : Game) (self : nat)
    (l1 : list nat) (e : nat) (l2 : list nat) :
  b_alive (bullet_obj g self) = true -> is_game_over g = false ->
  self ∈ bullets g ->
  let gs := Bullet_step self g in
  (0 <= b_x (bullet_obj gs self) <= IZR (winfo_width (canvas g)))%R ->
  (0 <= b_y (bullet_obj gs self) <= IZR (winfo_height (canvas g)))%R ->
  enemies g = l1 ++ e :: l2 ->
  (forall e', e' ∈ l1 -> in_radius gs self e' = false) ->
  in_radius gs self e = true ->
  let g' := exec (Bullet_move self) g in
  outcome (Bullet_move self) g = Ok tt
  /\ enemies g' = l1 ++ l2
  /\ score g' = (score g + 1)%Z
  /\ list_remove self (bullets g) = Some (bullets g')
  /\ b_alive (bullet_obj g' self) = false
  /\ timers (root g') = timers (root g).
Proof. exact (Bullet_move_hit_registered g self l1 e l2). Qed.

Lemma X13_first_enemy_in_order_is_hit_witness :
  let g := set_enemies [0; 1]%nat
             (upd_enemy 1 (fun _ => mkEnemy 110 100 2 11)
                (upd_enemy 0 (fun _ => mkEnemy 125 100 2 10)
                   (set_bullets [0%nat]
                      (upd_bullet 0
                         (fun _ => mkBullet 100 100 10 0 10 0 9 true)
                         (Game_fields 800 600 (fun _ => 0%Z)))))) in
  enemies g = [0; 1]%nat
  /\ enemies (exec (Bullet_move 0) g) = [1%nat]
  /\ score (exec (Bullet_move 0) g) = 1%Z.
Proof.
  intros g.
  assert (Hin : 0%nat ∈ bullets g) by (apply list_elem_of_here).
  assert (Hx : (0 <= 100 + 10 <= IZR 800)%R) by lra.
  assert (Hy : (0 <= 100 + 0 <= IZR 600)%R) by lra.
  assert (Hmiss : forall e' : nat,
            e' ∈ @nil nat -> in_radius (Bullet_step 0 g) 0 e' = false).
  { intros e' He'. exfalso. exact (proj1 (elem_of_nil e') He'). }
  assert (Hhit : Rltb (hypot (125 - (100 + 10)) (100 - (100 + 0))) 20 = true).
  { apply Rltb_true.
    replace (125 - (100 + 10))%R with 15%R by lra.
    replace (100 - (100 + 0))%R with 0%R by lra.
    rewrite hypot_x_0 by lra. lra. }
  pose proof (X13_first_enemy_in_order_is_hit g 0%nat [] 0%nat [1%nat]
                eq_refl eq_refl Hin Hx Hy eq_refl Hmiss Hhit) as H.
  cbv zeta in H. destruct H as (_ & H1 & H2 & _).
  split; [reflexivity |]. split; [exact H1 | exact H2].
Defined.

(** ** A shot whose first step leaves the canvas *)

Lemma Bullet_is_in_bounds_false (g : Game) (self : nat) :
  ~ ((0 <= b_x (bullet_obj g self) <= IZR (winfo_width (canvas g)))%R
     /\ (0 <= b_y (bullet_obj g self) <= IZR (winfo_height (canvas g)))%R) ->
  Bullet_is_in_bounds self g = (Ok false, g).
Proof.
  intros Hout. rewrite Bullet_is_in_bounds_eq. f_equal. f_equal.
  destruct (Rleb 0 (b_x (bullet_obj g self))) eqn:H1; [| reflexivity].
  destruct (Rleb (b_x (bullet_obj g self)) (IZR (winfo_width (canvas g))))
    eqn:H2; [| reflexivity].
  destruct (Rleb 0 (b_y (bullet_obj g self))) eqn:H3; [| reflexivity].
  destruct (Rleb (b_y (bullet_obj g self)) (IZR (winfo_height (canvas g))))
    eqn:H4; [| reflexivity].
  exfalso. apply Hout. apply Rleb_true in H1, H2, H3, H4. tauto.
Qed.

(** The step of a bullet that is not in the collection and leaves the
    canvas: the two assignments, and nothing else. *)
Lemma Bullet_move_off_canvas_unregistered (g : Game) (self : nat) :
  b_alive (bullet_obj g self) = true -> is_game_over g = false ->
  self ∉ bullets g ->
  let gs := Bullet_step self g in
  ~ ((0 <= b_x (bullet_obj gs self) <= IZR (winfo_width (canvas g)))%R
     /\ (0 <= b_y (bullet_obj gs self) <= IZR (winfo_height (canvas g)))%R) ->
  Bullet_move self g = (Ok tt, gs).
Proof.
  intros Ha Ho Hin gs Hout.
  rewrite Bullet_move_running by assumption. fold gs.
  rewrite (Bullet_after_step_eq gs self false
             (Bullet_is_in_bounds_false gs self Hout)).
  change (negb false) with true. cbv iota.
  apply Game_remove_bullet_not_member. exact Hin.
Qed.

Lemma Game_shoot_continuously_off_canvas (g : Game) (mx my : Z) :
  is_game_over g = false -> mouse_x g = Some mx -> mouse_y g = Some my ->
  (forall b, b ∈ bullets g -> (b < next_bullet g)%nat) ->
  let a := atan2 (IZR my - p_y (player g)) (IZR mx - p_x (player g)) in
  ~ ((0 <= p_x (player g) + 10 * cos a <= IZR (winfo_width (canvas g)))%R
     /\ (0 <= p_y (player g) + 10 * sin a
         <= IZR (winfo_height (canvas g)))%R) ->
  let nb := next_bullet g in
  let g' := exec Game_shoot_continuously g in
  outcome Game_shoot_continuously g = Ok tt
  /\ bullets g' = bullets g ++ [nb]
  /\ b_alive (bullet_obj g' nb) = true
  /\ timers (root g') = timers (root g) ++ [(500%Z, cb_shoot_continuously)]
  /\ (b_id (bullet_obj g' nb) ∈ items (canvas g'))
  /\ enemies g' = enemies g /\ score g' = score g.
Proof.
  intros Ho Hx Hy Hfresh a Hout. cbv zeta. unfold outcome, exec.
  rewrite (Game_shoot_continuously_running g mx my) by assumption.
  cbv zeta.
  destruct (Bullet_new_obj g (p_x (player g)) (p_y (player g))
              (IZR mx) (IZR my))
    as (_ & N1 & N2 & N3 & _ & N4 & N5 & N6).
  cbv zeta in N1, N2, N3, N4, N5, N6. fold a in N1.
  assert (Nroot : root (exec (Bullet_new (p_x (player g)) (p_y (player g))
                                 (IZR mx) (IZR my)) g) = root g)
    by reflexivity.
  assert (Nscore : score (exec (Bullet_new (p_x (player g)) (p_y (player g))
                                  (IZR mx) (IZR my)) g) = score g)
    by reflexivity.
  assert (Nitems : items (canvas (exec (Bullet_new (p_x (player g))
                            (p_y (player g)) (IZR mx) (IZR my)) g))
                   = items (canvas g) ++ [next_item (canvas g)])
    by reflexivity.
  set (gb := exec (Bullet_new _ _ _ _) g) in *. clearbody gb.
  assert (Hmove : Bullet_move (next_bullet g) gb
                  = (Ok tt, Bullet_step (next_bullet g) gb)).
  { apply Bullet_move_off_canvas_unregistered.
    - rewrite N1. reflexivity.
    - congruence.
    - rewrite N4. intros Hin. specialize (Hfresh _ Hin). lia.
    - rewrite Bullet_step_obj, N1, N5, N6. simpl. exact Hout. }
  unfold bind. rewrite Hmove. unfold after, modify. simpl.
  rewrite N4, N3, Nroot, Nscore, Nitems.
  splits; try reflexivity.
  - pose proof (Bullet_step_obj gb (next_bullet g)) as Hobj.
    cbv zeta in Hobj. unfold Bullet_step in Hobj. simpl in Hobj.
    rewrite Hobj, N1. reflexivity.
  - pose proof (Bullet_step_obj gb (next_bullet g)) as Hobj.
    cbv zeta in Hobj. unfold Bullet_step in Hobj. simpl in Hobj.
    rewrite Hobj, N1. simpl. apply elem_of_app. right.
    apply list_elem_of_here.
Qed.

(** ** A registered bullet without a tick *)

Lemma list_remove_other (x y : nat) (l r : list nat) :
  list_remove x l = Some r -> y ∈ l -> y <> x -> y ∈ r.
Proof.
  revert r. induction l as [| z l IH]; intros r H Hy Hne; simpl in H;
    [discriminate |].
  destruct (decide (x = z)) as [-> | Hxz].
  - injection H as <-. apply elem_of_cons in Hy as [-> | Hy];
      [congruence | exact Hy].
  - destruct (list_remove x l) as [r' |]; [| discriminate].
    injection H as <-. apply elem_of_cons in Hy as [-> | Hy]; [left |].
    right. apply IH; [reflexivity | exact Hy | exact Hne].
Qed.

(** A callback other than the tick of bullet [nb] leaves a registered
    [nb] registered and untouched, and registers no tick for it. *)
Lemma run_callback_keeps_bullet (cb : Callback) (g : Game) (nb : nat) :
  EnemiesInv g -> BulletsInv g -> cb <> cb_bullet_move nb ->
  nb ∈ bullets g ->
  let g' := exec (run_callback cb) g in
  nb ∈ bullets g' /\ bullet_obj g' nb = bullet_obj g nb
  /\ exists add, timers (root g') = timers (root g) ++ add
                 /\ count_in (cb_bullet_move nb) add = 0%nat.
Proof.
  intros Hi Hb Hcb Hin. cbv zeta.
  assert (Hsame : forall g', bullets g' = bullets g ->
            bullet_obj g' = bullet_obj g -> timers (root g') = timers (root g) ->
            nb ∈ bullets g' /\ bullet_obj g' nb = bullet_obj g nb
            /\ exists add, timers (root g') = timers (root g) ++ add
                           /\ count_in (cb_bullet_move nb) add = 0%nat).
  { intros g' E1 E2 E3. rewrite E1, E2, E3.
    split; [exact Hin |]. split; [reflexivity |].
    exists []. split; [by rewrite app_nil_r | reflexivity]. }
  destruct cb as [| | | self |]; simpl run_callback.
  - destruct (is_game_over g) eqn:Ho.
    + unfold exec. rewrite Game_update_over by exact Ho.
      apply Hsame; reflexivity.
    + destruct (Game_update_running_spec g Ho (proj1 Hi))
        as (_ & _ & _ & _ & _ & _ & (k & A) & _ & _ & B & C & _).
      cbv zeta in A, B, C. rewrite B, C.
      split; [exact Hin |]. split; [reflexivity |].
      eexists. split; [exact A |]. count_norm.
  - destruct (is_game_over g) eqn:Ho; [| destruct (mouse_x g) as [mx |] eqn:Hx;
      [destruct (mouse_y g) as [my |] eqn:Hy |]].
    2: {
      destruct (Game_shoot_continuously_fires_spec g mx my Ho Hx Hy)
        as (_ & A & _ & _ & B & (sched & C) & _).
      { intros b Hb'. apply (proj2 Hb b Hb'). }
      cbv zeta in A, B, C.
      destruct (proj2 Hb nb Hin) as [Hlt _].
      split; [rewrite A; apply elem_of_app; left; exact Hin |].
      split; [apply B; lia |].
      eexists. split; [exact C |].
      destruct sched; count_norm. }
    all: unfold exec; rewrite Game_shoot_continuously_idle by tauto;
      (split; [exact Hin |]); (split; [reflexivity |]);
      exists [(500%Z, cb_shoot_continuously)]; (split; [reflexivity |]);
      count_norm.
  - destruct (is_game_over g) eqn:Ho.
    + unfold exec.
      rewrite Game_spawn_enemies_periodically_over by exact Ho.
      apply Hsame; reflexivity.
    + destruct (Game_spawn_enemies_periodically_spec g Ho)
        as (_ & _ & _ & _ & _ & A & _ & _ & _ & B & C & _).
      cbv zeta in A, B, C. rewrite B, C.
      split; [exact Hin |]. split; [reflexivity |].
      eexists. split; [exact A |]. count_norm.
  - assert (Hne : nb <> self) by congruence.
    destruct (Bullet_move_spec g self) as (_ & _ & _ & (_ & A & B)).
    split; [| split; [apply A; exact Hne |]].
    + destruct B as [(B1 & _) | (_ & B1 & _)].
      * rewrite B1. exact Hin.
      * eapply list_remove_other; eassumption.
    + destruct B as [(_ & _ & (sched & B1)) | (_ & _ & _ & B1)].
      * eexists. split; [exact B1 |]. destruct sched; count_norm.
      * exists []. split; [by rewrite app_nil_r | reflexivity].
  - destruct (Game_show_close_message_frame g)
      as (_ & _ & _ & _ & A & B & _ & _ & C & _).
    cbv zeta in A, B, C. apply Hsame; [exact A | exact B | by rewrite C].
Qed.

Lemma step_keeps_untimed_bullet (ev : Event) (g : Game) (nb : nat) :
  RunInv g -> nb ∈ bullets g -> count_timers (cb_bullet_move nb) g = 0%nat ->
  nb ∈ bullets (step ev g)
  /\ bullet_obj (step ev g) nb = bullet_obj g nb
  /\ count_timers (cb_bullet_move nb) (step ev g) = 0%nat.
Proof.
  intros (Hi & Hb & _) Hin Hc.
  assert (Hsame : nb ∈ bullets g /\ bullet_obj g nb = bullet_obj g nb
                  /\ count_timers (cb_bullet_move nb) g = 0%nat)
    by (split; [exact Hin | split; [reflexivity | exact Hc]]).
  destruct ev as [n | k | k | x y]; simpl.
  - destruct (timers (root g) !! n) as [[ms cb] |] eqn:Hn; [| exact Hsame].
    pose proof (count_timers_take (cb_bullet_move nb) cb g n ms Hn) as Ht.
    assert (Hcb : cb <> cb_bullet_move nb).
    { intros ->. rewrite decide_True in Ht by reflexivity. lia. }
    rewrite decide_False in Ht by exact Hcb.
    assert (Hit : EnemiesInv (take_timer n g)) by exact Hi.
    assert (Hbt : BulletsInv (take_timer n g)) by exact Hb.
    assert (Hint : nb ∈ bullets (take_timer n g)) by exact Hin.
    destruct (run_callback_keeps_bullet cb _ nb Hit Hbt Hcb Hint)
      as (A & B & (add & C & D)).
    split; [exact A |]. split; [exact B |].
    rewrite (count_timers_app _ _ _ _ C), D. lia.
  - destruct (bind_keypress (root g)); exact Hsame.
  - destruct (bind_keyrelease (root g)); exact Hsame.
  - destruct (bind_motion (root g)); exact Hsame.
Qed.

Lemma run_keeps_untimed_bullet (evs : list Event) (nb : nat) :
  forall g : Game,
  RunInv g -> nb ∈ bullets g -> count_timers (cb_bullet_move nb) g = 0%nat ->
  nb ∈ bullets (run evs g)
  /\ bullet_obj (run evs g) nb = bullet_obj g nb
  /\ count_timers (cb_bullet_move nb) (run evs g) = 0%nat.
Proof.
  induction evs as [| ev evs IH]; intros g Hr Hin Hc; simpl.
  - split; [exact Hin |]. split; [reflexivity | exact Hc].
  - destruct (step_keeps_untimed_bullet ev g nb Hr Hin Hc) as (A & B & C).
    destruct (IH _ (proj1 (step_RunInv ev g Hr)) A C) as (D & E & F).
    split; [exact D |]. split; [congruence | exact F].
Qed.

(** * A shot from the edge of the canvas *)

(** The state after the constructor and one mouse motion to (300, 100),
    on a canvas 105 wide, every draw 450. *)
Lemma edge_state :
  let g := step (EvMotion 300 100) (Game_init 105 600 (fun _ => 450%Z)) in
  is_game_over g = false
  /\ mouse_x g = Some 300%Z /\ mouse_y g = Some 100%Z
  /\ bullets g = [] /\ next_bullet g = 0%nat
  /\ p_x (player g) = 100%R /\ p_y (player g) = 100%R
  /\ winfo_width (canvas g) = 105%Z
  /\ timers (root g)
     = [(50%Z, cb_update); (500%Z, cb_shoot_continuously);
        (5000%Z, cb_spawn_enemies_periodically)].
Proof.
  cbv zeta.
  destruct (Game_init_state 105 600 (fun _ => 450%Z))
    as (T & _ & _ & _ & B1 & B2 & Px & Py & _ & _ & Ho & _ & _ & _ & _ & _
        & _ & K3).
  cbv zeta in T, B1, B2, Px, Py, Ho, K3.
  assert (W : winfo_width (canvas (Game_init 105 600 (fun _ => 450%Z)))
              = 105%Z) by reflexivity.
  revert T B1 B2 Px Py Ho K3 W.
  generalize (Game_init 105 600 (fun _ => 450%Z)).
  intros g0 T B1 B2 Px Py Ho K3 W.
  rewrite (step_motion 300 100 g0 K3).
  splits; first [reflexivity | assumption].
Qed.

(** Aiming from (100, 100) at (300, 100), the first step ends at
    x = 110, beyond a canvas 105 wide. *)
Lemma edge_aim (g : Game) :
  p_x (player g) = 100%R -> p_y (player g) = 100%R ->
  winfo_width (canvas g) = 105%Z ->
  let a := atan2 (IZR 100 - p_y (player g)) (IZR 300 - p_x (player g)) in
  ~ ((0 <= p_x (player g) + 10 * cos a <= IZR (winfo_width (canvas g)))%R
     /\ (0 <= p_y (player g) + 10 * sin a
         <= IZR (winfo_height (canvas g)))%R).
Proof.
  intros Hpx Hpy Hw. cbv zeta. rewrite Hpx, Hpy, Hw.
  replace (100 - 100)%R with 0%R by lra.
  replace (300 - 100)%R with 200%R by lra.
  rewrite atan2_0_pos by lra. rewrite cos_0. lra.
Qed.

(** The run in which the first shot leaves the canvas at once: the
    mouse moves to (300, 100), then the shooting task fires. *)
Lemma off_canvas_run :
  let g := run [EvMotion 300 100; EvTimer 1]
             (Game_init 105 600 (fun _ => 450%Z)) in
  bullets g = [0%nat] /\ count_timers (cb_bullet_move 0) g = 0%nat.
Proof.
  cbv zeta. lazy [run].
  destruct edge_state as (Ho & Hmx & Hmy & Hb & Hn & Hpx & Hpy & Hw & T).
  cbv zeta in Ho, Hmx, Hmy, Hb, Hn, Hpx, Hpy, Hw, T.
  revert Ho Hmx Hmy Hb Hn Hpx Hpy Hw T.
  generalize (step (EvMotion 300 100) (Game_init 105 600 (fun _ => 450%Z))).
  intros g1 Ho Hmx Hmy Hb Hn Hpx Hpy Hw T.
  assert (Hl : timers (root g1) !! 1%nat
               = Some (500%Z, cb_shoot_continuously))
    by (rewrite T; reflexivity).
  rewrite (step_timer 1 g1 500 cb_shoot_continuously Hl). simpl run_callback.
  assert (Tt : timers (root (take_timer 1 g1))
               = [(50%Z, cb_update); (5000%Z, cb_spawn_enemies_periodically)]).
  { change (take 1 (timers (root g1)) ++ drop 2 (timers (root g1))
            = [(50%Z, cb_update); (5000%Z, cb_spawn_enemies_periodically)]).
    rewrite T. reflexivity. }
  assert (Hbt : bullets (take_timer 1 g1) = []) by exact Hb.
  assert (Hnt : next_bullet (take_timer 1 g1) = 0%nat) by exact Hn.
  assert (Hpx' : p_x (player (take_timer 1 g1)) = 100%R) by exact Hpx.
  assert (Hpy' : p_y (player (take_timer 1 g1)) = 100%R) by exact Hpy.
  assert (Hot : is_game_over (take_timer 1 g1) = false) by exact Ho.
  assert (Hmx' : mouse_x (take_timer 1 g1) = Some 300%Z) by exact Hmx.
  assert (Hmy' : mouse_y (take_timer 1 g1) = Some 100%Z) by exact Hmy.
  assert (Hw' : winfo_width (canvas (take_timer 1 g1)) = 105%Z) by exact Hw.
  revert Tt Hbt Hnt Hpx' Hpy' Hot Hmx' Hmy' Hw'.
  generalize (take_timer 1 g1).
  intros gt Tt Hbt Hnt Hpx' Hpy' Hot Hmx' Hmy' Hw'.
  destruct (Game_shoot_continuously_off_canvas gt 300 100 Hot Hmx' Hmy')
    as (_ & A & _ & B & _).
  - intros b Hin. rewrite Hbt in Hin. exfalso.
    exact (proj1 (elem_of_nil b) Hin).
  - exact (edge_aim gt Hpx' Hpy' Hw').
  - cbv zeta in A, B. rewrite A, Hbt, Hnt. split; [reflexivity |].
    rewrite (count_timers_eq _ _ _ B), Tt. count_norm.
Qed.

(** X14: a shot whose first step leaves the canvas.  In a running game
    whose mouse position is known and whose registered bullets all exist,
    when the point 10 units from the player towards the mouse is off the
    canvas, [Game.shoot_continuously] returns normally and appends the
    new bullet to the collection, alive and with its oval still on the
    canvas, although the constructor's step has already called
    [remove_bullet] for it (the bullet was not yet in the collection);
    no tick is registered for the bullet, only the shooting task
    itself; the enemies and the score are untouched. *)
Theorem X14_shot_off_the_canvas (g : Game) (mx my : Z) :
  is_game_over g = false -> mouse_x g = Some mx -> mouse_y g = Some my ->
  (forall b, b ∈ bullets g -> (b < next_bullet g)%nat) ->
  let a := atan2 (IZR my - p_y (player g)) (IZR mx - p_x (player g)) in
  ~ ((0 <= p_x (player g) + 10 * cos a <= IZR (winfo_width (canvas g)))%R
     /\ (0 <= p_y (player g) + 10 * sin a
         <= IZR (winfo_height (canvas g)))%R) ->
  let nb := next_bullet g in
  let g' := exec Game_shoot_continuously g in
  outcome Game_shoot_continuously g = Ok tt
  /\ bullets g' = bullets g ++ [nb]
  /\ b_alive (bullet_obj g' nb) = true
  /\ timers (root g') = timers (root g) ++ [(500%Z, cb_shoot_continuously)]
  /\ (b_id (bullet_obj g' nb) ∈ items (canvas g'))
  /\ enemies g' = enemies g /\ score g' = score g.
Proof. exact (Game_shoot_continuously_off_canvas g mx my). Qed.

Lemma X14_shot_off_the_canvas_witness :
  let g := step (EvMotion 300 100) (Game_init 105 600 (fun _ => 450%Z)) in
  let g' := exec Game_shoot_continuously g in
  is_game_over g = false /\ bullets g = []
  /\ bullets g' = [0%nat] /\ b_alive (bullet_obj g' 0) = true
  /\ timers (root g')
     = [(50%Z, cb_update); (500%Z, cb_shoot_continuously);
        (5000%Z, cb_spawn_enemies_periodically);
        (500%Z, cb_shoot_continuously)].
Proof.
  cbv zeta.
  destruct edge_state as (Ho & Hmx & Hmy & Hb & Hn & Hpx & Hpy & Hw & T).
  cbv zeta in Ho, Hmx, Hmy, Hb, Hn, Hpx, Hpy, Hw, T.
  revert Ho Hmx Hmy Hb Hn Hpx Hpy Hw T.
  generalize (step (EvMotion 300 100) (Game_init 105 600 (fun _ => 450%Z))).
  intros g Ho Hmx Hmy Hb Hn Hpx Hpy Hw T.
  assert (Hfresh : forall b, b ∈ bullets g -> (b < next_bullet g)%nat).
  { intros b Hin. rewrite Hb in Hin. exfalso.
    exact (proj1 (elem_of_nil b) Hin). }
  pose proof (X14_shot_off_the_canvas g 300 100 Ho Hmx Hmy Hfresh
                (edge_aim g Hpx Hpy Hw)) as H.
  cbv zeta in H. destruct H as (_ & A & B & C & _).
  rewrite Hn in A, B. rewrite Hb in A. rewrite T in C.
  split; [exact Ho |]. split; [exact Hb |]. split; [exact A |].
  split; [exact B | exact C].
Defined.

(** X15: in every state that a run reaches from the constructor, a
    registered bullet for which no tick is pending is stuck: over every
    later run of events it stays in the collection, alive, with every
    field as it is, and no tick is ever registered for it.  The bullet of
    X14 is one. *)
Theorem X15_untimed_bullet_is_stuck
    (w h : Z) (s : nat -> Z) (evs1 evs2 : list Event) (nb : nat) :
  let g := run evs1 (Game_init w h s) in
  nb ∈ bullets g -> count_timers (cb_bullet_move nb) g = 0%nat ->
  let g' := run evs2 g in
  nb ∈ bullets g' /\ bullet_obj g' nb = bullet_obj g nb
  /\ b_alive (bullet_obj g' nb) = true
  /\ count_timers (cb_bullet_move nb) g' = 0%nat.
Proof.
  cbv zeta. intros Hin Hc.
  pose proof (reachable_RunInv w h s evs1) as Hr.
  destruct (run_keeps_untimed_bullet evs2 nb _ Hr Hin Hc) as (A & B & C).
  split; [exact A |]. split; [exact B |]. split; [| exact C].
  rewrite B. destruct Hr as (_ & (_ & Hb) & _). exact (proj2 (Hb nb Hin)).
Qed.

Lemma X15_untimed_bullet_is_stuck_witness :
  let g := run [EvMotion 300 100; EvTimer 1]
             (Game_init 105 600 (fun _ => 450%Z)) in
  bullets g = [0%nat] /\ count_timers (cb_bullet_move 0) g = 0%nat
  /\ (0%nat ∈ bullets (run [EvTimer 0; EvTimer 2; EvTimer 0] g)).
Proof.
  cbv zeta. destruct off_canvas_run as (Hb & Hc). cbv zeta in Hb, Hc.
  split; [exact Hb |]. split; [exact Hc |].
  refine (proj1 (X15_untimed_bullet_is_stuck 105 600 (fun _ => 450%Z)
                   [EvMotion 300 100; EvTimer 1]
                   [EvTimer 0; EvTimer 2; EvTimer 0] 0 _ Hc)).
  rewrite Hb. apply list_elem_of_here.
Defined.

(** * The claims about whole runs *)

(** ** Health over a run (C2) *)

Lemma step_health (ev : Event) (g : Game) :
  EnemiesInv g -> health_step ev g (step ev g).
Proof.
  intros Hi. destruct ev as [n | k | k | x y]; simpl.
  - destruct (timers (root g) !! n) as [[ms cb] |] eqn:Hn; [| reflexivity].
    assert (Hit : EnemiesInv (take_timer n g)) by exact Hi.
    destruct cb as [| | | self |]; simpl run_callback.
    + destruct (is_game_over g) eqn:Ho.
      * unfold exec. rewrite Game_update_over by exact Ho. simpl.
        split; [lia |]. split; [reflexivity |]. intros H. discriminate H.
      * destruct (Game_update_running_spec (take_timer n g) Ho (proj1 Hit))
          as (_ & _ & _ & A & B & C & _).
        cbv zeta in A, B, C.
        split; [exact C |]. split; [exact A |]. intros _. exact B.
    + destruct (Game_shoot_continuously_spec (take_timer n g))
        as (_ & _ & (A & _)). exact A.
    + destruct (is_game_over g) eqn:Ho.
      * unfold exec.
        rewrite Game_spawn_enemies_periodically_over by exact Ho.
        reflexivity.
      * destruct (Game_spawn_enemies_periodically_spec (take_timer n g) Ho)
          as (_ & _ & _ & _ & _ & _ & A & _). exact A.
    + destruct (Bullet_move_spec (take_timer n g) self)
        as (_ & _ & (A & _) & _). exact A.
    + exact (Game_show_close_message_player (take_timer n g)).
  - destruct (bind_keypress (root g)); reflexivity.
  - destruct (bind_keyrelease (root g)); reflexivity.
  - destruct (bind_motion (root g)); reflexivity.
Qed.

(** C2, amended: over every run from a new game, player health never
    increases and is at most 3.  It changes only in a tick of the update
    task, which lowers it by exactly 1 for each enemy that it takes out
    of the collection and, in a running game, leaves no enemy within the
    collision radius of the player; nothing clamps it at 0, so it falls
    below 0 when more enemies collide in one tick than lives are left.
    At every turn of the main loop the game-over flag is set exactly
    when health is at most 0: the flag is clear while health is
    positive, is set in the tick where health first reaches 0 or less,
    and is never cleared after. *)
Theorem C2_health_and_game_over
    (w h : Z) (stream : nat -> Z) (evs : list Event) (ev : Event) :
  let g := run evs (Game_init w h stream) in
  let g' := step ev g in
  (p_health (player g') <= p_health (player g))%Z
  /\ (p_health (player g) <= 3)%Z
  /\ is_game_over g = (p_health (player g) <=? 0)%Z
  /\ is_game_over g' = (p_health (player g') <=? 0)%Z
  /\ health_step ev g g'.
Proof.
  intros g g'.
  assert (Hi : HealthInv g).
  { apply run_HealthInv, Game_init_HealthInv. }
  assert (Hi' : HealthInv g').
  { apply (run_HealthInv [ev] g Hi). }
  pose proof (run_Mono [ev] g) as [Hm _]. simpl in Hm. fold g' in Hm.
  destruct Hi as [[H1 H2] H3], Hi' as [[H1' H2'] H3'].
  split; [exact Hm |]. split; [exact H3 |].
  split; [| split].
  - destruct (p_health (player g) <=? 0)%Z eqn:E.
    + apply H2. by apply Z.leb_le.
    + apply Z.leb_gt in E. destruct (is_game_over g); [| done].
      specialize (H1 eq_refl). lia.
  - destruct (p_health (player g') <=? 0)%Z eqn:E.
    + apply H2'. by apply Z.leb_le.
    + apply Z.leb_gt in E. destruct (is_game_over g'); [| done].
      specialize (H1' eq_refl). lia.
  - apply step_health. exact (proj1 (reachable_RunInv w h stream evs)).
Qed.

(** ** The shooting task under the flag (C4) *)

(** C4 at its failing input.  The run of [collision_run] ends with the
    game over, health -2, and six registrations pending: the shooting
    task, the spawner, the three close messages, and the update task,
    which the tick that ended the game registered once more after the
    flag was set.  From there the tick of the spawner and the tick of the
    update task register nothing, so both tasks are gone; the tick of the
    shooting task fires no bullet but registers itself again, and after
    every later run of events exactly one registration of it is
    pending. *)
Theorem C4_shoot_task_survives_game_over :
  let g := run [EvTimer 0; EvTimer 1; EvTimer 1] (Game_init 800 600 stream2) in
  (p_health (player g) = (-2)%Z /\ is_game_over g = true)
  /\ timers (root g)
     = [(500%Z, cb_shoot_continuously);
        (5000%Z, cb_spawn_enemies_periodically);
        (5000%Z, cb_show_close_message); (5000%Z, cb_show_close_message);
        (5000%Z, cb_show_close_message); (50%Z, cb_update)]
  /\ timers (root (step (EvTimer 1) g))
     = [(500%Z, cb_shoot_continuously);
        (5000%Z, cb_show_close_message); (5000%Z, cb_show_close_message);
        (5000%Z, cb_show_close_message); (50%Z, cb_update)]
  /\ timers (root (step (EvTimer 5) g))
     = [(500%Z, cb_shoot_continuously);
        (5000%Z, cb_spawn_enemies_periodically);
        (5000%Z, cb_show_close_message); (5000%Z, cb_show_close_message);
        (5000%Z, cb_show_close_message)]
  /\ timers (root (step (EvTimer 0) g))
     = [(5000%Z, cb_spawn_enemies_periodically);
        (5000%Z, cb_show_close_message); (5000%Z, cb_show_close_message);
        (5000%Z, cb_show_close_message); (50%Z, cb_update);
        (500%Z, cb_shoot_continuously)]
  /\ bullets (step (EvTimer 0) g) = bullets g
  /\ forall evs, count_timers cb_shoot_continuously (run evs g) = 1%nat.
Proof.
  cbv zeta.
  rewrite (run_app [EvTimer 0; EvTimer 1] [EvTimer 1]).
  destruct collision_run as (_ & (B1 & B2 & _) & T). cbv zeta in B1, B2, T.
  assert (Hinv : forall evs,
            TimersInv (run evs (run [EvTimer 1]
              (run [EvTimer 0; EvTimer 1] (Game_init 800 600 stream2))))).
  { intros evs. rewrite <- !run_app.
    exact (proj1 (proj2 (proj2 (reachable_RunInv _ _ _ _)))). }
  revert B1 B2 T Hinv.
  generalize (run [EvTimer 1]
                (run [EvTimer 0; EvTimer 1] (Game_init 800 600 stream2))).
  intros g B1 B2 T Hinv.
  assert (Hb : bullets (step (EvTimer 0) g) = bullets g).
  { simpl. rewrite T. simpl. unfold exec.
    rewrite Game_shoot_continuously_over by exact B2. reflexivity. }
  assert (Htake : forall n, timers (root (take_timer n g))
                    = take n (timers (root g)) ++ drop (S n) (timers (root g)))
    by reflexivity.
  split; [split; assumption |]. split; [exact T |].
  split.
  { rewrite (tick_under_flag g 1 5000 cb_spawn_enemies_periodically)
      by (rewrite ?T; first [reflexivity | exact B2]).
    rewrite Htake, T. reflexivity. }
  split.
  { rewrite (tick_under_flag g 5 50 cb_update)
      by (rewrite ?T; first [reflexivity | exact B2]).
    rewrite Htake, T. reflexivity. }
  split.
  { rewrite (tick_under_flag g 0 500 cb_shoot_continuously)
      by (rewrite ?T; first [reflexivity | exact B2]).
    rewrite Htake, T. reflexivity. }
  split; [exact Hb |].
  intros evs. exact (proj1 (proj2 (Hinv evs))).
Qed.

(** ** Removal (C1) *)




(** ** A bullet's path after its creation (C8) *)

Lemma SameAim_Frame : Frame SameAim.
Proof.
  split; unfold SameAim; try (intros; simpl; tauto).
  - intros g1 g2 g3 H1 H2 r.
    destruct (H1 r) as (?&?), (H2 r) as (?&?).
    split; congruence.
  - intros r g r'. simpl. destruct (decide (r' = r)) as [-> |]; simpl; tauto.
Qed.

Lemma Bullet_after_step_SameAim (self : nat) :
  preserves SameAim (Bullet_after_step self).
Proof.
  assert (F := SameAim_Frame).
  unfold Bullet_after_step, canvas_coords.
  pose proof (Bullet_is_in_bounds_pres _ F).
  pose proof (Game_remove_bullet_pres _ F).
  pose proof (Bullet_check_collision_pres _ F).
  pose proof (after_pres _ F).
  pres_with F ltac:(frame_leaf F).
Qed.

(** The bullet that the constructor returns in a running game: its
    angle is the one to the target, its velocity is speed 10 along that
    angle, and it has taken one step from its start. *)
Lemma Bullet_init_aim (g : Game) (sx sy tx ty : R) :
  is_game_over g = false ->
  let a := atan2 (ty - sy) (tx - sx) in
  let b := bullet_obj (exec (Bullet_init sx sy tx ty) g) (next_bullet g) in
  outcome (Bullet_init sx sy tx ty) g = Ok (next_bullet g)
  /\ b_angle b = a /\ b_speed b = 10%R
  /\ b_dx b = (10 * cos a)%R /\ b_dy b = (10 * sin a)%R
  /\ b_x b = (sx + 10 * cos a)%R /\ b_y b = (sy + 10 * sin a)%R.
Proof.
  intros Ho. cbv zeta.
  destruct (Bullet_init_running g sx sy tx ty Ho) as (A & B & C & D & E).
  cbv zeta in A, B, C, D, E.
  split; [exact A |].
  assert (Hang : b_angle (bullet_obj (exec (Bullet_init sx sy tx ty) g)
                            (next_bullet g))
                 = atan2 (ty - sy) (tx - sx)
                 /\ b_speed (bullet_obj (exec (Bullet_init sx sy tx ty) g)
                               (next_bullet g)) = 10%R).
  { unfold exec. rewrite (Bullet_init_running_eq g sx sy tx ty Ho).
    destruct (Bullet_new_obj g sx sy tx ty) as (_ & N1 & _).
    cbv zeta in N1.
    set (gb := exec (Bullet_new sx sy tx ty) g) in *. clearbody gb.
    pose proof (Bullet_step_obj gb (next_bullet g)) as Hs.
    cbv zeta in Hs.
    set (gs := Bullet_step (next_bullet g) gb) in *. clearbody gs.
    destruct (Bullet_after_step_SameAim (next_bullet g) gs (next_bullet g))
      as (S1 & S2).
    rewrite Hs in S1, S2. cbn [b_angle b_speed] in S1, S2.
    rewrite N1 in S1, S2. cbn [b_angle b_speed] in S1, S2.
    unfold exec in S1, S2. unfold bind.
    destruct (Bullet_after_step (next_bullet g) gs) as [[[] | x] g'];
      split; assumption. }
  destruct Hang as [H1 H2].
  split; [exact H1 |]. split; [exact H2 |]. tauto.
Qed.

(** The flight of a bullet created at (100, 100) towards (200, 100), in a
    running game, over a canvas and past enemies that leave the row
    y = 100 free from x = 110 to x = 110 + 10 k: the constructor and [k]
    ticks after it. *)
Lemma bullet_flight (g : Game) (k : nat) (tx ty : R) :
  is_game_over g = false ->
  (110 + 10 * INR k <= IZR (winfo_width (canvas g)))%R ->
  (100 <= IZR (winfo_height (canvas g)))%R ->
  (forall e bx, e ∈ enemies g -> (110 <= bx <= 110 + 10 * INR k)%R ->
     (20 <= dist (e_x (enemy_obj g e)) (e_y (enemy_obj g e)) bx 100)%R) ->
  let self := next_bullet g in
  let bt := bullet_obj (exec (Bullet_init 100 100 tx ty) g) self in
  let g0 := exec (Bullet_init 100 100 200 100) g in
  let gk := exec (Bullet_ticks k self) g0 in
  (b_angle bt = atan2 (ty - 100) (tx - 100)
   /\ b_dx bt = (10 * cos (b_angle bt))%R
   /\ b_dy bt = (10 * sin (b_angle bt))%R)
  /\ outcome (Bullet_init 100 100 200 100) g = Ok self
  /\ (b_angle (bullet_obj g0 self) = 0%R
      /\ b_dx (bullet_obj g0 self) = 10%R /\ b_dy (bullet_obj g0 self) = 0%R)
  /\ (b_x (bullet_obj g0 self) = 110%R /\ b_y (bullet_obj g0 self) = 100%R)
  /\ outcome (Bullet_ticks k self) g0 = Ok tt
  /\ (b_x (bullet_obj gk self) = (110 + 10 * INR k)%R
      /\ b_y (bullet_obj gk self) = 100%R)
  /\ (b_dx (bullet_obj gk self) = 10%R /\ b_dy (bullet_obj gk self) = 0%R).
Proof.
  intros Ho Hw Hh Hclear. cbv zeta.
  pose proof (pos_INR k) as Hk.
  destruct (Bullet_init_aim g 100 100 tx ty Ho) as (_ & T1 & _ & T2 & T3 & _).
  cbv zeta in T1, T2, T3.
  split; [rewrite T1 at 2 3; tauto |].
  assert (Ha : atan2 (100 - 100) (200 - 100) = 0%R).
  { replace (100 - 100)%R with 0%R by lra. apply atan2_0_pos. lra. }
  destruct (Bullet_init_aim g 100 100 200 100 Ho)
    as (A0 & A1 & _ & A2 & A3 & A4 & A5).
  cbv zeta in A0, A1, A2, A3, A4, A5.
  rewrite Ha in A1, A2, A3, A4, A5. rewrite cos_0 in A2, A4.
  rewrite sin_0 in A3, A5.
  split; [exact A0 |].
  split; [split; [exact A1 | split; lra] |].
  split; [split; lra |].
  (* the constructor's own step, then k more *)
  destruct (Bullet_new_obj g 100 100 200 100)
    as (_ & Hb & Hf & Hen & Hobj & _ & Hcw & Hch).
  cbv zeta in Hb, Hf, Hen, Hobj, Hcw, Hch.
  rewrite Ha, cos_0, sin_0 in Hb.
  assert (H0 : flying g (next_bullet g) 100
                 (exec (Bullet_new 100 100 200 100) g)).
  { unfold flying. rewrite Hb, Hf, Hen, Hobj, Hcw, Hch. simpl.
    repeat split; try assumption; try reflexivity; lra. }
  destruct (flying_tick g (next_bullet g) (110 + 10 * INR k) Hw Hh Hclear
              100 _ H0) as (g0 & E0 & F0); [lra | lra |].
  assert (Eg0 : exec (Bullet_init 100 100 200 100) g = g0).
  { rewrite Bullet_init_exec. unfold exec at 1. rewrite E0. reflexivity. }
  rewrite Eg0.
  replace (100 + 10)%R with 110%R in F0 by lra.
  destruct (flying_ticks g (next_bullet g) (110 + 10 * INR k) Hw Hh Hclear
              k 110 g0 F0) as (gk & Ek & Fk); [lra | lra |].
  unfold outcome, exec. rewrite Ek. simpl.
  destruct Fk as (_ & _ & _ & _ & _ & _ & Hx & Hy & Hdx & Hdy).
  split; [reflexivity |]. split; split; assumption.
Qed.

(** The constructor's state with every draw 450: the three enemies stand
    at (500, 500), far from the row y = 100. *)
Lemma clear_sky (k : nat) :
  (INR k <= 60)%R ->
  let g := Game_init 800 600 (fun _ => 450%Z) in
  is_game_over g = false
  /\ (110 + 10 * INR k <= IZR (winfo_width (canvas g)))%R
  /\ (100 <= IZR (winfo_height (canvas g)))%R
  /\ (forall e bx, e ∈ enemies g -> (110 <= bx <= 110 + 10 * INR k)%R ->
        (20 <= dist (e_x (enemy_obj g e)) (e_y (enemy_obj g e)) bx 100)%R)
  /\ next_bullet g = 0%nat.
Proof.
  intros Hk g.
  assert (Hen : enemies g = [0; 1; 2]%nat) by reflexivity.
  split; [reflexivity |].
  split; [change (winfo_width (canvas g)) with 800%Z; lra |].
  split; [change (winfo_height (canvas g)) with 600%Z; lra |].
  split; [| reflexivity].
  intros e bx He Hbx. rewrite Hen in He.
  assert (Hy : e_y (enemy_obj g e) = 500%R).
  { apply elem_of_cons in He as [-> | He]; [reflexivity |].
    apply elem_of_cons in He as [-> | He]; [reflexivity |].
    apply elem_of_cons in He as [-> | He]; [reflexivity |].
    exfalso. exact (proj1 (elem_of_nil e) He). }
  rewrite Hy.
  pose proof (dist_ge_dy (e_x (enemy_obj g e)) 500 bx 100) as Hd.
  rewrite Rabs_right in Hd by lra. lra.
Qed.

(** C8, as stated, fails: the bullet that the constructor returns is
    already at (110, 100), and five ticks after its creation it is at
    (160, 100), not at (150, 100). *)
Lemma C8_counterexample :
  let g := Game_init 800 600 (fun _ => 450%Z) in
  let g0 := exec (Bullet_init 100 100 200 100) g in
  let g5 := exec (Bullet_ticks 5 0) g0 in
  is_game_over g = false
  /\ outcome (Bullet_init 100 100 200 100) g = Ok 0%nat
  /\ b_x (bullet_obj g0 0) = 110%R /\ b_y (bullet_obj g0 0) = 100%R
  /\ outcome (Bullet_ticks 5 0) g0 = Ok tt
  /\ b_x (bullet_obj g5 0) = 160%R /\ b_y (bullet_obj g5 0) = 100%R
  /\ b_x (bullet_obj g5 0) <> 150%R.
Proof.
  cbv zeta.
  assert (H5 : (INR 5 <= 60)%R) by (simpl; lra).
  destruct (clear_sky 5 H5) as (Ho & Hw & Hh & Hc & Hn). cbv zeta in *.
  pose proof (bullet_flight _ 5 200 100 Ho Hw Hh Hc) as H.
  cbv zeta in H. rewrite Hn in H.
  destruct H as (_ & A & _ & (B1 & B2) & C & (D1 & D2) & _).
  replace (110 + 10 * INR 5)%R with 160%R in D1 by (simpl; lra).
  split; [exact Ho |]. split; [exact A |]. split; [exact B1 |].
  split; [exact B2 |]. split; [exact C |]. split; [exact D1 |].
  split; [exact D2 |]. rewrite D1. lra.
Qed.

(** C8, amended: in a running game, a bullet created at (100, 100) gets
    its angle from atan2 towards its target and its velocity as speed 10
    along that angle, once, at creation; with target (200, 100) the angle
    is 0 and the velocity (10, 0).  The constructor takes the first step
    itself, so the bullet it returns is at (110, 100); and after [k]
    ticks, on a canvas and past enemies that leave the row y = 100 free
    from x = 110 to x = 110 + 10 k, it is at (110 + 10 k, 100) with the
    same velocity: at (150, 100) after four ticks, at (160, 100) after
    five. *)
Theorem C8_bullet_scenario (g : Game) (k : nat) (tx ty : R) :
  is_game_over g = false ->
  (110 + 10 * INR k <= IZR (winfo_width (canvas g)))%R ->
  (100 <= IZR (winfo_height (canvas g)))%R ->
  (forall e bx, e ∈ enemies g -> (110 <= bx <= 110 + 10 * INR k)%R ->
     (20 <= dist (e_x (enemy_obj g e)) (e_y (enemy_obj g e)) bx 100)%R) ->
  let self := next_bullet g in
  let bt := bullet_obj (exec (Bullet_init 100 100 tx ty) g) self in
  let g0 := exec (Bullet_init 100 100 200 100) g in
  let gk := exec (Bullet_ticks k self) g0 in
  (b_angle bt = atan2 (ty - 100) (tx - 100)
   /\ b_dx bt = (10 * cos (b_angle bt))%R
   /\ b_dy bt = (10 * sin (b_angle bt))%R)
  /\ outcome (Bullet_init 100 100 200 100) g = Ok self
  /\ (b_angle (bullet_obj g0 self) = 0%R
      /\ b_dx (bullet_obj g0 self) = 10%R /\ b_dy (bullet_obj g0 self) = 0%R)
  /\ (b_x (bullet_obj g0 self) = 110%R /\ b_y (bullet_obj g0 self) = 100%R)
  /\ outcome (Bullet_ticks k self) g0 = Ok tt
  /\ (b_x (bullet_obj gk self) = (110 + 10 * INR k)%R
      /\ b_y (bullet_obj gk self) = 100%R)
  /\ (b_dx (bullet_obj gk self) = 10%R /\ b_dy (bullet_obj gk self) = 0%R).
Proof. exact (bullet_flight g k tx ty). Qed.

Lemma C8_bullet_scenario_witness :
  let g := Game_init 800 600 (fun _ => 450%Z) in
  let g0 := exec (Bullet_init 100 100 200 100) g in
  is_game_over g = false
  /\ b_x (bullet_obj g0 0) = 110%R
  /\ b_x (bullet_obj (exec (Bullet_ticks 4 0) g0) 0) = 150%R.
Proof.
  cbv zeta.
  assert (H4 : (INR 4 <= 60)%R) by (simpl; lra).
  destruct (clear_sky 4 H4) as (Ho & Hw & Hh & Hc & Hn). cbv zeta in *.
  pose proof (C8_bullet_scenario _ 4 200 100 Ho Hw Hh Hc) as H.
  cbv zeta in H. rewrite Hn in H.
  destruct H as (_ & _ & _ & (B1 & _) & _ & (D1 & _) & _).
  replace (110 + 10 * INR 4)%R with 150%R in D1 by (simpl; lra).
  split; [exact Ho |]. split; [exact B1 | exact D1].
Defined.

(** ** Removed bullets (C10) *)

(** C10: [remove_bullet] on a bullet of the collection, alive or not, in
    a running game or not, returns normally, takes the bullet out of the
    collection and leaves its [alive] flag false, without moving it.  The
    move step of an existing bullet whose [alive] flag is false, or whose
    game is over, returns with the state unchanged, and over every later
    run of events such a bullet keeps its position and stays dead or in a
    game that is over.  So over every later run of events the removed
    bullet stays dead and keeps the position it had when it was removed,
    also when a tick registered for it before the removal fires. *)
Theorem C10_removed_bullet_never_moves
    (g : Game) (b : nat) (evs : list Event) :
  (b < next_bullet g)%nat -> b ∈ bullets g ->
  let g1 := exec (Game_remove_bullet b) g in
  let g2 := run evs g1 in
  (outcome (Game_remove_bullet b) g = Ok tt
   /\ list_remove b (bullets g) = Some (bullets g1)
   /\ b_alive (bullet_obj g1 b) = false
   /\ b_x (bullet_obj g1 b) = b_x (bullet_obj g b)
   /\ b_y (bullet_obj g1 b) = b_y (bullet_obj g b))
  /\ (forall (g' : Game) (evs' : list Event),
        (b < next_bullet g')%nat ->
        b_alive (bullet_obj g' b) = false \/ is_game_over g' = true ->
        Bullet_move b g' = (Ok tt, g')
        /\ b_x (bullet_obj (run evs' g') b) = b_x (bullet_obj g' b)
        /\ b_y (bullet_obj (run evs' g') b) = b_y (bullet_obj g' b)
        /\ (b_alive (bullet_obj (run evs' g') b) = false
            \/ is_game_over (run evs' g') = true))
  /\ (b_alive (bullet_obj g2 b) = false
      /\ b_x (bullet_obj g2 b) = b_x (bullet_obj g b)
      /\ b_y (bullet_obj g2 b) = b_y (bullet_obj g b)
      /\ Bullet_move b g2 = (Ok tt, g2)).
Proof.
  intros Hlt Hin. cbv zeta.
  destruct (Game_remove_bullet_member g b Hin) as (r & Hr & Hok & Hbs & Ha).
  assert (Hpos : b_x (bullet_obj (exec (Game_remove_bullet b) g) b)
                 = b_x (bullet_obj g b)
                 /\ b_y (bullet_obj (exec (Game_remove_bullet b) g) b)
                    = b_y (bullet_obj g b)
                 /\ next_bullet (exec (Game_remove_bullet b) g)
                    = next_bullet g).
  { unfold Game_remove_bullet. unfold_monad.
    rewrite bool_decide_eq_true_2 by exact Hin. simpl. rewrite Hr. simpl.
    decide_eq. simpl. tauto. }
  destruct Hpos as (Px & Py & Pn).
  split.
  { split; [exact Hok |]. split; [rewrite Hbs; exact Hr |].
    split; [exact Ha |]. split; [exact Px | exact Py]. }
  split.
  { intros g' evs' Hlt' [Hd | Ho].
    - split; [apply Bullet_move_dead; exact Hd |].
      destruct (run_StaysDead b evs' g' (conj Hlt' Hd)) as (_ & A & B & C).
      tauto.
    - split; [apply Bullet_move_over; exact Ho |].
      destruct (run_over evs' g' Ho)
        as (_ & _ & _ & Hobj & _ & _ & _ & _ & Hf).
      rewrite Hobj. split; [reflexivity |]. split; [reflexivity |].
      right. congruence. }
  destruct (run_StaysDead b evs (exec (Game_remove_bullet b) g))
    as (_ & A & B & C); [split; [rewrite Pn; exact Hlt | exact Ha] |].
  split; [exact A |]. split; [congruence |]. split; [congruence |].
  apply Bullet_move_dead. exact A.
Qed.

Lemma C10_removed_bullet_never_moves_witness :
  let g := run [EvTimer 1]
             (run [EvMotion 200 100] (Game_init 800 600 stream7)) in
  let g1 := exec (Game_remove_bullet 0) g in
  (0 < next_bullet g)%nat /\ bullets g = [0%nat]
  /\ b_alive (bullet_obj g 0) = true
  /\ timers (root g) !! 2%nat = Some (50%Z, cb_bullet_move 0)
  /\ bullets g1 = []
  /\ b_alive (bullet_obj g1 0) = false
  /\ b_x (bullet_obj (run [EvTimer 2] g1) 0) = b_x (bullet_obj g 0).
Proof.
  cbv zeta.
  destruct shoot_run as (_ & _ & (_ & _ & Hb & Ha & Ht & Hn) & _).
  cbv zeta in Hb, Ha, Ht, Hn.
  revert Hb Ha Ht Hn.
  generalize (run [EvTimer 1]
                (run [EvMotion 200 100] (Game_init 800 600 stream7))).
  intros g Hb Ha Ht Hn.
  assert (Hlt : (0 < next_bullet g)%nat) by (rewrite Hn; lia).
  assert (Hin : 0%nat ∈ bullets g) by (rewrite Hb; apply list_elem_of_here).
  pose proof (C10_removed_bullet_never_moves g 0 [EvTimer 2] Hlt Hin) as H.
  cbv zeta in H. destruct H as ((_ & H1 & H2 & _) & _ & (_ & H3 & _)).
  rewrite Hb in H1. simpl in H1. injection H1 as H1.
  split; [exact Hlt |]. split; [exact Hb |]. split; [exact Ha |].
  split; [exact Ht |]. split; [symmetry; exact H1 |].
  split; [exact H2 | exact H3].
Defined.
